(** * nest-scramble: incremental cache and dependency invalidation

  A shallow embedding of the caching core of nest-scramble
  ([src/tracker/DependencyTracker.ts], [src/cache/CacheManager.ts],
  [src/scanner/IncrementalScannerService.ts],
  [src/watcher/FileWatcher.ts]) and the properties of its
  specification.

  Conventions of the embedding:
  - a JavaScript [Map<string, V>] and a plain object used as a
    dictionary are [gmap string V]; a [Set<string>] is [gset string];
    iterating one of them is iterating [map_to_list] / [elements], in
    the order of the library and not in insertion order (no property
    below depends on the order); the affected set of a cycle, whose
    order is the order of the scans, is a list without duplicates;
  - [path.normalize], the digest of [crypto] and the ts-morph project
    are libraries the code calls; they are parameters of the sections;
  - [Date.now()] and the content of the disk are arguments;
  - a [while] loop is a [Fixpoint] on a fuel argument and every statement
    about its result comes with the fuel that suffices. *)

From stdpp Require Import gmap strings list fin_maps fin_sets relations.
From Stdlib Require Import ZArith Lia Ascii.

Set Warnings "-clear-no-such-hyp".

(** A decidable statement about concrete data, by evaluation. *)
Ltac by_evaluation := refine (bool_decide_unpack _ _); vm_compute; exact I.


(** ** DependencyTracker.ts *)

Module DependencyTracker.
Section tracker.

(** [path.normalize] and [path.basename] of Node.js. *)
Variable normalize : string → string.
Variable basename : string → string → string.

(** The three private maps of the class. *)
Record t := mk {
  dependencyGraph : gmap string (gset string);
  reverseDependencyGraph : gmap string (gset string);
  inheritanceGraph : gmap string (gset string)
}.

Definition empty : t := mk ∅ ∅ ∅.

(** [getDependencies(filePath)] *)
Definition getDependencies (g : t) (filePath : string) : list string :=
  match dependencyGraph g !! normalize filePath with
  | Some deps => elements deps
  | None => []
  end.

(** [getDependents(filePath)] *)
Definition getDependents (g : t) (filePath : string) : list string :=
  match reverseDependencyGraph g !! normalize filePath with
  | Some dependents => elements dependents
  | None => []
  end.

(** [getInheritors(filePath)]: the keys of the inheritance map whose
    set has the normalized path. *)
Definition getInheritors (g : t) (filePath : string) : list string :=
  (filter (λ e : string * gset string, normalize filePath ∈ e.2)
          (map_to_list (inheritanceGraph g))).*1.

(** The [while (queue.length > 0)] loop of [getAffectedFiles]; the
    state is [queue], [visited] and [affected], and the loop returns
    the last two when the queue is empty. *)
Fixpoint affected_loop (g : t) (fuel : nat) (queue : list string)
    (visited affected : gset string) : option (gset string * gset string) :=
  match fuel with
  | O => None
  | S fuel' =>
    match queue with
    | [] => Some (visited, affected)
    | current :: queue' =>
      if decide (current ∈ visited) then
        affected_loop g fuel' queue' visited affected
      else
        let dependents := getDependents g current in
        let inheritors := getInheritors g current in
        affected_loop g fuel'
          ((queue' ++ dependents) ++ inheritors)
          ({[current]} ∪ visited)
          ((affected ∪ list_to_set dependents) ∪ list_to_set inheritors)
    end
  end.

(** Every file the traversal from [start] can meet: the start, the
    members of the reverse index and the keys of the inheritance map. *)
Definition files (g : t) (start : string) : gset string :=
  {[start]} ∪ ⋃ (map_to_list (reverseDependencyGraph g)).*2
            ∪ dom (inheritanceGraph g).

(** Iterations that suffice: each distinct file is expanded at most
    once and pushes at most [2 * size files] entries. *)
Definition fuel_bound (g : t) (start : string) : nat :=
  let n := size (files g start) in 2 + n * (2 * n + 1).

(** [getAffectedFiles(changedFilePath)] run for [fuel] iterations. *)
Definition getAffectedFiles_fuel (fuel : nat) (g : t) (changedFilePath : string)
    : option (gset string) :=
  snd <$> affected_loop g fuel [normalize changedFilePath] ∅ ∅.

(** [getAffectedFiles(changedFilePath)] *)
Definition getAffectedFiles (g : t) (changedFilePath : string) : gset string :=
  default ∅ (getAffectedFiles_fuel
               (fuel_bound g (normalize changedFilePath)) g changedFilePath).

(** One hop of the traversal, read off the two maps: [y] is a plain
    dependent of [x], or [y] extends or implements something of [x]. *)
Definition dependent_edge (g : t) (x y : string) : Prop :=
  ∃ s, reverseDependencyGraph g !! normalize x = Some s ∧ y ∈ s.

Definition inheritor_edge (g : t) (x y : string) : Prop :=
  ∃ s, inheritanceGraph g !! y = Some s ∧ normalize x ∈ s.

Definition edge (g : t) (x y : string) : Prop :=
  dependent_edge g x y ∨ inheritor_edge g x y.

(** Old reverse entries of [filePath] are dropped; an entry that gets
    empty is deleted (the loop shared by [updateDependency] and
    [removeDependency]). *)
Definition dropReverse (p : string) (rev : gmap string (gset string))
    (dep : string) : gmap string (gset string) :=
  match rev !! dep with
  | Some reverseDeps =>
    let reverseDeps' := reverseDeps ∖ {[p]} in
    if decide (size reverseDeps' = 0) then delete dep rev
    else <[dep := reverseDeps']> rev
  | None => rev
  end.

Definition addReverse (p : string) (rev : gmap string (gset string))
    (dep : string) : gmap string (gset string) :=
  let rev' := match rev !! dep with
              | Some _ => rev
              | None => <[dep := ∅]> rev
              end in
  match rev' !! dep with
  | Some s => <[dep := {[p]} ∪ s]> rev'
  | None => rev'
  end.

(** What [analyzeDependencies] finds for one file in the ts-morph
    project: the dependency array it returns, the inheritance chain
    and the path ts-morph reports for the source file. [None] is the
    early return for a file the project does not have. *)
Record Analysis := mkAnalysis {
  an_dependencies : list string;
  an_inheritanceChain : gset string;
  an_sourcePath : string
}.

(** [analyzeDependencies]: returns the array; stores a non-empty
    inheritance chain under the normalized source path. *)
Definition analyzeDependencies (a : option Analysis) (g : t) : list string * t :=
  match a with
  | None => ([], g)
  | Some a =>
    let g' :=
      if decide (0 < size (an_inheritanceChain a)) then
        mk (dependencyGraph g) (reverseDependencyGraph g)
           (<[normalize (an_sourcePath a) := an_inheritanceChain a]>
              (inheritanceGraph g))
      else g in
    (an_dependencies a, g')
  end.

(** [updateDependency(filePath)] *)
Definition updateDependency (a : option Analysis) (g : t) (filePath : string) : t :=
  let normalizedPath := normalize filePath in
  let rev1 :=
    match dependencyGraph g !! normalizedPath with
    | Some oldDeps => foldl (dropReverse normalizedPath)
                            (reverseDependencyGraph g) (elements oldDeps)
    | None => reverseDependencyGraph g
    end in
  let '(newDeps, g1) :=
    analyzeDependencies a (mk (dependencyGraph g) rev1 (inheritanceGraph g)) in
  let fwd2 := <[normalizedPath := list_to_set newDeps]> (dependencyGraph g1) in
  let rev2 := foldl (addReverse normalizedPath) (reverseDependencyGraph g1) newDeps in
  mk fwd2 rev2 (inheritanceGraph g1).

(** [removeDependency(filePath)] *)
Definition removeDependency (g : t) (filePath : string) : t :=
  let normalizedPath := normalize filePath in
  let rev1 :=
    match dependencyGraph g !! normalizedPath with
    | Some deps => foldl (dropReverse normalizedPath)
                         (reverseDependencyGraph g) (elements deps)
    | None => reverseDependencyGraph g
    end in
  mk (delete normalizedPath (dependencyGraph g))
     (delete normalizedPath rev1)
     (inheritanceGraph g).

(** [isDtoFile(filePath)]: one of the patterns [/\.dto$/i],
    [/\.model$/i], [/\.entity$/i], [/\.interface$/i], [/\.type$/i]
    matches [path.basename(normalizedPath, '.ts')]. *)
Definition lower (c : ascii) : ascii :=
  let n := nat_of_ascii c in
  if decide (65 ≤ n ∧ n ≤ 90) then ascii_of_nat (n + 32) else c.

Definition ends_with_ci (ending name : string) : bool :=
  bool_decide (String.list_ascii_of_string ending
                 `suffix_of` (lower <$> String.list_ascii_of_string name)).

Definition dtoPatterns : list string :=
  [".dto"; ".model"; ".entity"; ".interface"; ".type"]%string.

Definition isDtoFile (filePath : string) : bool :=
  let normalizedPath := normalize filePath in
  let fileName := basename normalizedPath ".ts"%string in
  existsb (λ pattern, ends_with_ci pattern fileName) dtoPatterns.

(** The invariant of the data model: [reverse[d]] has [q] iff
    [forward[q]] has [d]. *)
Definition symmetric (g : t) : Prop :=
  ∀ q d : string,
    q ∈ default ∅ (reverseDependencyGraph g !! d)
    ↔ d ∈ default ∅ (dependencyGraph g !! q).

(** The invariant of the loop of [getAffectedFiles] started at [s]. *)
Definition loop_inv (g : t) (s : string) (queue : list string)
    (visited affected : gset string) : Prop :=
  (∀ x, x ∈ queue → rtc (edge g) s x)
  ∧ (∀ x, x ∈ visited → rtc (edge g) s x)
  ∧ (∀ y, y ∈ affected → tc (edge g) s y)
  ∧ (s ∈ visited ∨ s ∈ queue)
  ∧ (∀ x y, x ∈ visited → edge g x y → y ∈ affected ∧ (y ∈ visited ∨ y ∈ queue)).

(** *** The rest of the class *)

(** [path.dirname], [path.resolve] (of a directory and a module
    specifier) and [path.join] of Node.js. *)
Variable dirname : string → string.
Variable resolve : string → string → string.
Variable join : string → string → string.

(** What [fs.existsSync] and [fs.statSync] see at a path. *)
Inductive Kind := IsFile | IsDirectory | IsOther.

Definition existsSync (tree : gmap string Kind) (p : string) : bool :=
  bool_decide (is_Some (tree !! p)).

Definition isFile (tree : gmap string Kind) (p : string) : bool :=
  match tree !! p with Some IsFile => true | _ => false end.

Definition isDirectory (tree : gmap string Kind) (p : string) : bool :=
  match tree !! p with Some IsDirectory => true | _ => false end.

Definition extensions : list string :=
  [".ts"; ".tsx"; "/index.ts"; "/index.tsx"]%string.

(** [resolveImportPath(sourceFile, moduleSpecifier)]; [sourcePath] is
    the path of the source file. *)
Definition resolveImportPath (tree : gmap string Kind)
    (sourcePath moduleSpecifier : string) : option string :=
  let sourceDir := dirname sourcePath in
  let resolvedPath := resolve sourceDir moduleSpecifier in
  if existsSync tree resolvedPath && isFile tree resolvedPath then
    Some (normalize resolvedPath)
  else
    match find (λ ext, existsSync tree (resolvedPath +:+ ext)) extensions with
    | Some ext => Some (normalize (resolvedPath +:+ ext))
    | None =>
      if existsSync tree resolvedPath && isDirectory tree resolvedPath then
        let indexPath := join resolvedPath "index.ts"%string in
        if existsSync tree indexPath then Some (normalize indexPath) else None
      else None
    end.

(** [new Set(array)] followed by [Array.from]: the first occurrences,
    in order. *)
Definition distinct (l : list string) : list string :=
  foldl (λ acc x, if decide (x ∈ acc) then acc else acc ++ [x]) [] l.

(** [s.includes(needle)] and [s.startsWith(start)] *)
Definition includes (needle s : string) : bool :=
  bool_decide (is_Some (String.index 0 needle s)).

Definition startsWith (start s : string) : bool := String.prefix start s.

(** What ts-morph gives for a source file: its path, the module
    specifiers of its import declarations, and, after symbol
    resolution, the files that declare the types it refers to and the
    files that declare what its classes and interfaces extend or
    implement, each in source order. *)
Record SourceFile := mkSourceFile {
  sf_filePath : string;
  sf_imports : list string;
  sf_typeReferences : list string;
  sf_inheritance : list string
}.

Definition local (declarations : list string) : list string :=
  normalize <$> filter (λ declPath, includes "node_modules"%string declPath = false)
                       declarations.

(** The body of [analyzeDependencies] for a source file the project
    has, with [extractTypeReferences] and
    [extractInheritanceDependencies]. The test [if (resolvedPath)]
    drops an empty path as well as [null]. *)
Definition analyzeSourceFile (tree : gmap string Kind) (sf : SourceFile) : Analysis :=
  let imported :=
    omap (λ moduleSpecifier,
            if negb (startsWith "."%string moduleSpecifier)
               && negb (startsWith "/"%string moduleSpecifier)
            then None
            else
              match resolveImportPath tree (sf_filePath sf) moduleSpecifier with
              | Some resolvedPath =>
                if decide (resolvedPath = EmptyString) then None
                else Some resolvedPath
              | None => None
              end)
         (sf_imports sf) in
  mkAnalysis
    (distinct (imported ++ local (sf_typeReferences sf) ++ local (sf_inheritance sf)))
    (list_to_set (local (sf_inheritance sf)))
    (sf_filePath sf).

(** One round of the loop of [buildGraph]; [analysis] is what
    [analyzeDependencies] finds for each path. *)
Definition buildGraph_step (analysis : string → option Analysis) (g : t)
    (controllerPath : string) : t :=
  let '(dependencies, g1) := analyzeDependencies (analysis controllerPath) g in
  mk (<[controllerPath := list_to_set dependencies]> (dependencyGraph g1))
     (foldl (addReverse controllerPath) (reverseDependencyGraph g1) dependencies)
     (inheritanceGraph g1).

(** [buildGraph(controllerPaths)] *)
Definition buildGraph (analysis : string → option Analysis) (g : t)
    (controllerPaths : list string) : t :=
  foldl (buildGraph_step analysis) (mk ∅ ∅ (inheritanceGraph g)) controllerPaths.

(** The loop of [getInheritanceChain]. *)
Fixpoint chain_loop (g : t) (fuel : nat) (queue : list string)
    (visited : gset string) (chain : list string) : option (list string) :=
  match fuel with
  | O => None
  | S fuel' =>
    match queue with
    | [] => Some chain
    | current :: queue' =>
      if decide (current ∈ visited) then chain_loop g fuel' queue' visited chain
      else
        let parents := match inheritanceGraph g !! current with
                       | Some inherited => elements inherited
                       | None => []
                       end in
        chain_loop g fuel' (queue' ++ parents) ({[current]} ∪ visited)
          (chain ++ parents)
    end
  end.

(** The files [getInheritanceChain] can meet from [start]. *)
Definition ancestors_universe (g : t) (start : string) : gset string :=
  {[start]} ∪ ⋃ (map_to_list (inheritanceGraph g)).*2.

Definition chain_fuel (g : t) (start : string) : nat :=
  let n := size (ancestors_universe g start) in 2 + n * (n + 1).

(** [getInheritanceChain(filePath)] *)
Definition getInheritanceChain (g : t) (filePath : string) : list string :=
  default [] (chain_loop g (chain_fuel g (normalize filePath))
                [normalize filePath] ∅ []).

(** [x] extends or implements something declared in [y]. *)
Definition parent (g : t) (x y : string) : Prop :=
  ∃ inherited, inheritanceGraph g !! x = Some inherited ∧ y ∈ inherited.

(** [getDependencyInfo(filePath)] *)
Record DependencyInfo := mkDependencyInfo {
  di_filePath : string;
  di_dependencies : list string;
  di_dependents : list string;
  di_inheritanceChain : list string;
  di_transitiveAffected : list string
}.

Definition getDependencyInfo (g : t) (filePath : string) : DependencyInfo :=
  let normalizedPath := normalize filePath in
  mkDependencyInfo normalizedPath
    (getDependencies g normalizedPath)
    (getDependents g normalizedPath)
    (getInheritanceChain g normalizedPath)
    (elements (getAffectedFiles g normalizedPath)).

(** The dependency array [analyzeDependencies] returns for a path. *)
Definition dependenciesOf (analysis : string → option Analysis) (file : string)
    : list string :=
  match analysis file with
  | Some a => an_dependencies a
  | None => []
  end.

(** The files [x] extends or implements from, as the loop of
    [getInheritanceChain] enqueues them. *)
Definition parents (g : t) (x : string) : list string :=
  match inheritanceGraph g !! x with
  | Some inherited => elements inherited
  | None => []
  end.

(** What the loop of [getInheritanceChain] keeps true: the queue and
    the visited set hold files reached from [s] along [parent], the
    chain holds files reached in one step or more, and every parent of
    a visited file is in the chain and visited or queued. *)
Definition chain_inv (g : t) (s : string) (queue : list string)
    (visited : gset string) (chain : list string) : Prop :=
  (∀ x, x ∈ queue → rtc (parent g) s x)
  ∧ (∀ x, x ∈ visited → rtc (parent g) s x)
  ∧ (∀ y, y ∈ chain → tc (parent g) s y)
  ∧ (s ∈ visited ∨ s ∈ queue)
  ∧ (∀ x y, x ∈ visited → parent g x y → y ∈ chain ∧ (y ∈ visited ∨ y ∈ queue)).

End tracker.
End DependencyTracker.

(** ** CacheManager.ts *)

Module CacheManager.

Inductive HashAlgorithm := md5 | sha256.

Definition CACHE_VERSION : string := "1.0.0".
Definition DEFAULT_TTL : Z := 24 * 60 * 60 * 1000.

(** What the manager writes to the console about collisions. *)
Inductive Console :=
| CollisionDetected (filePath hash : string) (cachedSize currentSize : Z)
| CollisionEscalation (hash : string) (count : nat).

Section cache.

(** The payload of the per-file analyzer; opaque to the cache. *)
Context {ControllerInfo : Type}.

(** The digest of [crypto.createHash(algorithm)] on a file content. *)
Variable digest : HashAlgorithm → string → string.

Record CachedController := mkCached {
  filePath : string;
  fileHash : string;
  fileSize : Z;
  controllerInfo : ControllerInfo;
  cc_dependencies : list string;
  lastScanned : Z
}.

Record CacheMetadata := mkMetadata {
  version : string;
  timestamp : Z;
  tsConfigHash : option string;
  controllers : gmap string CachedController;
  dependencies : gmap string (gset string)
}.

Record CacheOptions := mkOptions {
  o_cacheFilePath : option string;
  o_enabled : option bool;
  o_ttl : option Z;
  o_hashAlgorithm : option HashAlgorithm
}.

(** The private fields of the class. *)
Record t := mk {
  cacheFilePath : string;
  enabled : bool;
  ttl : Z;
  hashAlgorithm : HashAlgorithm;
  metadata : CacheMetadata;
  hashCollisions : gmap string nat
}.

Definition emptyMetadata (now : Z) : CacheMetadata :=
  mkMetadata CACHE_VERSION now None ∅ ∅.

(** The constructor. [defaultPath] is
    [path.join(process.cwd(), DEFAULT_CACHE_FILE)]; [a || b] takes [b]
    for an absent, empty or zero [a]. *)
Definition new (defaultPath : string) (now : Z) (options : CacheOptions) : t :=
  mk (match o_cacheFilePath options with
      | Some f => if decide (f = EmptyString) then defaultPath else f
      | None => defaultPath
      end)
     (match o_enabled options with Some false => false | _ => true end)
     (match o_ttl options with
      | Some x => if decide (x = 0%Z) then DEFAULT_TTL else x
      | None => DEFAULT_TTL
      end)
     (default md5 (o_hashAlgorithm options))
     (emptyMetadata now)
     ∅.

Definition set_metadata (m : t) (md : CacheMetadata) : t :=
  mk (cacheFilePath m) (enabled m) (ttl m) (hashAlgorithm m) md (hashCollisions m).

(** *** The cache file *)

(** The document [save] hands to [JSON.stringify] and [load] gets
    from [JSON.parse]: the two maps are plain objects and every
    dependency set is an array. *)
Record Snapshot := mkSnapshot {
  s_version : string;
  s_timestamp : Z;
  s_tsConfigHash : option string;
  s_controllers : gmap string CachedController;
  s_dependencies : gmap string (list string)
}.

(** A file at the cache path: the JSON text of a snapshot, with any
    version and timestamp, or bytes on which [JSON.parse] throws. Texts
    that parse to something of another shape are not modelled. *)
Inductive FileContent :=
| Json (parsed : Snapshot)
| Unparseable.

(** [load()] *)
Definition load (now : Z) (disk : gmap string FileContent) (m : t) : bool * t :=
  if negb (enabled m) then (false, m)
  else
    match disk !! cacheFilePath m with
    | None => (false, m)
    | Some Unparseable => (false, m)
    | Some (Json parsed) =>
      if decide (s_version parsed ≠ CACHE_VERSION) then (false, m)
      else
        let age := (now - s_timestamp parsed)%Z in
        if decide (age > ttl m)%Z then (false, m)
        else
          (true,
           set_metadata m
             (mkMetadata (s_version parsed) (s_timestamp parsed)
                (s_tsConfigHash parsed)
                (s_controllers parsed)
                (list_to_set <$> s_dependencies parsed)))
    end.

(** The object [save] serializes. *)
Definition serializable (now : Z) (m : t) : Snapshot :=
  mkSnapshot (version (metadata m)) now (tsConfigHash (metadata m))
    (controllers (metadata m))
    (elements <$> dependencies (metadata m)).

(** The calls [save()] makes on the file system. *)
Inductive FsOp :=
| WriteFile (path : string) (content : FileContent)
| Rename (src dst : string).

Definition run_op (disk : gmap string FileContent) (op : FsOp)
    : gmap string FileContent :=
  match op with
  | WriteFile path content => <[path := content]> disk
  | Rename src dst =>
    match disk !! src with
    | Some content => <[dst := content]> (delete src disk)
    | None => disk
    end
  end.

Definition save_ops (now : Z) (m : t) : list FsOp :=
  [WriteFile (cacheFilePath m) (Json (serializable now m))].

(** [save()]; [write_ok = false] is [writeFileSync] throwing. *)
Definition save (now : Z) (write_ok : bool) (disk : gmap string FileContent)
    (m : t) : bool * gmap string FileContent :=
  if negb (enabled m) then (false, disk)
  else if write_ok then (true, foldl run_op disk (save_ops now m))
  else (false, disk).

(** The disks a kill of the process can leave while [ops] run:
    before an operation, or in the middle of it. A rename is atomic;
    a write that is cut leaves the truncated text of the document at
    the path, which does not parse. *)
Definition torn (disk : gmap string FileContent) (op : FsOp)
    : list (gmap string FileContent) :=
  match op with
  | WriteFile path _ => [<[path := Unparseable]> disk]
  | Rename _ _ => []
  end.

Fixpoint crash_states (disk : gmap string FileContent) (ops : list FsOp)
    : list (gmap string FileContent) :=
  match ops with
  | [] => [disk]
  | op :: ops' => disk :: torn disk op ++ crash_states (run_op disk op) ops'
  end.

(** *** Point operations *)

Definition getController (m : t) (filePath : string) : option CachedController :=
  controllers (metadata m) !! filePath.

Definition setController (m : t) (filePath : string) (cached : CachedController) : t :=
  set_metadata m
    (mkMetadata (version (metadata m)) (timestamp (metadata m))
       (tsConfigHash (metadata m))
       (<[filePath := cached]> (controllers (metadata m)))
       (dependencies (metadata m))).

(** [removeController]: the record and its dependency entry go, the
    path is deleted from every other set, and a set that is empty
    afterwards is deleted with its key. *)
Definition removeController (m : t) (filePath : string) : t :=
  set_metadata m
    (mkMetadata (version (metadata m)) (timestamp (metadata m))
       (tsConfigHash (metadata m))
       (delete filePath (controllers (metadata m)))
       (omap (λ deps : gset string,
                let deps' := deps ∖ {[filePath]} in
                if decide (size deps' = 0) then None else Some deps')
             (delete filePath (dependencies (metadata m))))).

Definition addDependency (m : t) (controllerPath dependencyPath : string) : t :=
  let deps := dependencies (metadata m) in
  let deps1 := match deps !! controllerPath with
               | Some _ => deps
               | None => <[controllerPath := ∅]> deps
               end in
  set_metadata m
    (mkMetadata (version (metadata m)) (timestamp (metadata m))
       (tsConfigHash (metadata m))
       (controllers (metadata m))
       (match deps1 !! controllerPath with
        | Some s => <[controllerPath := {[dependencyPath]} ∪ s]> deps1
        | None => deps1
        end)).

(** [getDependentControllers(filePath)] *)
Definition getDependentControllers (m : t) (filePath : string) : list string :=
  (filter (λ e : string * gset string, filePath ∈ e.2)
          (map_to_list (dependencies (metadata m)))).*1.

(** *** Fingerprints *)

(** The source files on disk: path to content. A path that is absent
    cannot be read or stat'ed. *)
Definition statSize (fs : gmap string string) (filePath : string) : option Z :=
  (λ content, Z.of_nat (String.length content)) <$> fs !! filePath.

Definition calculateFileHash (fs : gmap string string) (filePath : string)
    (algorithm : HashAlgorithm) : string :=
  match fs !! filePath with
  | Some content => digest algorithm content
  | None => EmptyString
  end.

Definition calculateHash (fs : gmap string string) (m : t) (filePath : string)
    : string :=
  calculateFileHash fs filePath (hashAlgorithm m).

Definition getFileSize (fs : gmap string string) (filePath : string) : Z :=
  default 0%Z (statSize fs filePath).

Definition collisions (m : t) (hash : string) : nat :=
  default 0 (hashCollisions m !! hash).

(** [trackHashCollision(hash)] *)
Definition trackHashCollision (m : t) (hash : string) : t * list Console :=
  let count := collisions m hash in
  (mk (cacheFilePath m) (enabled m) (ttl m) (hashAlgorithm m) (metadata m)
      (<[hash := count + 1]> (hashCollisions m)),
   if decide (3 ≤ count) then [CollisionEscalation hash (count + 1)] else []).

(** [hasFileChanged(filePath, currentHash)] *)
Definition hasFileChanged (fs : gmap string string) (m : t)
    (filePath currentHash : string) : bool * t * list Console :=
  match controllers (metadata m) !! filePath with
  | None => (true, m, [])
  | Some cached =>
    if decide (fileHash cached ≠ currentHash) then (true, m, [])
    else
      match statSize fs filePath with
      | Some currentSize =>
        if decide (fileSize cached ≠ currentSize) then
          let '(m', out) := trackHashCollision m currentHash in
          (true, m',
           CollisionDetected filePath currentHash (fileSize cached) currentSize
             :: out)
        else (false, m, [])
      | None => (true, m, [])
      end
  end.

(** The four ways in which the cache file is not usable. *)
Definition unusable (now : Z) (disk : gmap string FileContent) (m : t) : Prop :=
  disk !! cacheFilePath m = None
  ∨ disk !! cacheFilePath m = Some Unparseable
  ∨ ∃ parsed, disk !! cacheFilePath m = Some (Json parsed)
              ∧ (s_version parsed ≠ CACHE_VERSION
                 ∨ (now - s_timestamp parsed > ttl m)%Z).

(** What the constructor fixes, with the schema version of the
    store. *)
Definition config (m : t) : string * bool * Z * HashAlgorithm * string :=
  (cacheFilePath m, enabled m, ttl m, hashAlgorithm m, version (metadata m)).

(** *** The rest of the class *)

Definition set_tsConfigHash (md : CacheMetadata) (hash : option string)
    : CacheMetadata :=
  mkMetadata (version md) (timestamp md) hash (controllers md) (dependencies md).

(** [calculateTsConfigHash(tsConfigPath)] *)
Definition calculateTsConfigHash (fs : gmap string string) (m : t)
    (tsConfigPath : string) : string :=
  calculateHash fs m tsConfigPath.

(** [setTsConfigHash(hash)] *)
Definition setTsConfigHash (m : t) (hash : string) : t :=
  set_metadata m (set_tsConfigHash (metadata m) (Some hash)).

(** [hasTsConfigChanged(currentHash)]; an absent and an empty stored
    hash are both falsy. *)
Definition hasTsConfigChanged (m : t) (currentHash : string) : bool :=
  match tsConfigHash (metadata m) with
  | None => true
  | Some stored =>
    if decide (stored = EmptyString) then true
    else bool_decide (stored ≠ currentHash)
  end.

(** [invalidate()]; [unlink_ok = false] is [unlinkSync] throwing. *)
Definition invalidate (now : Z) (unlink_ok : bool)
    (disk : gmap string FileContent) (m : t) : t * gmap string FileContent :=
  (set_metadata m (emptyMetadata now),
   match disk !! cacheFilePath m with
   | Some _ => if unlink_ok then delete (cacheFilePath m) disk else disk
   | None => disk
   end).

(** [cleanup()]: the number of removed entries and the manager. *)
Definition cleanup (fs : gmap string string) (m : t) : nat * t :=
  foldl (λ acc filePath,
           if decide (is_Some (fs !! filePath)) then acc
           else (S acc.1, removeController acc.2 filePath))
        (0, m) (map_to_list (controllers (metadata m))).*1.

(** The size in bytes of a file at the cache path. *)
Variable byteSize : FileContent → Z.

Record Stats := mkStats {
  controllerCount : nat;
  dependencyCount : nat;
  cacheAge : Z;
  cacheSize : Z;
  st_hashAlgorithm : HashAlgorithm;
  st_hashCollisions : nat
}.

(** [getStats()] *)
Definition getStats (now : Z) (disk : gmap string FileContent) (m : t) : Stats :=
  let cacheSize := match disk !! cacheFilePath m with
                   | Some content => byteSize content
                   | None => 0%Z
                   end in
  let totalCollisions :=
    foldl (λ sum count, sum + count) 0 (map_to_list (hashCollisions m)).*2 in
  mkStats (size (controllers (metadata m)))
          (size (dependencies (metadata m)))
          (now - timestamp (metadata m))%Z
          cacheSize
          (hashAlgorithm m)
          totalCollisions.

End cache.
End CacheManager.

(** ** IncrementalScannerService.ts *)

Module IncrementalScanner.

(** [FileChangeEvent] of the watcher. *)
Inductive EventType := add | change | unlink.

Record FileChangeEvent := mkEvent {
  type : EventType;
  ev_filePath : string
}.

Section scanner.

Context {MethodInfo : Type}.
Variable normalize : string → string.
Variable basename : string → string → string.
Variable digest : CacheManager.HashAlgorithm → string → string.

Record ControllerInfo := mkInfo {
  name : string;
  path : string;
  methods : list MethodInfo;
  hasGuards : option bool;
  filePath : option string
}.

(** What ts-morph finds in one file when [scanFile] has to analyze
    it: the file cannot be added to the project, it has no class
    with a [@Controller] decorator, or the first such class gives
    [extractControllerInfo]'s result. *)
Inductive FileAnalysis :=
| CannotAdd
| NoController
| HasController (info : option ControllerInfo).

(** The ts-morph project as the scanner uses it during one cycle: what
    the analysis of a path gives once the source file is added or
    refreshed from disk. Adding, refreshing and removing source files
    is the project's own state and stays behind these two functions. *)
Record Project := mkProject {
  analyzeFile : string → FileAnalysis;
  analyzeImports : string → option DependencyTracker.Analysis
}.

Record t := mk {
  project : option Project;
  cacheManager : CacheManager.t (ControllerInfo := ControllerInfo);
  dependencyTracker : option DependencyTracker.t;
  isInitialized : bool
}.

(** What a cycle does that the caller cannot see in the result: the
    per-file analyzer ran on a path, the import analysis ran on a
    path, a line went to the console. *)
Inductive Event :=
| Analyzed (filePath : string)
| DependenciesAnalyzed (filePath : string)
| Logged (line : CacheManager.Console).

Definition set_cache (s : t) (cm : CacheManager.t) : t :=
  mk (project s) cm (dependencyTracker s) (isInitialized s).

(** The part of [scanFile] after the cache check. *)
Definition analyze (now : Z) (proj : Project) (s : t)
    (normalizedPath fileHash : string) (fileSize : Z)
    : option ControllerInfo * t * list Event :=
  match analyzeFile proj normalizedPath with
  | CannotAdd => (None, s, [Analyzed normalizedPath])
  | NoController =>
    (None,
     set_cache s (CacheManager.removeController (cacheManager s) normalizedPath),
     [Analyzed normalizedPath])
  | HasController None => (None, s, [Analyzed normalizedPath])
  | HasController (Some info) =>
    let controllerInfo :=
      mkInfo (name info) (path info) (methods info) (hasGuards info)
             (Some normalizedPath) in
    let '(dependencies, tracker, imports) :=
      match dependencyTracker s with
      | Some g =>
        let '(deps, g') :=
          DependencyTracker.analyzeDependencies normalize
            (analyzeImports proj normalizedPath) g in
        (deps, Some g', [DependenciesAnalyzed normalizedPath])
      | None => ([], None, [])
      end in
    let cachedController :=
      CacheManager.mkCached normalizedPath fileHash fileSize controllerInfo
        dependencies now in
    let cm1 :=
      CacheManager.setController (cacheManager s) normalizedPath cachedController in
    let cm2 :=
      foldl (λ cm dep, CacheManager.addDependency cm normalizedPath dep)
            cm1 dependencies in
    (Some controllerInfo,
     mk (project s) cm2 tracker (isInitialized s),
     Analyzed normalizedPath :: imports)
  end.

(** [scanFile(filePath)] *)
Definition scanFile (now : Z) (fs : gmap string string) (s : t)
    (filePath : string) : option ControllerInfo * t * list Event :=
  match project s with
  | None => (None, s, [])
  | Some proj =>
    let normalizedPath := normalize filePath in
    let fileHash := CacheManager.calculateHash digest fs (cacheManager s) normalizedPath in
    let fileSize := CacheManager.getFileSize fs normalizedPath in
    match CacheManager.getController (cacheManager s) normalizedPath with
    | Some cached =>
      let '(changed, cm, out) :=
        CacheManager.hasFileChanged fs (cacheManager s) normalizedPath fileHash in
      if changed then
        let '(r, s', evs) :=
          analyze now proj (set_cache s cm) normalizedPath fileHash fileSize in
        (r, s', (Logged <$> out) ++ evs)
      else (Some (CacheManager.controllerInfo cached), set_cache s cm, Logged <$> out)
    | None => analyze now proj s normalizedPath fileHash fileSize
    end
  end.

(** [affectedFiles.add(x)] on a [Set] kept in insertion order. *)
Definition set_add (x : string) (l : list string) : list string :=
  if decide (x ∈ l) then l else l ++ [x].

(** [handleFileDelete(filePath, affectedFiles)] *)
Definition handleFileDelete (s : t) (filePath : string)
    (affectedFiles : list string) : list string * t :=
  let dependents :=
    CacheManager.getDependentControllers (cacheManager s) filePath in
  let affectedFiles' := foldl (λ acc dep, set_add dep acc) affectedFiles dependents in
  let cm := CacheManager.removeController (cacheManager s) filePath in
  let tracker :=
    (λ g, DependencyTracker.removeDependency normalize g filePath)
      <$> dependencyTracker s in
  (affectedFiles', mk (project s) cm tracker (isInitialized s)).

(** One round of the first loop of [processFileChanges]. *)
Definition resolve_event (acc : list string * t) (event : FileChangeEvent)
    : list string * t :=
  let '(affectedFiles, s) := acc in
  let normalizedPath := normalize (ev_filePath event) in
  match type event with
  | unlink => handleFileDelete s normalizedPath affectedFiles
  | _ =>
    let affectedFiles1 := set_add normalizedPath affectedFiles in
    match dependencyTracker s with
    | Some g =>
      if DependencyTracker.isDtoFile normalize basename normalizedPath then
        (foldl (λ acc dep, set_add dep acc) affectedFiles1
               (DependencyTracker.getDependents normalize g normalizedPath), s)
      else (affectedFiles1, s)
    | None => (affectedFiles1, s)
    end
  end.

Definition resolve (s : t) (events : list FileChangeEvent) : list string * t :=
  foldl resolve_event ([], s) events.

(** One round of the second loop of [processFileChanges]. *)
Definition rescan (now : Z) (fs : gmap string string)
    (acc : gmap string (option ControllerInfo) * t * list Event)
    (filePath : string)
    : gmap string (option ControllerInfo) * t * list Event :=
  let '(results, s, trace) := acc in
  match fs !! filePath with
  | None => acc
  | Some _ =>
    let '(controllerInfo, s1, evs) := scanFile now fs s filePath in
    let results1 := <[filePath := controllerInfo]> results in
    match dependencyTracker s1, controllerInfo, project s1 with
    | Some g, Some _, Some proj =>
      let g' := DependencyTracker.updateDependency normalize
                  (analyzeImports proj (normalize filePath)) g filePath in
      (results1,
       mk (project s1) (cacheManager s1) (Some g') (isInitialized s1),
       trace ++ evs ++ [DependenciesAnalyzed (normalize filePath)])
    | _, _, _ => (results1, s1, trace ++ evs)
    end
  end.

Record Outcome := mkOutcome {
  results : gmap string (option ControllerInfo);
  scanner : t;
  disk : gmap string (CacheManager.FileContent (ControllerInfo := ControllerInfo));
  trace : list Event
}.

(** [processFileChanges(events)] *)
Definition processFileChanges (now : Z) (write_ok : bool)
    (fs : gmap string string)
    (d : gmap string (CacheManager.FileContent (ControllerInfo := ControllerInfo)))
    (s : t) (events : list FileChangeEvent) : Outcome :=
  match isInitialized s, project s with
  | true, Some _ =>
    let '(affectedFiles, s1) := resolve s events in
    let '(results, s2, trace) := foldl (rescan now fs) (∅, s1, []) affectedFiles in
    let '(_, d') := CacheManager.save now write_ok d (cacheManager s2) in
    mkOutcome results s2 d' trace
  | _, _ => mkOutcome ∅ s d []
  end.

(** [filePath] has the record [cached] and passes the two-layer check. *)
Definition reusable (fs : gmap string string) (s : t) (filePath : string)
    (cached : CacheManager.CachedController) : Prop :=
  is_Some (project s)
  ∧ CacheManager.getController (cacheManager s) (normalize filePath) = Some cached
  ∧ (CacheManager.hasFileChanged fs (cacheManager s) (normalize filePath)
       (CacheManager.calculateHash digest fs (cacheManager s) (normalize filePath))).1.1
    = false.

(** [y] is at most one hop from [event] in what [s] knows: the path
    of the event, a direct dependent that the tracker has for a DTO
    path, or a direct dependent that the cache has for a removed path. *)
Definition one_hop (s : t) (event : FileChangeEvent) (y : string) : Prop :=
  let normalizedPath := normalize (ev_filePath event) in
  match type event with
  | unlink =>
    y ∈ CacheManager.getDependentControllers (cacheManager s) normalizedPath
  | _ =>
    y = normalizedPath
    ∨ (DependencyTracker.isDtoFile normalize basename normalizedPath = true
       ∧ ∃ g, dependencyTracker s = Some g
              ∧ y ∈ DependencyTracker.getDependents normalize g normalizedPath)
  end.

(** The dependents that [s'] has are dependents that [s] has. *)
Definition knows_less (s' s : t) : Prop :=
  (∀ g', dependencyTracker s' = Some g' →
     ∃ g, dependencyTracker s = Some g
          ∧ ∀ x y, DependencyTracker.dependent_edge normalize g' x y →
                   DependencyTracker.dependent_edge normalize g x y)
  ∧ ∀ y d, y ∈ CacheManager.getDependentControllers (cacheManager s') d →
           y ∈ CacheManager.getDependentControllers (cacheManager s) d.

(** *** The rest of the class *)

(** [getAllControllers()] *)
Definition getAllControllers (s : t) : list ControllerInfo :=
  CacheManager.controllerInfo
    <$> (map_to_list (CacheManager.controllers
                        (CacheManager.metadata (cacheManager s)))).*2.

(** [loadCache()]; [tsconfigPath] is the field of that name. *)
Definition loadCache (now : Z) (unlink_ok : bool) (fs : gmap string string)
    (tsconfigPath : string)
    (d : gmap string (CacheManager.FileContent (ControllerInfo := ControllerInfo)))
    (s : t)
    : t * gmap string (CacheManager.FileContent (ControllerInfo := ControllerInfo)) :=
  let '(loaded, cm) := CacheManager.load now d (cacheManager s) in
  if negb loaded then (set_cache s cm, d)
  else
    let changed :=
      match fs !! tsconfigPath with
      | Some _ =>
        CacheManager.hasTsConfigChanged cm
          (CacheManager.calculateTsConfigHash digest fs cm tsconfigPath)
      | None => false
      end in
    if changed then
      let '(cm', d') := CacheManager.invalidate now unlink_ok d cm in
      (set_cache s cm', d')
    else (set_cache s (CacheManager.cleanup fs cm).2, d).

(** [initialize(sourcePath)]; [created] is the ts-morph project that
    [initializeProject] constructs, with a new tracker on it. *)
Definition initialize (created : Project) (now : Z) (unlink_ok : bool)
    (fs : gmap string string) (tsconfigPath : string)
    (d : gmap string (CacheManager.FileContent (ControllerInfo := ControllerInfo)))
    (s : t)
    : t * gmap string (CacheManager.FileContent (ControllerInfo := ControllerInfo)) :=
  if isInitialized s then (s, d)
  else
    let s1 := mk (Some created) (cacheManager s) (Some DependencyTracker.empty)
                 (isInitialized s) in
    let '(s2, d') := loadCache now unlink_ok fs tsconfigPath d s1 in
    (mk (project s2) (cacheManager s2) (dependencyTracker s2) true, d').

(** One round of the loop of [scanControllers]. *)
Definition scan_source (now : Z) (fs : gmap string string)
    (acc : list ControllerInfo * list string * t * list Event) (filePath : string)
    : list ControllerInfo * list string * t * list Event :=
  let '(controllers, controllerPaths, s, trace) := acc in
  let '(controllerInfo, s1, evs) := scanFile now fs s filePath in
  match controllerInfo with
  | Some info => (controllers ++ [info], controllerPaths ++ [filePath], s1, trace ++ evs)
  | None => (controllers, controllerPaths, s1, trace ++ evs)
  end.

Record Scan := mkScan {
  found : list ControllerInfo;
  scan_scanner : t;
  scan_disk : gmap string (CacheManager.FileContent (ControllerInfo := ControllerInfo));
  scan_trace : list Event
}.

(** [scanControllers(sourcePath)]; [sourceFiles] are the paths of
    [project.getSourceFiles()] once the pattern is added, [None] when
    adding it throws. *)
Definition scanControllers (created : Project) (sourceFiles : option (list string))
    (now : Z) (unlink_ok write_ok : bool) (fs : gmap string string)
    (tsconfigPath : string)
    (d : gmap string (CacheManager.FileContent (ControllerInfo := ControllerInfo)))
    (s : t) : Scan :=
  let '(s0, d0) :=
    if isInitialized s then (s, d)
    else initialize created now unlink_ok fs tsconfigPath d s in
  match project s0, sourceFiles with
  | None, _ => mkScan [] s0 d0 []
  | Some _, None => mkScan [] s0 d0 []
  | Some proj, Some files =>
    let '(controllers, controllerPaths, s1, trace) :=
      foldl (scan_source now fs) ([], [], s0, []) files in
    let tracker :=
      (λ g, DependencyTracker.buildGraph normalize (analyzeImports proj) g
              controllerPaths) <$> dependencyTracker s1 in
    let cm :=
      match fs !! tsconfigPath with
      | Some _ =>
        CacheManager.setTsConfigHash (cacheManager s1)
          (CacheManager.calculateTsConfigHash digest fs (cacheManager s1) tsconfigPath)
      | None => cacheManager s1
      end in
    let '(_, d1) := CacheManager.save now write_ok d0 cm in
    mkScan controllers (mk (project s1) cm tracker (isInitialized s1)) d1
      (trace ++ match tracker with
                | Some _ => DependenciesAnalyzed <$> controllerPaths
                | None => []
                end)
  end.

(** [cleanup()] *)
Definition cleanup (now : Z) (write_ok : bool)
    (d : gmap string (CacheManager.FileContent (ControllerInfo := ControllerInfo)))
    (s : t)
    : t * gmap string (CacheManager.FileContent (ControllerInfo := ControllerInfo)) :=
  let '(_, d') := CacheManager.save now write_ok d (cacheManager s) in
  (mk (project s) (cacheManager s) (dependencyTracker s) false, d').

End scanner.
End IncrementalScanner.

(** ** IncrementalScannerService.ts: reading a class *)

Module ControllerExtraction.

(** An argument of a decorator call: a string literal or anything
    else. *)
Inductive Argument :=
| StringLiteral (literalValue : string)
| OtherArgument.

(** [decorator.getCallExpression()]; [identifier] is the text of the
    called expression when [Node.isIdentifier] holds of it. *)
Record CallExpression := mkCall {
  identifier : option string;
  getArguments : list Argument
}.

Record Decorator := mkDecorator {
  getCallExpression : option CallExpression;
  getText : string
}.

(** [toUpperCase] on the ASCII letters, which is all that the names of
    the HTTP decorators have. *)
Definition upper (c : ascii) : ascii :=
  let n := nat_of_ascii c in
  if decide (97 ≤ n ∧ n ≤ 122) then ascii_of_nat (n - 32) else c.

Definition toUpperCase (s : string) : string :=
  String.string_of_list_ascii (upper <$> String.list_ascii_of_string s).

Inductive ParameterLocation := in_path | in_query | in_header | in_body.

Section extraction.

(** The types of ts-morph and what [dtoAnalyzer.analyzeType] makes of
    them. *)
Context {TypeNode AnalyzedType : Type}.
Variable analyzeType : TypeNode → AnalyzedType.

Record ParameterDeclaration := mkParameter {
  p_getName : string;
  p_getType : TypeNode;
  p_getDecorators : list Decorator
}.

Record MethodDeclaration := mkMethod {
  m_getDecorators : list Decorator;
  m_getName : string;
  m_getParameters : list ParameterDeclaration;
  m_getReturnType : TypeNode
}.

Record ClassDeclaration := mkClass {
  c_getDecorators : list Decorator;
  c_getName : option string;
  c_getMethods : list MethodDeclaration
}.

Record ParameterInfo := mkParameterInfo {
  pi_name : string;
  pi_type : AnalyzedType;
  pi_decorator : string;
  pi_parameterLocation : option ParameterLocation
}.

Record MethodInfo := mkMethodInfo {
  mi_name : string;
  mi_httpMethod : string;
  mi_route : string;
  mi_parameters : list ParameterInfo;
  mi_returnType : AnalyzedType;
  mi_hasGuards : bool
}.

(** The test the class repeats on decorators: a call whose called
    expression is the identifier [name]. *)
Definition calls (name : string) (decorator : Decorator) : bool :=
  match getCallExpression decorator with
  | None => false
  | Some callExpression => bool_decide (identifier callExpression = Some name)
  end.

(** [hasControllerDecorator(cls)] *)
Definition hasControllerDecorator (cls : ClassDeclaration) : bool :=
  existsb (calls "Controller") (c_getDecorators cls).

(** [extractDecoratorArgument(decorator)] *)
Definition extractDecoratorArgument (decorator : Decorator) : option string :=
  match getCallExpression decorator with
  | None => None
  | Some callExpression =>
    match getArguments callExpression with
    | [] => Some EmptyString
    | StringLiteral literalValue :: _ => Some literalValue
    | OtherArgument :: _ => None
    end
  end.

Definition httpDecorators : list string :=
  ["Get"; "Post"; "Put"; "Delete"; "Patch"]%string.

(** The name of the decorator when it is a call of one of the five. *)
Definition httpName (decorator : Decorator) : option string :=
  match getCallExpression decorator with
  | None => None
  | Some callExpression =>
    match identifier callExpression with
    | Some decoratorName =>
      if decide (decoratorName ∈ httpDecorators) then Some decoratorName else None
    | None => None
    end
  end.

(** The chain of [includes] tests on the joined decorator texts. *)
Definition parameterLocation (decoratorText : string) : option ParameterLocation :=
  if DependencyTracker.includes "@Body" decoratorText then Some in_body
  else if DependencyTracker.includes "@Param" decoratorText then Some in_path
  else if DependencyTracker.includes "@Query" decoratorText then Some in_query
  else if DependencyTracker.includes "@Headers" decoratorText then Some in_header
  else None.

Definition extractParameter (param : ParameterDeclaration) : ParameterInfo :=
  let decoratorText := String.concat " " (getText <$> p_getDecorators param) in
  mkParameterInfo (p_getName param) (analyzeType (p_getType param)) decoratorText
    (parameterLocation decoratorText).

(** [extractMethodInfo(method)]; the inner [None] is not reached, the
    decorator that [find] returns being one of the five. *)
Definition extractMethodInfo (method : MethodDeclaration) : option MethodInfo :=
  match find (λ decorator, bool_decide (is_Some (httpName decorator)))
             (m_getDecorators method) with
  | None => None
  | Some httpDecorator =>
    match httpName httpDecorator with
    | None => None
    | Some decoratorName =>
      Some (mkMethodInfo (m_getName method)
              (toUpperCase decoratorName)
              (default EmptyString (extractDecoratorArgument httpDecorator))
              (extractParameter <$> m_getParameters method)
              (analyzeType (m_getReturnType method))
              (existsb (calls "UseGuards") (m_getDecorators method)))
    end
  end.

(** [extractControllerInfo(cls)]; [a || b] takes [b] for an absent or
    empty [a]. *)
Definition extractControllerInfo (cls : ClassDeclaration)
    : option (IncrementalScanner.ControllerInfo (MethodInfo := MethodInfo)) :=
  match find (calls "Controller") (c_getDecorators cls) with
  | None => None
  | Some controllerDecorator =>
    let controllerPath :=
      default EmptyString (extractDecoratorArgument controllerDecorator) in
    let hasGuards := existsb (calls "UseGuards") (c_getDecorators cls) in
    let methods := omap extractMethodInfo (c_getMethods cls) in
    Some (IncrementalScanner.mkInfo
            (match c_getName cls with
             | Some name =>
               if decide (name = EmptyString) then "UnknownController"%string
               else name
             | None => "UnknownController"%string
             end)
            controllerPath methods (Some hasGuards) None)
  end.

(** What [scanFile] does with the classes of a source file it could
    add or refresh. *)
Definition analyzeClasses (classes : list ClassDeclaration)
    : IncrementalScanner.FileAnalysis (MethodInfo := MethodInfo) :=
  match filter (λ cls, hasControllerDecorator cls = true) classes with
  | [] => IncrementalScanner.NoController
  | controllerClass :: _ =>
    IncrementalScanner.HasController (extractControllerInfo controllerClass)
  end.

End extraction.
End ControllerExtraction.

(** ** FileWatcher.ts *)

Module FileWatcher.
Section watcher.

Context {ControllerInfo : Type}.
Variable normalize : string → string.
Variable digest : CacheManager.HashAlgorithm → string → string.

(** A [FileChangeEvent] with its optional [hash] field, which the
    scanner never reads. *)
Record Change := mkChange {
  event : IncrementalScanner.FileChangeEvent;
  hash : option string
}.

(** The fields of the class: [watcher] is whether a chokidar watcher
    exists, [pendingChanges] is the [Map] in insertion order and
    [debounceTimer] is whether a timeout is pending. *)
Record t := mk {
  watcher : bool;
  isWatching : bool;
  pendingChanges : list (string * Change);
  debounceTimer : bool
}.

(** [map.set(key, value)]: an existing key keeps its place. *)
Fixpoint map_set (key : string) (value : Change) (entries : list (string * Change))
    : list (string * Change) :=
  match entries with
  | [] => [(key, value)]
  | (k, v) :: entries' =>
    if decide (k = key) then (key, value) :: entries'
    else (k, v) :: map_set key value entries'
  end.

(** The end of [handleFileEvent]: the event is stored and
    [scheduleProcessing] arms the timer again. *)
Definition enqueue (w : t) (type : IncrementalScanner.EventType)
    (normalizedPath : string) (hash : option string) : t :=
  mk (watcher w) (isWatching w)
     (map_set normalizedPath
        (mkChange (IncrementalScanner.mkEvent type normalizedPath) hash)
        (pendingChanges w))
     true.

(** [handleFileEvent(type, filePath)], on the cache manager the
    watcher shares with the scanner. The hash is the one of the static
    [calculateFileHash] with its default algorithm. *)
Definition handleFileEvent (fs : gmap string string)
    (w : t) (cm : CacheManager.t (ControllerInfo := ControllerInfo))
    (type : IncrementalScanner.EventType) (filePath : string)
    : t * CacheManager.t (ControllerInfo := ControllerInfo)
      * list CacheManager.Console :=
  let normalizedPath := normalize filePath in
  match type with
  | IncrementalScanner.unlink => (enqueue w type normalizedPath None, cm, [])
  | IncrementalScanner.add =>
    let hash := CacheManager.calculateFileHash digest fs normalizedPath
                  CacheManager.md5 in
    (enqueue w type normalizedPath (Some hash), cm, [])
  | IncrementalScanner.change =>
    let hash := CacheManager.calculateFileHash digest fs normalizedPath
                  CacheManager.md5 in
    let '(changed, cm', out) :=
      CacheManager.hasFileChanged fs cm normalizedPath hash in
    if changed then (enqueue w type normalizedPath (Some hash), cm', out)
    else (w, cm', out)
  end.

(** [processChanges()]: the batch handed to [onFileChange], if any. *)
Definition processChanges (w : t) : option (list Change) * t :=
  match pendingChanges w with
  | [] => (None, w)
  | entries => (Some entries.*2, mk (watcher w) (isWatching w) [] (debounceTimer w))
  end.

(** The debounce timeout fires. *)
Definition timeout (w : t) : option (list Change) * t :=
  processChanges (mk (watcher w) (isWatching w) (pendingChanges w) false).

(** [flush()] *)
Definition flush (w : t) : option (list Change) * t :=
  processChanges (mk (watcher w) (isWatching w) (pendingChanges w) false).

(** [stop()] *)
Definition stop (w : t) : t :=
  if watcher w then mk false false [] false else w.

(** [getPendingCount()] *)
Definition getPendingCount (w : t) : nat := length (pendingChanges w).

(** A run of notifications from chokidar, with no timeout between. *)
Definition handleAll (fs : gmap string string)
    (w : t) (cm : CacheManager.t (ControllerInfo := ControllerInfo))
    (notifications : list (IncrementalScanner.EventType * string))
    : t * CacheManager.t (ControllerInfo := ControllerInfo) :=
  foldl (λ acc n, (handleFileEvent fs acc.1 acc.2 n.1 n.2).1) (w, cm) notifications.

End watcher.
End FileWatcher.

(** * Scenarios *)

Local Open Scope string_scope.

(** ** Small graphs *)

(** A file that is removed while another one still imports it: the
    graph is built by [updateDependency] alone, from the empty one. *)
Definition imports_only (deps : list string) (file : string)
    : DependencyTracker.Analysis :=
  DependencyTracker.mkAnalysis deps ∅ file.

Definition graph_q_imports_p : DependencyTracker.t :=
  DependencyTracker.updateDependency id
    (Some (imports_only ["p.ts"] "q.ts"))
    DependencyTracker.empty "q.ts".

(** Cycles do not stop the traversal: [x.ts] imports itself and
    [y.ts], and [y.ts] imports [x.ts]. *)
Definition cyclic : DependencyTracker.t :=
  DependencyTracker.mk
    {[ "x.ts" := {[ "x.ts"; "y.ts" ]}; "y.ts" := {[ "x.ts" ]} ]}
    {[ "x.ts" := {[ "x.ts"; "y.ts" ]}; "y.ts" := {[ "x.ts" ]} ]}
    ∅.

(** ** A three-level chain of controllers *)

(** [a.ts] extends the class of [b.ts], which extends the class of
    [c.ts]; the paths are in normal form already. *)
Module Chain.

Definition basename (p ext : string) : string :=
  if bool_decide (String.list_ascii_of_string ext
                    `suffix_of` String.list_ascii_of_string p)
  then String.substring 0 (String.length p - String.length ext) p
  else p.

Definition digest (_ : CacheManager.HashAlgorithm) (content : string) : string :=
  content.

Definition info (file : string) : IncrementalScanner.ControllerInfo (MethodInfo := unit) :=
  IncrementalScanner.mkInfo file "/" [] None None.

Definition extends (file : string) : option DependencyTracker.Analysis :=
  if decide (file = "a.ts") then
    Some (DependencyTracker.mkAnalysis ["b.ts"] {[ "b.ts" ]} file)
  else if decide (file = "b.ts") then
    Some (DependencyTracker.mkAnalysis ["c.ts"] {[ "c.ts" ]} file)
  else if decide (file = "c.ts") then
    Some (DependencyTracker.mkAnalysis [] ∅ file)
  else None.

Definition project : IncrementalScanner.Project :=
  IncrementalScanner.mkProject
    (λ file, IncrementalScanner.HasController (Some (info file)))
    extends.

Definition sources : gmap string string :=
  {[ "a.ts" := "class A extends B";
     "b.ts" := "class B extends C";
     "c.ts" := "class C" ]}.

Definition noOptions : CacheManager.CacheOptions :=
  CacheManager.mkOptions None None None None.

Definition fresh : IncrementalScanner.t :=
  IncrementalScanner.mk (Some project)
    (CacheManager.new "scramble-cache.json" 0 noOptions)
    (Some DependencyTracker.empty) true.

Definition processFileChanges :=
  IncrementalScanner.processFileChanges (MethodInfo := unit) id basename digest.

(** The first cycle sees the three files appear. *)
Definition first : IncrementalScanner.Outcome :=
  processFileChanges 1 true sources ∅ fresh
    [IncrementalScanner.mkEvent IncrementalScanner.add "a.ts";
     IncrementalScanner.mkEvent IncrementalScanner.add "b.ts";
     IncrementalScanner.mkEvent IncrementalScanner.add "c.ts"].

Definition scanned : IncrementalScanner.t :=
  IncrementalScanner.scanner first.

Definition tracker : DependencyTracker.t :=
  default DependencyTracker.empty (IncrementalScanner.dependencyTracker scanned).

(** The second cycle: [c.ts] is removed. *)
Definition removed : list IncrementalScanner.FileChangeEvent :=
  [IncrementalScanner.mkEvent IncrementalScanner.unlink "c.ts"].

Definition second : IncrementalScanner.Outcome :=
  processFileChanges 2 true (delete "c.ts" sources)
    (IncrementalScanner.disk first) scanned removed.

(** The third cycle: [a.ts] is reported as changed but is as cached. *)
Definition touched : list IncrementalScanner.FileChangeEvent :=
  [IncrementalScanner.mkEvent IncrementalScanner.change "a.ts"].

Definition cached_a : CacheManager.CachedController :=
  CacheManager.mkCached "a.ts" "class A extends B" 17
    (IncrementalScanner.mkInfo (MethodInfo := unit)
       "a.ts" "/" [] None (Some "a.ts"))
    ["b.ts"] 1.

(** A scanner that is constructed and not yet initialized. *)
Definition cold : IncrementalScanner.t (MethodInfo := unit) :=
  IncrementalScanner.mk None
    (CacheManager.new "scramble-cache.json" 0 noOptions) None false.

(** The sources with a tsconfig.json beside them. *)
Definition workspace : gmap string string :=
  <[ "tsconfig.json" := "{}" ]> sources.

(** A project in which no file has a controller, and a scanner on it. *)
Definition helpers : IncrementalScanner.Project (MethodInfo := unit) :=
  IncrementalScanner.mkProject
    (λ _, IncrementalScanner.NoController) (λ _, None).

Definition helper_scanner : IncrementalScanner.t (MethodInfo := unit) :=
  IncrementalScanner.mk (Some helpers)
    (CacheManager.new "scramble-cache.json" 0 noOptions)
    (Some DependencyTracker.empty) true.

End Chain.

(** ** A record whose fingerprint collides *)

(** The store has [a.ts] with fingerprint [h] and 5 bytes; on disk the
    file has 3 bytes and, for the digest at hand, the same fingerprint. *)
Module Collision.

Definition cached : CacheManager.CachedController (ControllerInfo := unit) :=
  CacheManager.mkCached "a.ts" "h" 5 tt [] 0.

Definition manager : CacheManager.t (ControllerInfo := unit) :=
  CacheManager.setController
    (CacheManager.new "scramble-cache.json" 0 Chain.noOptions)
    "a.ts" cached.

Definition sources : gmap string string := {[ "a.ts" := "abc" ]}.

Definition check (m : CacheManager.t (ControllerInfo := unit)) :=
  CacheManager.hasFileChanged sources m "a.ts" "h".

End Collision.

(** ** Three notifications for one file *)

(** A running watcher with nothing pending sees [a.ts] appear, change
    and disappear before the timer fires. *)
Module Burst.

Definition idle : FileWatcher.t := FileWatcher.mk true true [] false.

Definition manager : CacheManager.t (ControllerInfo := unit) :=
  CacheManager.new "scramble-cache.json" 0 Chain.noOptions.

Definition notifications : list (IncrementalScanner.EventType * string) :=
  [(IncrementalScanner.add, "a.ts");
   (IncrementalScanner.change, "a.ts");
   (IncrementalScanner.unlink, "a.ts")].

Definition batch : list FileWatcher.Change :=
  [FileWatcher.mkChange
     (IncrementalScanner.mkEvent IncrementalScanner.unlink "a.ts") None].

End Burst.

Local Close Scope string_scope.

(** * Properties *)

(** ** The dependency graph *)

Section tracker_facts.

Import DependencyTracker.

Variable normalize : string → string.

Local Abbreviation getDependents := (DependencyTracker.getDependents normalize).
Local Abbreviation getInheritors := (DependencyTracker.getInheritors normalize).
Local Abbreviation affected_loop := (DependencyTracker.affected_loop normalize).
Local Abbreviation getAffectedFiles_fuel := (DependencyTracker.getAffectedFiles_fuel normalize).
Local Abbreviation getAffectedFiles := (DependencyTracker.getAffectedFiles normalize).
Local Abbreviation dependent_edge := (DependencyTracker.dependent_edge normalize).
Local Abbreviation inheritor_edge := (DependencyTracker.inheritor_edge normalize).
Local Abbreviation edge := (DependencyTracker.edge normalize).
Local Abbreviation loop_inv := (DependencyTracker.loop_inv normalize).
Local Abbreviation analyzeDependencies := (DependencyTracker.analyzeDependencies normalize).
Local Abbreviation updateDependency := (DependencyTracker.updateDependency normalize).
Local Abbreviation removeDependency := (DependencyTracker.removeDependency normalize).

(** *** Facts about one hop *)

Lemma elem_of_getDependents g x y :
  y ∈ getDependents g x ↔ dependent_edge g x y.
Proof.
  unfold DependencyTracker.getDependents, DependencyTracker.dependent_edge.
  destruct (reverseDependencyGraph g !! normalize x) as [s|] eqn:E.
  - rewrite elem_of_elements. split; [eauto|].
    intros (s' & Hs' & Hy). by simplify_eq.
  - split; [by intros ?%elem_of_nil|]. by intros (s' & Hs' & _).
Qed.

Lemma elem_of_getInheritors g x y :
  y ∈ getInheritors g x ↔ inheritor_edge g x y.
Proof.
  unfold DependencyTracker.getInheritors, DependencyTracker.inheritor_edge. rewrite list_elem_of_fmap. split.
  - intros ([f s] & -> & [Hin Hmap]%list_elem_of_filter).
    apply elem_of_map_to_list in Hmap. eauto.
  - intros (s & Hs & Hin). exists (y, s). split; [done|].
    apply list_elem_of_filter. split; [done|]. by apply elem_of_map_to_list.
Qed.

Lemma NoDup_getDependents g x : NoDup (getDependents g x).
Proof.
  unfold DependencyTracker.getDependents.
  destruct (reverseDependencyGraph g !! normalize x);
    [apply NoDup_elements | constructor].
Qed.

Lemma NoDup_getInheritors g x : NoDup (getInheritors g x).
Proof.
  unfold DependencyTracker.getInheritors.
  eapply sublist_NoDup; [apply (NoDup_fst_map_to_list (inheritanceGraph g))|].
  apply fmap_sublist, sublist_filter.
Qed.

Lemma edge_files g s x y : edge g x y → y ∈ files g s.
Proof.
  unfold files. intros [(d & Hd & Hy) | (d & Hd & _)].
  - apply elem_of_union_l, elem_of_union_r, elem_of_union_list.
    exists d. split; [|done]. apply list_elem_of_fmap.
    exists (normalize x, d). split; [done|]. by apply elem_of_map_to_list.
  - apply elem_of_union_r, elem_of_dom. eauto.
Qed.

Lemma NoDup_length_le_size (l : list string) (X : gset string) :
  NoDup l → (∀ x, x ∈ l → x ∈ X) → length l ≤ size X.
Proof.
  intros Hnd Hsub. rewrite <- (size_list_to_set (C := gset string) l Hnd).
  apply subseteq_size. intros x Hx. apply Hsub. by apply elem_of_list_to_set in Hx.
Qed.

Lemma length_getDependents g s x :
  length (getDependents g x) ≤ size (files g s).
Proof.
  apply NoDup_length_le_size; [apply NoDup_getDependents|].
  intros y Hy. apply (edge_files g s x). left. by apply elem_of_getDependents.
Qed.

Lemma length_getInheritors g s x :
  length (getInheritors g x) ≤ size (files g s).
Proof.
  apply NoDup_length_le_size; [apply NoDup_getInheritors|].
  intros y Hy. apply (edge_files g s x). right. by apply elem_of_getInheritors.
Qed.

(** *** Termination of the traversal *)

Lemma affected_loop_terminates g s fuel queue visited affected :
  (∀ x, x ∈ queue → x ∈ files g s) →
  visited ⊆ files g s →
  length queue + size (files g s ∖ visited) * (2 * size (files g s) + 1) < fuel →
  ∃ vis aff, affected_loop g fuel queue visited affected = Some (vis, aff)
             ∧ vis ⊆ files g s.
Proof.
  revert queue visited affected.
  induction fuel as [|fuel IH]; intros queue visited affected Hq Hv Hfuel; [lia|].
  destruct queue as [|current queue]; simpl; [by eauto|].
  destruct (decide (current ∈ visited)) as [Hin|Hnin].
  - apply IH; [|done|simpl in Hfuel; lia].
    intros x Hx. apply Hq. by right.
  - assert (Hc : current ∈ files g s) by (apply Hq; by left).
    pose proof (length_getDependents g s current) as Hd.
    pose proof (length_getInheritors g s current) as Hi.
    assert (Hsz : size (files g s ∖ visited)
                  = S (size (files g s ∖ ({[current]} ∪ visited)))).
    { replace (files g s ∖ visited)
        with ({[current]} ∪ files g s ∖ ({[current]} ∪ visited)).
      - rewrite size_union; [|set_solver]. by rewrite size_singleton.
      - apply set_eq. intros x. rewrite elem_of_union, !elem_of_difference,
          elem_of_union, elem_of_singleton.
        destruct (decide (x = current)); naive_solver. }
    apply IH.
    + intros x [[Hx|Hx]%elem_of_app|Hx]%elem_of_app.
      * apply Hq. by right.
      * apply (edge_files g s current). left. by apply elem_of_getDependents.
      * apply (edge_files g s current). right. by apply elem_of_getInheritors.
    + set_solver.
    + rewrite !length_app. simpl in Hfuel. rewrite Hsz in Hfuel. lia.
Qed.

(** *** What the traversal computes *)

Lemma loop_inv_init g s : loop_inv g s [s] ∅ ∅.
Proof.
  split; [|split; [|split; [|split]]].
  - by intros x ->%list_elem_of_singleton.
  - by intros x ?%not_elem_of_empty.
  - by intros x ?%not_elem_of_empty.
  - right. by left.
  - by intros x y ?%not_elem_of_empty.
Qed.

Lemma loop_inv_skip g s current queue visited affected :
  current ∈ visited →
  loop_inv g s (current :: queue) visited affected →
  loop_inv g s queue visited affected.
Proof.
  intros Hin (Hq & Hv & Ha & Hs & Hcl). repeat split.
  - intros x Hx. apply Hq. by right.
  - done.
  - done.
  - destruct Hs as [?|[->|?]%elem_of_cons]; auto.
  - by apply (Hcl x y).
  - destruct (Hcl x y) as [_ [?|[->|?]%elem_of_cons]]; auto.
Qed.

Lemma loop_inv_expand g s current queue visited affected :
  loop_inv g s (current :: queue) visited affected →
  loop_inv g s
    ((queue ++ getDependents g current) ++ getInheritors g current)
    ({[current]} ∪ visited)
    ((affected ∪ list_to_set (getDependents g current))
       ∪ list_to_set (getInheritors g current)).
Proof.
  intros (Hq & Hv & Ha & Hs & Hcl).
  assert (Hcur : rtc (edge g) s current) by (apply Hq; by left).
  assert (Hstep : ∀ y, edge g current y → tc (edge g) s y).
  { intros y Hy. eapply tc_rtc_l; [done|]. by apply tc_once. }
  assert (Hd : ∀ y, y ∈ getDependents g current → edge g current y).
  { intros y Hy. left. by apply elem_of_getDependents. }
  assert (Hi : ∀ y, y ∈ getInheritors g current → edge g current y).
  { intros y Hy. right. by apply elem_of_getInheritors. }
  split; [|split; [|split; [|split]]].
  - intros x [[Hx|Hx]%elem_of_app|Hx]%elem_of_app.
    + apply Hq. by right.
    + apply tc_rtc, Hstep, Hd, Hx.
    + apply tc_rtc, Hstep, Hi, Hx.
  - intros x [->%elem_of_singleton|Hx]%elem_of_union; auto.
  - intros y [[Hy|Hy%elem_of_list_to_set]%elem_of_union
             |Hy%elem_of_list_to_set]%elem_of_union; auto.
  - destruct Hs as [?|[->|?]%elem_of_cons].
    + left. set_solver.
    + left. set_solver.
    + right. rewrite !elem_of_app. auto.
  - intros x y [->%elem_of_singleton|Hx]%elem_of_union Hxy.
    + split.
      * destruct Hxy as [Hxy|Hxy].
        -- apply elem_of_getDependents in Hxy. set_solver.
        -- apply elem_of_getInheritors in Hxy. set_solver.
      * right. rewrite !elem_of_app.
        destruct Hxy as [Hxy|Hxy].
        -- apply elem_of_getDependents in Hxy. auto.
        -- apply elem_of_getInheritors in Hxy. auto.
    + destruct (Hcl x y Hx Hxy) as [Hya Hyv]. split; [set_solver|].
      destruct Hyv as [?|[->|?]%elem_of_cons].
      * left. set_solver.
      * left. set_solver.
      * right. rewrite !elem_of_app. auto.
Qed.

Lemma affected_loop_inv g s fuel queue visited affected vis aff :
  affected_loop g fuel queue visited affected = Some (vis, aff) →
  loop_inv g s queue visited affected →
  loop_inv g s [] vis aff.
Proof.
  revert queue visited affected.
  induction fuel as [|fuel IH]; intros queue visited affected; simpl; [done|].
  destruct queue as [|current queue].
  - intros [= <- <-]. done.
  - destruct (decide (current ∈ visited)) as [Hin|Hnin]; intros Hrun Hinv.
    + eapply IH; [done|]. by eapply loop_inv_skip.
    + eapply IH; [done|]. by apply loop_inv_expand.
Qed.

Lemma tc_last_step {A} (R : relation A) x z :
  tc R x z → ∃ y, rtc R x y ∧ R y z.
Proof.
  induction 1 as [x z Hxz|x y z Hxy _ (w & Hyw & Hwz)].
  - exists x. split; [done|done].
  - exists w. split; [by eapply rtc_l|done].
Qed.

Lemma loop_inv_final g s vis aff :
  loop_inv g s [] vis aff →
  (∀ x, x ∈ vis ↔ rtc (edge g) s x) ∧ (∀ y, y ∈ aff ↔ tc (edge g) s y).
Proof.
  intros (_ & Hv & Ha & Hs & Hcl).
  assert (Hreach : ∀ x, rtc (edge g) s x → x ∈ vis).
  { intros x Hx. revert x Hx. apply rtc_ind_r.
    - destruct Hs as [?|?%elem_of_nil]; done.
    - intros x y _ Hxy IHx.
      destruct (Hcl x y IHx Hxy) as [_ [?|?%elem_of_nil]]; done. }
  split; intros x; split; auto.
  intros (w & Hw & Hwx)%tc_last_step. by apply (Hcl w x); [apply Hreach|].
Qed.

Lemma getAffectedFiles_run g p k :
  ∃ vis aff,
    affected_loop g (fuel_bound g (normalize p) + k) [normalize p] ∅ ∅
      = Some (vis, aff)
    ∧ vis ⊆ files g (normalize p)
    ∧ (∀ x, x ∈ vis ↔ rtc (edge g) (normalize p) x)
    ∧ (∀ y, y ∈ aff ↔ tc (edge g) (normalize p) y).
Proof.
  set (s := normalize p).
  destruct (affected_loop_terminates g s (fuel_bound g s + k) [s] ∅ ∅)
    as (vis & aff & Hrun & Hvis).
  - intros x ->%list_elem_of_singleton. unfold files. set_solver.
  - set_solver.
  - unfold fuel_bound. simpl.
    pose proof (subseteq_size (files g s ∖ ∅) (files g s)) as Hle.
    assert (size (files g s ∖ ∅) ≤ size (files g s)) by (apply Hle; set_solver).
    nia.
  - exists vis, aff. split; [done|]. split; [done|].
    apply loop_inv_final. eapply affected_loop_inv; [done|]. apply loop_inv_init.
Qed.

Lemma elem_of_getAffectedFiles g p y :
  y ∈ getAffectedFiles g p ↔ tc (edge g) (normalize p) y.
Proof.
  destruct (getAffectedFiles_run g p 0) as (vis & aff & Hrun & _ & _ & Haff).
  unfold DependencyTracker.getAffectedFiles, DependencyTracker.getAffectedFiles_fuel.
  rewrite Nat.add_0_r in Hrun. rewrite Hrun. simpl. apply Haff.
Qed.

(** *** The symmetry of the two indices *)

Lemma dropReverse_lookup p rev dep q d :
  q ∈ default ∅ (dropReverse p rev dep !! d)
  ↔ q ∈ default ∅ (rev !! d) ∧ ¬ (q = p ∧ d = dep).
Proof.
  unfold dropReverse. destruct (rev !! dep) as [s|] eqn:E.
  - case_decide as Hsz.
    + apply size_empty_inv in Hsz.
      destruct (decide (d = dep)) as [->|Hne].
      * rewrite lookup_delete_eq, E. simpl. set_solver.
      * rewrite lookup_delete_ne by done. naive_solver.
    + destruct (decide (d = dep)) as [->|Hne].
      * rewrite lookup_insert_eq, E. simpl. set_solver.
      * rewrite lookup_insert_ne by done. naive_solver.
  - destruct (decide (d = dep)) as [->|Hne]; [|naive_solver].
    rewrite E. simpl. set_solver.
Qed.

Lemma dropReverse_foldl p l rev q d :
  q ∈ default ∅ (foldl (dropReverse p) rev l !! d)
  ↔ q ∈ default ∅ (rev !! d) ∧ ¬ (q = p ∧ d ∈ l).
Proof.
  revert rev. induction l as [|dep l IH]; intros rev; simpl.
  - rewrite elem_of_nil. naive_solver.
  - rewrite IH, dropReverse_lookup, elem_of_cons. naive_solver.
Qed.

Lemma addReverse_lookup p rev dep q d :
  q ∈ default ∅ (addReverse p rev dep !! d)
  ↔ q ∈ default ∅ (rev !! d) ∨ (q = p ∧ d = dep).
Proof.
  unfold addReverse. destruct (rev !! dep) as [s|] eqn:E.
  - rewrite E. destruct (decide (d = dep)) as [->|Hne].
    + rewrite lookup_insert_eq, E. simpl. set_solver.
    + rewrite lookup_insert_ne by done. naive_solver.
  - rewrite lookup_insert_eq. destruct (decide (d = dep)) as [->|Hne].
    + rewrite lookup_insert_eq, E. simpl. set_solver.
    + rewrite !lookup_insert_ne by done. naive_solver.
Qed.

Lemma addReverse_foldl p l rev q d :
  q ∈ default ∅ (foldl (addReverse p) rev l !! d)
  ↔ q ∈ default ∅ (rev !! d) ∨ (q = p ∧ d ∈ l).
Proof.
  revert rev. induction l as [|dep l IH]; intros rev; simpl.
  - rewrite elem_of_nil. naive_solver.
  - rewrite IH, addReverse_lookup, elem_of_cons. naive_solver.
Qed.

Lemma symmetric_empty : symmetric empty.
Proof. intros q d. simpl. rewrite !lookup_empty. done. Qed.

(** [updateDependency] keeps the two indices symmetric. *)
Lemma updateDependency_symmetric a g filePath :
  symmetric g → symmetric (updateDependency a g filePath).
Proof.
  intros Hsym q d. unfold DependencyTracker.updateDependency.
  set (p := normalize filePath).
  set (rev1 := match dependencyGraph g !! p with
               | Some oldDeps => foldl (dropReverse p)
                                   (reverseDependencyGraph g) (elements oldDeps)
               | None => reverseDependencyGraph g
               end).
  assert (Hrev1 : ∀ q d, q ∈ default ∅ (rev1 !! d)
                         ↔ q ≠ p ∧ q ∈ default ∅ (reverseDependencyGraph g !! d)).
  { intros q' d'. unfold rev1.
    destruct (dependencyGraph g !! p) as [oldDeps|] eqn:E.
    - rewrite dropReverse_foldl, elem_of_elements.
      pose proof (Hsym p d') as Hp. rewrite E in Hp. simpl in Hp.
      destruct (decide (q' = p)) as [->|]; naive_solver.
    - pose proof (Hsym p d') as Hp. rewrite E in Hp. simpl in Hp.
      destruct (decide (q' = p)) as [->|]; [|naive_solver].
      split; [|naive_solver]. intros Hin. apply Hp in Hin. set_solver. }
  assert (Hshape : ∃ newDeps inh,
             analyzeDependencies a (mk (dependencyGraph g) rev1 (inheritanceGraph g))
             = (newDeps, mk (dependencyGraph g) rev1 inh)).
  { destruct a as [a|]; simpl; [|by eauto]. case_decide; eauto. }
  destruct Hshape as (newDeps & inh & ->). simpl.
  rewrite addReverse_foldl, Hrev1.
  destruct (decide (q = p)) as [->|Hne].
  - rewrite lookup_insert_eq. simpl. rewrite elem_of_list_to_set. naive_solver.
  - rewrite lookup_insert_ne by done. rewrite <- (Hsym q d). naive_solver.
Qed.

(** [removeDependency] keeps the symmetry for every dependency other
    than the removed path itself. *)
Lemma removeDependency_symmetric_ne g filePath q d :
  symmetric g → d ≠ normalize filePath →
  q ∈ default ∅ (reverseDependencyGraph (removeDependency g filePath) !! d)
  ↔ d ∈ default ∅ (dependencyGraph (removeDependency g filePath) !! q).
Proof.
  intros Hsym Hd. unfold DependencyTracker.removeDependency. simpl.
  set (p := normalize filePath) in *.
  rewrite lookup_delete_ne by done.
  assert (Hrev1 : q ∈ default ∅
            (match dependencyGraph g !! p with
             | Some deps => foldl (dropReverse p) (reverseDependencyGraph g) (elements deps)
             | None => reverseDependencyGraph g
             end !! d)
            ↔ q ≠ p ∧ q ∈ default ∅ (reverseDependencyGraph g !! d)).
  { pose proof (Hsym p d) as Hp.
    destruct (dependencyGraph g !! p) as [deps|] eqn:E; simpl in Hp.
    - rewrite dropReverse_foldl, elem_of_elements.
      destruct (decide (q = p)) as [->|]; naive_solver.
    - destruct (decide (q = p)) as [->|]; [|naive_solver].
      split; [|naive_solver]. intros Hin. apply Hp in Hin. set_solver. }
  rewrite Hrev1. destruct (decide (q = p)) as [->|Hne].
  - rewrite lookup_delete_eq. simpl. set_solver.
  - rewrite lookup_delete_ne by done. rewrite <- (Hsym q d). naive_solver.
Qed.

(** The forward entries of the other files survive [removeDependency]. *)
Lemma removeDependency_forward_ne g filePath q :
  q ≠ normalize filePath →
  dependencyGraph (removeDependency g filePath) !! q = dependencyGraph g !! q.
Proof. intros Hq. unfold DependencyTracker.removeDependency. simpl. by rewrite lookup_delete_ne. Qed.

Lemma removeDependency_reverse_eq g filePath :
  reverseDependencyGraph (removeDependency g filePath) !! normalize filePath = None.
Proof. unfold DependencyTracker.removeDependency. simpl. by rewrite lookup_delete_eq. Qed.

(** C9. [getAffectedFiles] terminates on every dependency graph,
    cyclic or not: [fuel_bound] iterations of its loop, a number that
    only depends on how many distinct files the graph has, always
    empty the queue. The visited set holds exactly the files reachable
    from the start, each expanded once, so at most as many as there
    are distinct files; and the result is what one or more hops reach,
    a hop being a plain reverse dependent or an inheritor. *)
Theorem getAffectedFiles_terminates (g : t) (changedFilePath : string) (extra : nat) :
  let start := normalize changedFilePath in
  ∃ visited affected : gset string,
    affected_loop g (fuel_bound g start + extra) [start] ∅ ∅
      = Some (visited, affected)
    ∧ getAffectedFiles_fuel (fuel_bound g start + extra) g changedFilePath
      = Some affected
    ∧ getAffectedFiles g changedFilePath = affected
    ∧ size visited ≤ size (files g start)
    ∧ (∀ x, x ∈ visited ↔ rtc (edge g) start x)
    ∧ (∀ y, y ∈ affected
            ↔ tc (λ x y, dependent_edge g x y ∨ inheritor_edge g x y) start y).
Proof.
  intros start.
  destruct (getAffectedFiles_run g changedFilePath extra)
    as (visited & affected & Hrun & Hsub & Hvis & Haff).
  destruct (getAffectedFiles_run g changedFilePath 0)
    as (visited0 & affected0 & Hrun0 & _ & _ & Haff0).
  exists visited, affected. fold start in Hrun, Hrun0.
  split; [done|]. split; [|split; [|split; [|split]]].
  - unfold DependencyTracker.getAffectedFiles_fuel. fold start. by rewrite Hrun.
  - unfold DependencyTracker.getAffectedFiles, DependencyTracker.getAffectedFiles_fuel.
    fold start. rewrite Nat.add_0_r in Hrun0. rewrite Hrun0. simpl.
    apply set_eq. intros y. by rewrite Haff, Haff0.
  - by apply subseteq_size.
  - done.
  - done.
Qed.

End tracker_facts.

(** ** The cache store *)

Section cache_facts.

Import CacheManager.

Context {ControllerInfo : Type}.

Implicit Types m : CacheManager.t (ControllerInfo := ControllerInfo).
Implicit Types disk : gmap string (FileContent (ControllerInfo := ControllerInfo)).
Implicit Types fs : gmap string string.

Lemma set_metadata_id m : set_metadata m (metadata m) = m.
Proof. by destruct m. Qed.

(** The schema version of the in-memory state is the one of the code:
    the constructor sets it and no operation moves it. *)
Lemma version_new defaultPath now options :
  version (metadata (new (ControllerInfo := ControllerInfo) defaultPath now options))
  = CACHE_VERSION.
Proof. done. Qed.

Lemma version_load now disk m :
  version (metadata m) = CACHE_VERSION →
  version (metadata (load now disk m).2) = CACHE_VERSION.
Proof.
  intros Hv. unfold load. destruct (enabled m); simpl; [|done].
  destruct (disk !! cacheFilePath m) as [[parsed|]|]; [|done|done].
  case_decide as Hp; [done|]. case_decide; [done|]. simpl.
  by destruct (decide (s_version parsed = CACHE_VERSION)).
Qed.

Lemma version_point_operations m filePath cached dependencyPath :
  version (metadata (setController m filePath cached)) = version (metadata m)
  ∧ version (metadata (removeController m filePath)) = version (metadata m)
  ∧ version (metadata (addDependency m filePath dependencyPath)) = version (metadata m).
Proof. done. Qed.

(** [getDependentControllers] returns the keys whose own dependency
    set has the path: the direct dependents. *)
Lemma elem_of_getDependentControllers m filePath dependent :
  dependent ∈ getDependentControllers m filePath
  ↔ ∃ deps, dependencies (metadata m) !! dependent = Some deps ∧ filePath ∈ deps.
Proof.
  unfold getDependentControllers. rewrite list_elem_of_fmap. split.
  - intros ([f deps] & -> & [Hin Hmap]%list_elem_of_filter).
    apply elem_of_map_to_list in Hmap. eauto.
  - intros (deps & Hdeps & Hin). exists (dependent, deps). split; [done|].
    apply list_elem_of_filter. split; [done|]. by apply elem_of_map_to_list.
Qed.

(** *** Staleness *)

Lemma hasFileChanged_false fs m filePath currentHash :
  (hasFileChanged fs m filePath currentHash).1.1 = false
  ↔ ∃ cached, getController m filePath = Some cached
              ∧ fileHash cached = currentHash
              ∧ statSize fs filePath = Some (fileSize cached).
Proof.
  unfold hasFileChanged, getController.
  destruct (controllers (metadata m) !! filePath) as [cached|]; simpl.
  - case_decide as Hh; simpl.
    + split; [done|]. intros (c & [= <-] & ? & _). done.
    + destruct (statSize fs filePath) as [currentSize|]; simpl.
      * case_decide as Hs; simpl.
        -- split; [done|]. intros (c & [= <-] & _ & [= ?]). done.
        -- split; [|done]. intros _. exists cached.
           destruct (decide (fileHash cached = currentHash)); [|done].
           destruct (decide (fileSize cached = currentSize)); [|done].
           by subst.
      * split; [done|]. by intros (c & _ & _ & ?).
  - split; [done|]. by intros (c & ? & _).
Qed.

(** An unchanged file leaves the manager as it is and prints nothing. *)
Lemma hasFileChanged_unchanged fs m filePath currentHash :
  (hasFileChanged fs m filePath currentHash).1.1 = false →
  hasFileChanged fs m filePath currentHash = (false, m, []).
Proof.
  unfold hasFileChanged.
  destruct (controllers (metadata m) !! filePath) as [cached|]; [|done].
  case_decide; [done|].
  destruct (statSize fs filePath) as [currentSize|]; [|done].
  case_decide; [|done]. by destruct (trackHashCollision m currentHash).
Qed.

(** C3. The two-layer staleness check: a path the store does not have
    is changed; a cached path is changed when the fingerprint differs,
    and also when the fingerprint is the same but the size on disk is
    not the cached size; the answer is "unchanged" exactly when there
    is a record whose fingerprint and size both match. *)
Theorem hasFileChanged_two_layer fs m filePath currentHash :
  let changed := (hasFileChanged fs m filePath currentHash).1.1 in
  (getController m filePath = None → changed = true)
  ∧ (∀ cached, getController m filePath = Some cached →
       fileHash cached ≠ currentHash → changed = true)
  ∧ (∀ cached currentSize, getController m filePath = Some cached →
       fileHash cached = currentHash →
       statSize fs filePath = Some currentSize →
       fileSize cached ≠ currentSize → changed = true)
  ∧ (changed = false
     ↔ ∃ cached, getController m filePath = Some cached
                 ∧ fileHash cached = currentHash
                 ∧ statSize fs filePath = Some (fileSize cached)).
Proof.
  intros changed. pose proof (hasFileChanged_false fs m filePath currentHash) as Hiff.
  fold changed in Hiff.
  split; [|split; [|split]]; [| | |done].
  - intros Hnone. apply not_false_iff_true. intros (c & Hc & _)%Hiff. congruence.
  - intros cached Hc Hh. apply not_false_iff_true.
    intros (c & Hc' & Hh' & _)%Hiff. congruence.
  - intros cached currentSize Hc Hh Hst Hsz. apply not_false_iff_true.
    intros (c & Hc' & _ & Hst')%Hiff. congruence.
Qed.

(** *** Collisions *)

Lemma trackHashCollision_count m hash :
  collisions (trackHashCollision m hash).1 hash = collisions m hash + 1.
Proof. unfold trackHashCollision, collisions. simpl. by rewrite lookup_insert_eq. Qed.

Lemma trackHashCollision_count_ne m hash h :
  h ≠ hash → collisions (trackHashCollision m hash).1 h = collisions m h.
Proof.
  intros Hne. unfold trackHashCollision, collisions. simpl.
  by rewrite lookup_insert_ne.
Qed.

Lemma hasFileChanged_collision fs m filePath cached currentSize :
  getController m filePath = Some cached →
  statSize fs filePath = Some currentSize →
  fileSize cached ≠ currentSize →
  hasFileChanged fs m filePath (fileHash cached)
  = (true, (trackHashCollision m (fileHash cached)).1,
     CollisionDetected filePath (fileHash cached) (fileSize cached) currentSize
       :: (trackHashCollision m (fileHash cached)).2).
Proof.
  unfold hasFileChanged, getController. intros -> -> Hsz.
  case_decide; [done|]. case_decide; [|done].
  by destruct (trackHashCollision m (fileHash cached)).
Qed.

(** C7, as the code has it. A detected collision adds one to the
    counter of its hash value and to no other counter; the escalation
    is printed when the counter was already at 3 or more, that is from
    the fourth collision of the hash value on. *)
Theorem trackHashCollision_escalates_from_fourth fs m filePath cached currentSize :
  getController m filePath = Some cached →
  statSize fs filePath = Some currentSize →
  fileSize cached ≠ currentSize →
  let hash := fileHash cached in
  let '(changed, m', out) := hasFileChanged fs m filePath hash in
  changed = true
  ∧ collisions m' hash = collisions m hash + 1
  ∧ (∀ h, h ≠ hash → collisions m' h = collisions m h)
  ∧ (CollisionEscalation hash (collisions m' hash) ∈ out ↔ 4 ≤ collisions m' hash)
  ∧ (collisions m' hash ≤ 3 → ∀ h n, CollisionEscalation h n ∉ out).
Proof.
  intros Hc Hst Hsz hash. subst hash.
  rewrite (hasFileChanged_collision fs m filePath cached currentSize Hc Hst Hsz).
  split; [done|].
  rewrite trackHashCollision_count.
  split; [done|]. split; [by intros h; apply trackHashCollision_count_ne|].
  unfold trackHashCollision. simpl. split.
  - rewrite elem_of_cons. case_decide.
    + split; [lia|]. intros _. right. by left.
    + split; [|lia]. intros [?|?%elem_of_nil]; done.
  - intros Hle h n. case_decide; [lia|].
    intros [?|?%elem_of_nil]%elem_of_cons; done.
Qed.

(** *** Loading and saving *)

Lemma load_unusable now disk m :
  unusable now disk m → load now disk m = (false, m).
Proof.
  unfold load. destruct (enabled m); simpl; [|done].
  intros [->|[->|(parsed & -> & Hbad)]]; [done|done|].
  case_decide; [done|]. case_decide; [done|]. naive_solver.
Qed.

Lemma load_missing now disk m :
  load now (delete (cacheFilePath m) disk) m = (false, m).
Proof. apply load_unusable. left. apply lookup_delete_eq. Qed.

Lemma load_true now disk m m' :
  load now disk m = (true, m') →
  ∃ parsed, disk !! cacheFilePath m = Some (Json parsed)
            ∧ s_version parsed = CACHE_VERSION
            ∧ (now - s_timestamp parsed ≤ ttl m)%Z
            ∧ controllers (metadata m') = s_controllers parsed
            ∧ dependencies (metadata m') = list_to_set <$> s_dependencies parsed.
Proof.
  unfold load. destruct (enabled m); simpl; [|done].
  destruct (disk !! cacheFilePath m) as [[parsed|]|]; [|done|done].
  case_decide as Hv; [done|]. case_decide as Ht; [done|].
  intros [= <-]. exists parsed. simpl.
  split; [done|]. split; [by destruct (decide (s_version parsed = CACHE_VERSION))|].
  split; [lia|done].
Qed.

(** C5, as the code has it. When the cache file is missing, does not
    parse, has another schema version or is older than the
    time-to-live, [load] returns false and leaves the in-memory store
    exactly as it was: nothing of the file is taken, and the outcome is
    the one for a missing file. On a manager that was just constructed
    the store is therefore empty. *)
Theorem load_fails_closed now disk m :
  unusable now disk m →
  load now disk m = (false, m)
  ∧ load now disk m = load now (delete (cacheFilePath m) disk) m
  ∧ ∀ defaultPath t0 options,
      m = new defaultPath t0 options →
      controllers (metadata (load now disk m).2) = ∅
      ∧ dependencies (metadata (load now disk m).2) = ∅.
Proof.
  intros Hbad. rewrite load_missing, (load_unusable now disk m Hbad).
  split; [done|]. split; [done|]. by intros defaultPath t0 options ->.
Qed.

Lemma dependencies_roundtrip (deps : gmap string (gset string)) :
  list_to_set <$> (elements <$> deps) = deps.
Proof.
  apply map_eq. intros k. rewrite !lookup_fmap.
  destruct (deps !! k) as [s|]; simpl; [|done].
  f_equal. apply list_to_set_elements_L.
Qed.

(** C4. What [save] writes, [load] reads back: the manager that
    loads the file within the time-to-live holds the same records
    under the same paths, with the same fingerprint and size, and the
    same dependency sets. *)
Theorem save_load_roundtrip (tsave tload : Z) disk m m0 :
  enabled m = true →
  version (metadata m) = CACHE_VERSION →
  cacheFilePath m0 = cacheFilePath m →
  enabled m0 = true →
  (tload - tsave ≤ ttl m0)%Z →
  ∃ disk' m',
    save tsave true disk m = (true, disk')
    ∧ load tload disk' m0 = (true, m')
    ∧ controllers (metadata m') = controllers (metadata m)
    ∧ dependencies (metadata m') = dependencies (metadata m)
    ∧ (∀ filePath,
         (fileHash <$> getController m' filePath) = (fileHash <$> getController m filePath)
         ∧ (fileSize <$> getController m' filePath) = (fileSize <$> getController m filePath))
    ∧ dom (controllers (metadata m')) = dom (controllers (metadata m)).
Proof.
  intros Hen Hver Hpath Hen0 Hage.
  unfold save, load. rewrite Hen, Hen0. simpl.
  eexists _, _. split; [done|].
  rewrite Hpath, lookup_insert_eq. simpl.
  rewrite decide_False by (by intros []).
  rewrite decide_False by lia.
  split; [done|]. simpl.
  split; [done|]. split; [apply dependencies_roundtrip|].
  split; [|done]. intros filePath. unfold getController. simpl. done.
Qed.

(** For comparison: writing a temporary file and renaming it onto the
    cache path never shows a cut file at the cache path. *)
Lemma write_then_rename_is_atomic disk (tmp path : string) content disk' :
  tmp ≠ path →
  disk' ∈ crash_states disk [WriteFile tmp content; Rename tmp path] →
  disk' !! path = disk !! path ∨ disk' !! path = Some content.
Proof.
  intros Hne. simpl. rewrite lookup_insert_eq.
  rewrite !elem_of_cons, elem_of_nil.
  intros [->|[->|[->|[->|[]]]]].
  - by left.
  - left. by rewrite lookup_insert_ne.
  - left. by rewrite lookup_insert_ne.
  - right. by rewrite lookup_insert_eq.
Qed.

(** C8, as the code has it. [save] is one [writeFileSync] on the cache
    path itself. A process killed while it runs leaves the old file,
    the new one, or a cut one at the cache path; the cut file does not
    parse, and the next [load] rejects it without touching the store. *)
Theorem save_writes_in_place (now : Z) disk m :
  enabled m = true →
  save_ops now m = [WriteFile (cacheFilePath m) (Json (serializable now m))]
  ∧ (save now true disk m).2
    = <[cacheFilePath m := Json (serializable now m)]> disk
  ∧ crash_states disk (save_ops now m)
    = [disk;
       <[cacheFilePath m := Unparseable]> disk;
       <[cacheFilePath m := Json (serializable now m)]> disk]
  ∧ ∀ later m0, cacheFilePath m0 = cacheFilePath m →
      load later (<[cacheFilePath m := Unparseable]> disk) m0 = (false, m0).
Proof.
  intros Hen. unfold save. rewrite Hen. simpl.
  split; [done|]. split; [done|]. split; [done|].
  intros later m0 Hpath. apply load_unusable. right. left.
  by rewrite Hpath, lookup_insert_eq.
Qed.

End cache_facts.

(** ** The scan cycle *)

Section scanner_facts.

Import IncrementalScanner.

Context {MethodInfo : Type}.
Variable normalize : string → string.
Variable basename : string → string → string.
Variable digest : CacheManager.HashAlgorithm → string → string.

Local Abbreviation Info := (ControllerInfo (MethodInfo := MethodInfo)).
Local Abbreviation scanFile := (IncrementalScanner.scanFile normalize digest).
Local Abbreviation analyze := (IncrementalScanner.analyze normalize).
Local Abbreviation handleFileDelete := (IncrementalScanner.handleFileDelete normalize).
Local Abbreviation resolve_event := (IncrementalScanner.resolve_event normalize basename).
Local Abbreviation resolve := (IncrementalScanner.resolve normalize basename).
Local Abbreviation rescan := (IncrementalScanner.rescan normalize digest).
Local Abbreviation reusable := (IncrementalScanner.reusable normalize digest).
Local Abbreviation processFileChanges :=
  (IncrementalScanner.processFileChanges normalize basename digest).

Implicit Types s : IncrementalScanner.t (MethodInfo := MethodInfo).
Implicit Types st : list string * IncrementalScanner.t (MethodInfo := MethodInfo).
Implicit Types fs : gmap string string.

(** *** The affected set only grows *)

Lemma elem_of_set_add x y l : y ∈ set_add x l ↔ y = x ∨ y ∈ l.
Proof.
  unfold set_add. case_decide.
  - split; [auto|]. by intros [->|?].
  - rewrite elem_of_app, list_elem_of_singleton. tauto.
Qed.

Lemma elem_of_set_add_foldl y l acc :
  y ∈ foldl (λ acc dep, set_add dep acc) acc l ↔ y ∈ acc ∨ y ∈ l.
Proof.
  revert acc. induction l as [|x l IH]; intros acc; simpl.
  - rewrite elem_of_nil. tauto.
  - rewrite IH, elem_of_set_add, elem_of_cons. tauto.
Qed.

Lemma resolve_event_mono st event y :
  y ∈ st.1 → y ∈ (resolve_event st event).1.
Proof.
  destruct st as [affectedFiles s]. simpl. intros Hy.
  destruct (type event); simpl.
  - destruct (dependencyTracker s); [|by apply elem_of_set_add; right].
    case_match; simpl; [|by apply elem_of_set_add; right].
    apply elem_of_set_add_foldl. left. apply elem_of_set_add. by right.
  - destruct (dependencyTracker s); [|by apply elem_of_set_add; right].
    case_match; simpl; [|by apply elem_of_set_add; right].
    apply elem_of_set_add_foldl. left. apply elem_of_set_add. by right.
  - apply elem_of_set_add_foldl. by left.
Qed.

Lemma resolve_event_adds st event :
  type event ≠ unlink →
  normalize (ev_filePath event) ∈ (resolve_event st event).1.
Proof.
  destruct st as [affectedFiles s]. simpl. intros Hty.
  assert (Hin : normalize (ev_filePath event)
                  ∈ set_add (normalize (ev_filePath event)) affectedFiles)
    by (apply elem_of_set_add; by left).
  destruct (type event); simpl; [| |done].
  - destruct (dependencyTracker s); [|done]. case_match; simpl; [|done].
    apply elem_of_set_add_foldl. by left.
  - destruct (dependencyTracker s); [|done]. case_match; simpl; [|done].
    apply elem_of_set_add_foldl. by left.
Qed.

Lemma resolve_foldl_mono events st y :
  y ∈ st.1 → y ∈ (foldl resolve_event st events).1.
Proof.
  revert st. induction events as [|e events IH]; intros st; simpl; [done|].
  intros Hy. by apply IH, resolve_event_mono.
Qed.

Lemma resolve_adds s events event :
  event ∈ events → type event ≠ unlink →
  normalize (ev_filePath event) ∈ (resolve s events).1.
Proof.
  unfold IncrementalScanner.resolve. generalize (([] : list string), s).
  induction events as [|e events IH]; intros st; simpl.
  - by intros ?%elem_of_nil.
  - intros [->|Hin]%elem_of_cons Hty.
    + by apply resolve_foldl_mono, resolve_event_adds.
    + by apply IH.
Qed.

(** What a removal adds to the affected set: the direct dependents
    the cache records for the path, nothing further. *)
Lemma handleFileDelete_affected s filePath affectedFiles y :
  y ∈ (handleFileDelete s filePath affectedFiles).1
  ↔ y ∈ affectedFiles
    ∨ ∃ deps, CacheManager.dependencies (CacheManager.metadata (cacheManager s)) !! y
              = Some deps ∧ filePath ∈ deps.
Proof.
  unfold IncrementalScanner.handleFileDelete. simpl.
  by rewrite elem_of_set_add_foldl, elem_of_getDependentControllers.
Qed.

(** The first loop leaves the project and the flag alone. *)
Lemma resolve_event_project st event :
  project (resolve_event st event).2 = project st.2
  ∧ isInitialized (resolve_event st event).2 = isInitialized st.2.
Proof.
  destruct st as [affectedFiles s]. simpl.
  destruct (type event); simpl; [| |done].
  - destruct (dependencyTracker s); [|done]. by case_match.
  - destruct (dependencyTracker s); [|done]. by case_match.
Qed.

Lemma resolve_project s events :
  project (resolve s events).2 = project s.
Proof.
  unfold IncrementalScanner.resolve.
  change (project s) with (project (([] : list string), s).2).
  generalize (([] : list string), s).
  induction events as [|e events IH]; intros st; simpl; [done|].
  rewrite IH. apply resolve_event_project.
Qed.

Lemma resolve_initialized s events :
  isInitialized (resolve s events).2 = isInitialized s.
Proof.
  unfold IncrementalScanner.resolve.
  change (isInitialized s) with (isInitialized (([] : list string), s).2).
  generalize (([] : list string), s).
  induction events as [|e events IH]; intros st; simpl; [done|].
  rewrite IH. apply resolve_event_project.
Qed.

(** A batch without removals does not touch the scanner in the first
    loop. *)
Lemma resolve_no_unlink s events :
  (∀ event, event ∈ events → type event ≠ unlink) →
  (resolve s events).2 = s.
Proof.
  unfold IncrementalScanner.resolve.
  change s with (([] : list string), s).2 at 2.
  generalize (([] : list string), s).
  induction events as [|e events IH]; intros st Hall; simpl; [done|].
  rewrite IH by (intros event Hin; apply Hall; by right).
  assert (Hty : type e ≠ unlink) by (apply Hall; by left).
  destruct st as [affectedFiles s0]. simpl.
  destruct (type e); simpl; [| |done].
  - destruct (dependencyTracker s0); [|done]. by case_match.
  - destruct (dependencyTracker s0); [|done]. by case_match.
Qed.

(** *** What one scan leaves alone *)

Lemma set_cache_id s : set_cache s (cacheManager s) = s.
Proof. by destruct s. Qed.

Lemma hasFileChanged_metadata fs (m : CacheManager.t (ControllerInfo := Info))
    filePath currentHash :
  CacheManager.metadata (CacheManager.hasFileChanged fs m filePath currentHash).1.2
    = CacheManager.metadata m
  ∧ CacheManager.hashAlgorithm
      (CacheManager.hasFileChanged fs m filePath currentHash).1.2
    = CacheManager.hashAlgorithm m.
Proof.
  unfold CacheManager.hasFileChanged.
  destruct (CacheManager.controllers (CacheManager.metadata m) !! filePath); [|done].
  case_decide; [done|].
  destruct (CacheManager.statSize fs filePath); [|done].
  by case_decide.
Qed.

Lemma hasFileChanged_console fs (m : CacheManager.t (ControllerInfo := Info))
    filePath currentHash x :
  Analyzed x ∉ Logged <$> (CacheManager.hasFileChanged fs m filePath currentHash).2.
Proof. intros (line & ? & _)%list_elem_of_fmap. done. Qed.

Lemma addDependency_foldl_controllers (m : CacheManager.t (ControllerInfo := Info))
    controllerPath deps :
  let m' := foldl (λ cm dep, CacheManager.addDependency cm controllerPath dep) m deps in
  CacheManager.controllers (CacheManager.metadata m')
    = CacheManager.controllers (CacheManager.metadata m)
  ∧ CacheManager.hashAlgorithm m' = CacheManager.hashAlgorithm m.
Proof.
  revert m. induction deps as [|dep deps IH]; intros m; simpl; [done|].
  destruct (IH (CacheManager.addDependency m controllerPath dep)) as [-> ->]. done.
Qed.

Lemma analyze_other now proj s normalizedPath fileHash fileSize other :
  normalizedPath ≠ other →
  let r := analyze now proj s normalizedPath fileHash fileSize in
  project r.1.2 = project s
  ∧ CacheManager.hashAlgorithm (cacheManager r.1.2)
    = CacheManager.hashAlgorithm (cacheManager s)
  ∧ CacheManager.controllers (CacheManager.metadata (cacheManager r.1.2)) !! other
    = CacheManager.controllers (CacheManager.metadata (cacheManager s)) !! other
  ∧ Analyzed other ∉ r.2.
Proof.
  intros Hne. unfold IncrementalScanner.analyze.
  assert (Hone : Analyzed other ∉ [Analyzed normalizedPath]).
  { intros [= <-]%list_elem_of_singleton. done. }
  destruct (analyzeFile proj normalizedPath) as [| |[info|]]; simpl; try done.
  - split; [done|]. split; [done|]. split; [|done]. by rewrite lookup_delete_ne.
  - destruct (dependencyTracker s) as [g|]; simpl.
    + destruct (DependencyTracker.analyzeDependencies normalize
                  (analyzeImports proj normalizedPath) g) as [deps g'] eqn:E. simpl.
      match goal with
      | |- context [foldl ?f ?m deps] =>
        destruct (addDependency_foldl_controllers m normalizedPath deps) as [-> ->]
      end.
      simpl. split; [done|]. split; [done|]. split; [by rewrite lookup_insert_ne|].
      intros [[= <-]|[?|?%elem_of_nil]%elem_of_cons]%elem_of_cons; done.
    + split; [done|]. split; [done|]. split; [by rewrite lookup_insert_ne|].
      intros [[= <-]|?%elem_of_nil]%elem_of_cons; done.
Qed.

Lemma scanFile_other now fs s filePath other :
  normalize filePath ≠ other →
  let r := scanFile now fs s filePath in
  project r.1.2 = project s
  ∧ CacheManager.hashAlgorithm (cacheManager r.1.2)
    = CacheManager.hashAlgorithm (cacheManager s)
  ∧ CacheManager.controllers (CacheManager.metadata (cacheManager r.1.2)) !! other
    = CacheManager.controllers (CacheManager.metadata (cacheManager s)) !! other
  ∧ Analyzed other ∉ r.2.
Proof.
  intros Hne. unfold IncrementalScanner.scanFile.
  destruct (project s) as [proj|] eqn:Hproj; simpl;
    [|by rewrite Hproj; repeat split; try done; apply not_elem_of_nil].
  set (np := normalize filePath) in *.
  set (h := CacheManager.calculateHash digest fs (cacheManager s) np).
  destruct (CacheManager.getController (cacheManager s) np) as [cached|].
  - pose proof (hasFileChanged_metadata fs (cacheManager s) np h) as [Hmd Halg].
    pose proof (hasFileChanged_console fs (cacheManager s) np h other) as Hlog.
    destruct (CacheManager.hasFileChanged fs (cacheManager s) np h)
      as [[changed cm] out]. simpl in Hmd, Halg, Hlog.
    destruct changed.
    + pose proof (analyze_other now proj (set_cache s cm) np h
                    (CacheManager.getFileSize fs np) other Hne) as Han.
      destruct (analyze now proj (set_cache s cm) np h
                  (CacheManager.getFileSize fs np)) as [[r s'] evs].
      simpl in *. destruct Han as (Hp & Ha & Hc & Hev).
      rewrite Hp, Ha, Hc, Halg, Hmd, Hproj. repeat split; try done.
      rewrite elem_of_app. tauto.
    + simpl. rewrite Halg, Hmd, Hproj. done.
  - pose proof (analyze_other now proj s np h
                  (CacheManager.getFileSize fs np) other Hne) as Han.
    simpl in Han. by rewrite Hproj in Han.
Qed.

(** The cache-hit path of [scanFile]: the cached result comes back,
    the scanner is as before and nothing was analyzed. *)
Lemma scanFile_hit now fs s proj filePath cached :
  project s = Some proj →
  CacheManager.getController (cacheManager s) (normalize filePath) = Some cached →
  (CacheManager.hasFileChanged fs (cacheManager s) (normalize filePath)
     (CacheManager.calculateHash digest fs (cacheManager s) (normalize filePath))).1.1
    = false →
  scanFile now fs s filePath = (Some (CacheManager.controllerInfo cached), s, []).
Proof.
  intros Hproj Hc Hun. unfold IncrementalScanner.scanFile.
  rewrite Hproj, Hc. simpl.
  rewrite (hasFileChanged_unchanged _ _ _ _ Hun). simpl.
  by rewrite set_cache_id.
Qed.

(** *** A cached and unchanged file through the second loop *)

Lemma reusable_transfer fs s s' filePath cached :
  project s' = project s →
  CacheManager.hashAlgorithm (cacheManager s')
    = CacheManager.hashAlgorithm (cacheManager s) →
  CacheManager.controllers (CacheManager.metadata (cacheManager s')) !! normalize filePath
    = CacheManager.controllers (CacheManager.metadata (cacheManager s)) !! normalize filePath →
  reusable fs s filePath cached → reusable fs s' filePath cached.
Proof.
  intros Hp Ha Hc (Hproj & Hget & Hun). unfold reusable.
  rewrite Hp. split; [done|].
  unfold CacheManager.getController in *. rewrite Hc. split; [done|].
  apply hasFileChanged_false. apply hasFileChanged_false in Hun.
  unfold CacheManager.getController, CacheManager.calculateHash in *.
  by rewrite Hc, Ha.
Qed.

Implicit Types acc : gmap string (option Info)
                     * IncrementalScanner.t (MethodInfo := MethodInfo)
                     * list Event.

Lemma rescan_reusable now fs filePath cached acc current :
  reusable fs acc.1.2 filePath cached →
  let acc' := rescan now fs acc current in
  reusable fs acc'.1.2 filePath cached
  ∧ (Analyzed (normalize filePath) ∈ acc'.2 → Analyzed (normalize filePath) ∈ acc.2)
  ∧ (current = filePath → is_Some (fs !! filePath) →
     acc'.1.1 !! filePath = Some (Some (CacheManager.controllerInfo cached)))
  ∧ (acc.1.1 !! filePath = Some (Some (CacheManager.controllerInfo cached)) →
     acc'.1.1 !! filePath = Some (Some (CacheManager.controllerInfo cached))).
Proof.
  destruct acc as [[res s] tr]. simpl. intros Hre.
  unfold IncrementalScanner.rescan.
  destruct (fs !! current) as [content|] eqn:Hfs; simpl.
  2:{ split; [done|]. split; [done|]. split; [|done].
      intros -> [? ?]. congruence. }
  assert (Hstep : ∃ r s1 evs,
            scanFile now fs s current = (r, s1, evs)
            ∧ reusable fs s1 filePath cached
            ∧ (Analyzed (normalize filePath) ∉ evs)
            ∧ (normalize current = normalize filePath →
               r = Some (CacheManager.controllerInfo cached))).
  { destruct (decide (normalize current = normalize filePath)) as [Heq|Hne].
    - destruct Hre as ([proj Hproj] & Hget & Hun).
      exists (Some (CacheManager.controllerInfo cached)), s, [].
      split; [|split; [by split; [eauto|] |split; [apply not_elem_of_nil|done]]].
      apply (scanFile_hit now fs s proj current cached Hproj); by rewrite Heq.
    - pose proof (scanFile_other now fs s current (normalize filePath) Hne)
        as (Hp & Ha & Hc & Hev).
      destruct (scanFile now fs s current) as [[r s1] evs]. simpl in *.
      exists r, s1, evs. split; [done|].
      split; [by eapply reusable_transfer|]. split; [done|]. done. }
  destruct Hstep as (r & s1 & evs & -> & Hre1 & Hev & Hr).
  assert (Hres : (current = filePath →
                  <[current := r]> res !! filePath
                    = Some (Some (CacheManager.controllerInfo cached)))
                 ∧ (res !! filePath = Some (Some (CacheManager.controllerInfo cached)) →
                    <[current := r]> res !! filePath
                      = Some (Some (CacheManager.controllerInfo cached)))).
  { split.
    - intros ->. rewrite lookup_insert_eq, Hr; done.
    - intros Hold. destruct (decide (current = filePath)) as [->|Hne].
      + rewrite lookup_insert_eq, Hr; done.
      + by rewrite lookup_insert_ne. }
  destruct Hres as [Hres1 Hres2].
  destruct (dependencyTracker s1) as [g|], r as [info|], (project s1) as [proj|] eqn:Hp1;
    simpl; (split; [|split; [|split; [by intros; apply Hres1|done]]]).
  all: try done.
  all: try (rewrite elem_of_app; tauto).
  - destruct Hre1 as (_ & Hget & Hun). by split; [eauto|].
  - rewrite !elem_of_app, list_elem_of_singleton. intros [?|[?|?]]; done.
Qed.

Lemma rescan_foldl_reusable now fs filePath cached affectedFiles acc :
  reusable fs acc.1.2 filePath cached →
  let acc' := foldl (rescan now fs) acc affectedFiles in
  (Analyzed (normalize filePath) ∈ acc'.2 → Analyzed (normalize filePath) ∈ acc.2)
  ∧ ((filePath ∈ affectedFiles ∧ is_Some (fs !! filePath))
     ∨ acc.1.1 !! filePath = Some (Some (CacheManager.controllerInfo cached)) →
     acc'.1.1 !! filePath = Some (Some (CacheManager.controllerInfo cached))).
Proof.
  revert acc. induction affectedFiles as [|current l IH]; intros acc Hre; simpl.
  - split; [done|]. intros [[?%elem_of_nil _]|?]; done.
  - destruct (rescan_reusable now fs filePath cached acc current Hre)
      as (Hre' & Htr & Hnow & Hkeep).
    destruct (IH _ Hre') as [IHtr IHres]. split; [tauto|].
    intros [[[->|Hin]%elem_of_cons Hfs]|Hold]; apply IHres; auto.
Qed.

(** *** From one cycle to the next *)

Lemma analyze_project now proj s normalizedPath fileHash fileSize :
  let r := analyze now proj s normalizedPath fileHash fileSize in
  project r.1.2 = project s ∧ isInitialized r.1.2 = isInitialized s.
Proof.
  unfold IncrementalScanner.analyze.
  destruct (analyzeFile proj normalizedPath) as [| |[info|]]; simpl; try done.
  destruct (dependencyTracker s) as [g|]; simpl; [|done].
  by destruct (DependencyTracker.analyzeDependencies normalize
                 (analyzeImports proj normalizedPath) g).
Qed.

Lemma scanFile_project now fs s filePath :
  let r := scanFile now fs s filePath in
  project r.1.2 = project s ∧ isInitialized r.1.2 = isInitialized s.
Proof.
  unfold IncrementalScanner.scanFile.
  destruct (project s) as [proj|] eqn:Hproj; simpl; [|done].
  set (np := normalize filePath).
  set (h := CacheManager.calculateHash digest fs (cacheManager s) np).
  destruct (CacheManager.getController (cacheManager s) np) as [cached|].
  - destruct (CacheManager.hasFileChanged fs (cacheManager s) np h)
      as [[changed cm] out]. destruct changed; simpl; [|done].
    pose proof (analyze_project now proj (set_cache s cm) np h
                  (CacheManager.getFileSize fs np)) as Han.
    destruct (analyze now proj (set_cache s cm) np h
                (CacheManager.getFileSize fs np)) as [[r s'] evs].
    simpl in *. by rewrite <- Hproj.
  - pose proof (analyze_project now proj s np h
                  (CacheManager.getFileSize fs np)) as Han.
    simpl in Han. by rewrite <- Hproj.
Qed.

Lemma rescan_project now fs acc current :
  project (rescan now fs acc current).1.2 = project acc.1.2
  ∧ isInitialized (rescan now fs acc current).1.2 = isInitialized acc.1.2.
Proof.
  destruct acc as [[res s] tr]. unfold IncrementalScanner.rescan. simpl.
  destruct (fs !! current); simpl; [|done].
  pose proof (scanFile_project now fs s current) as Hscan.
  destruct (scanFile now fs s current) as [[r s1] evs]. simpl in Hscan.
  destruct Hscan as [<- <-].
  destruct (dependencyTracker s1), r; simpl; try done.
  by destruct (project s1) eqn:E.
Qed.

Lemma rescan_foldl_project now fs affectedFiles acc :
  project (foldl (rescan now fs) acc affectedFiles).1.2 = project acc.1.2
  ∧ isInitialized (foldl (rescan now fs) acc affectedFiles).1.2
    = isInitialized acc.1.2.
Proof.
  revert acc. induction affectedFiles as [|current l IH]; intros acc; simpl; [done|].
  destruct (IH (rescan now fs acc current)) as [-> ->]. apply rescan_project.
Qed.

(** A scan that returns a result leaves a record that passes the
    two-layer check against the same disk. *)
Lemma analyze_result_reusable now fs proj s filePath info :
  project s = Some proj →
  is_Some (fs !! normalize filePath) →
  (analyze now proj s (normalize filePath)
     (CacheManager.calculateHash digest fs (cacheManager s) (normalize filePath))
     (CacheManager.getFileSize fs (normalize filePath))).1.1 = Some info →
  ∃ cached,
    reusable fs
      (analyze now proj s (normalize filePath)
         (CacheManager.calculateHash digest fs (cacheManager s) (normalize filePath))
         (CacheManager.getFileSize fs (normalize filePath))).1.2
      filePath cached
    ∧ CacheManager.controllerInfo cached = info.
Proof.
  intros Hproj [content Hfs]. unfold IncrementalScanner.analyze.
  set (np := normalize filePath) in *.
  destruct (analyzeFile proj np) as [| |[info0|]]; simpl; try done.
  assert (Hgoal : ∀ (deps : list string) tracker,
    ∃ cached,
      reusable fs
        (mk (project s)
           (foldl (λ cm dep, CacheManager.addDependency cm np dep)
              (CacheManager.setController (cacheManager s) np
                 (CacheManager.mkCached np
                    (CacheManager.calculateHash digest fs (cacheManager s) np)
                    (CacheManager.getFileSize fs np)
                    (mkInfo (name info0) (path info0) (methods info0)
                       (hasGuards info0) (Some np))
                    deps now))
              deps)
           tracker (isInitialized s))
        filePath cached
      ∧ CacheManager.controllerInfo cached
        = mkInfo (name info0) (path info0) (methods info0) (hasGuards info0) (Some np)).
  { intros deps tracker.
    set (cc := CacheManager.mkCached np
                 (CacheManager.calculateHash digest fs (cacheManager s) np)
                 (CacheManager.getFileSize fs np)
                 (mkInfo (name info0) (path info0) (methods info0)
                    (hasGuards info0) (Some np))
                 deps now).
    destruct (addDependency_foldl_controllers
                (CacheManager.setController (cacheManager s) np cc) np deps)
      as [Hc Ha].
    set (m' := foldl (λ cm dep, CacheManager.addDependency cm np dep)
                 (CacheManager.setController (cacheManager s) np cc) deps) in *.
    assert (Hget : CacheManager.getController m' np = Some cc).
    { unfold CacheManager.getController. rewrite Hc. simpl. apply lookup_insert_eq. }
    exists cc. split; [|done].
    unfold IncrementalScanner.reusable.
    cbn [IncrementalScanner.project IncrementalScanner.cacheManager]. fold np.
    split; [by rewrite Hproj; eauto|]. split; [exact Hget|].
    apply hasFileChanged_false. exists cc. split; [exact Hget|]. split.
    - unfold CacheManager.calculateHash. by rewrite Ha.
    - unfold cc, CacheManager.getFileSize, CacheManager.statSize.
      by rewrite Hfs. }
  destruct (dependencyTracker s) as [g|]; simpl.
  - destruct (DependencyTracker.analyzeDependencies normalize
                (analyzeImports proj np) g) as [deps g']. simpl.
    intros [= <-]. exact (Hgoal deps (Some g')).
  - intros [= <-]. exact (Hgoal [] None).
Qed.

Lemma scanFile_result_reusable now fs s filePath info :
  is_Some (project s) →
  is_Some (fs !! normalize filePath) →
  (scanFile now fs s filePath).1.1 = Some info →
  ∃ cached, reusable fs (scanFile now fs s filePath).1.2 filePath cached
            ∧ CacheManager.controllerInfo cached = info.
Proof.
  intros [proj Hproj] Hfs. unfold IncrementalScanner.scanFile. rewrite Hproj.
  set (np := normalize filePath) in *.
  destruct (CacheManager.getController (cacheManager s) np) as [cached|] eqn:Hget.
  - pose proof (hasFileChanged_metadata fs (cacheManager s) np
        (CacheManager.calculateHash digest fs (cacheManager s) np)) as [Hmd Halg].
    destruct (CacheManager.hasFileChanged fs (cacheManager s) np
                (CacheManager.calculateHash digest fs (cacheManager s) np))
      as [[changed cm] out] eqn:Hchk. simpl in Hmd, Halg.
    destruct changed.
    + assert (Hh : CacheManager.calculateHash digest fs (cacheManager s) np
                   = CacheManager.calculateHash digest fs
                       (cacheManager (set_cache s cm)) np).
      { unfold CacheManager.calculateHash. simpl. by rewrite Halg. }
      rewrite Hh.
      pose proof (analyze_result_reusable now fs proj (set_cache s cm) filePath info
                    Hproj Hfs) as Han. fold np in Han.
      destruct (analyze now proj (set_cache s cm) np
                  (CacheManager.calculateHash digest fs
                     (cacheManager (set_cache s cm)) np)
                  (CacheManager.getFileSize fs np)) as [[r s'] evs].
      simpl in *. done.
    + simpl. intros [= <-]. exists cached. split; [|done].
      assert (Hun : (CacheManager.hasFileChanged fs (cacheManager s) np
                       (CacheManager.calculateHash digest fs (cacheManager s) np)).1.1
                    = false) by (by rewrite Hchk).
      rewrite (hasFileChanged_unchanged _ _ _ _ Hun) in Hchk.
      injection Hchk as <- _. rewrite set_cache_id.
      split; [by rewrite Hproj; eauto|]. done.
  - apply (analyze_result_reusable now fs proj s filePath info Hproj Hfs).
Qed.

Lemma reusable_tracker fs s tracker filePath cached :
  reusable fs s filePath cached →
  reusable fs (mk (project s) (cacheManager s) tracker (isInitialized s))
    filePath cached.
Proof. by intros (? & ? & ?). Qed.

(** The result one round stores for [filePath] is the one the map had
    before, or comes with a reusable record. *)
Lemma rescan_establishes now fs filePath acc current info :
  is_Some (project acc.1.2) →
  is_Some (fs !! normalize filePath) →
  (rescan now fs acc current).1.1 !! filePath = Some (Some info) →
  acc.1.1 !! filePath = Some (Some info)
  ∨ ∃ cached, reusable fs (rescan now fs acc current).1.2 filePath cached
              ∧ CacheManager.controllerInfo cached = info.
Proof.
  destruct acc as [[res s] tr]. simpl. intros Hproj Hfs.
  unfold IncrementalScanner.rescan.
  destruct (fs !! current) as [content|] eqn:Hcur; simpl; [|by left].
  destruct (decide (current = filePath)) as [->|Hne].
  - pose proof (scanFile_result_reusable now fs s filePath info Hproj Hfs) as Hscan.
    destruct (scanFile now fs s filePath) as [[r s1] evs]. simpl in Hscan.
    intros Hres. right.
    assert (Hr : r = Some info).
    { destruct (dependencyTracker s1), r, (project s1); simpl in Hres;
        rewrite lookup_insert_eq in Hres; congruence. }
    destruct (Hscan Hr) as (cached & Hre & Hinfo). exists cached. split; [|done].
    destruct (dependencyTracker s1) as [g|]; [|done].
    destruct r; [|done].
    destruct (project s1) as [proj|] eqn:Hp; [|done]. simpl.
    rewrite <- Hp. by apply reusable_tracker.
  - destruct (scanFile now fs s current) as [[r s1] evs].
    intros Hres. left.
    destruct (dependencyTracker s1), r, (project s1); simpl in Hres;
      by rewrite lookup_insert_ne in Hres.
Qed.

(** A result of the second loop for [filePath] comes with a reusable
    record for it in the scanner the loop ends with. *)
Lemma rescan_foldl_establishes now fs filePath affectedFiles acc :
  is_Some (project acc.1.2) →
  is_Some (fs !! normalize filePath) →
  (∀ info, acc.1.1 !! filePath = Some (Some info) →
     ∃ cached, reusable fs acc.1.2 filePath cached
               ∧ CacheManager.controllerInfo cached = info) →
  let acc' := foldl (rescan now fs) acc affectedFiles in
  ∀ info, acc'.1.1 !! filePath = Some (Some info) →
    ∃ cached, reusable fs acc'.1.2 filePath cached
              ∧ CacheManager.controllerInfo cached = info.
Proof.
  intros Hproj Hfs. revert acc Hproj.
  induction affectedFiles as [|current l IH]; intros acc Hproj Hinv; simpl; [done|].
  apply IH.
  { destruct (rescan_project now fs acc current) as [-> _]. done. }
  intros info Hres.
  destruct (rescan_establishes now fs filePath acc current info Hproj Hfs Hres)
    as [Hold|Hnew]; [|done].
  destruct (Hinv info Hold) as (cached & Hre & Hinfo).
  exists cached. split; [|done].
  by destruct (rescan_reusable now fs filePath cached acc current Hre) as [? _].
Qed.

Lemma reusable_disk fs fs' s filePath cached :
  fs' !! normalize filePath = fs !! normalize filePath →
  reusable fs s filePath cached → reusable fs' s filePath cached.
Proof.
  intros Hfs (Hproj & Hget & Hun). split; [done|]. split; [done|].
  apply hasFileChanged_false. apply hasFileChanged_false in Hun.
  unfold CacheManager.calculateHash, CacheManager.calculateFileHash,
    CacheManager.statSize in *. by rewrite Hfs.
Qed.

Lemma resolve_event_reusable fs st event filePath cached :
  (type event = unlink → normalize (ev_filePath event) ≠ normalize filePath) →
  reusable fs st.2 filePath cached →
  reusable fs (resolve_event st event).2 filePath cached.
Proof.
  destruct st as [affectedFiles s]. simpl. intros Hne Hre.
  destruct (type event); simpl.
  - destruct (dependencyTracker s); [|done]. by case_match.
  - destruct (dependencyTracker s); [|done]. by case_match.
  - eapply reusable_transfer; [| | |exact Hre]; simpl; [done|done|].
    rewrite lookup_delete_ne; [done|]. by apply Hne.
Qed.

Lemma resolve_reusable fs s events filePath cached :
  (∀ event, event ∈ events → type event = unlink →
     normalize (ev_filePath event) ≠ normalize filePath) →
  reusable fs s filePath cached →
  reusable fs (resolve s events).2 filePath cached.
Proof.
  unfold IncrementalScanner.resolve.
  change s with (([] : list string), s).2 at 1.
  generalize (([] : list string), s).
  induction events as [|e events IH]; intros st Hall Hre; simpl; [done|].
  apply IH.
  - intros event Hin. apply Hall. by right.
  - apply resolve_event_reusable; [|done]. apply Hall. by left.
Qed.

(** A file that gave a result in one cycle and is the same on disk in
    the next one is not analyzed again, whatever the events of the
    second cycle are, as long as they do not remove it. *)
Lemma unchanged_file_not_reanalyzed now1 now2 ok1 ok2 fs1 fs2 d1 d2 s events1 events2
    proj filePath info :
  isInitialized s = true →
  project s = Some proj →
  let out1 := processFileChanges now1 ok1 fs1 d1 s events1 in
  results out1 !! filePath = Some (Some info) →
  is_Some (fs1 !! normalize filePath) →
  fs2 !! normalize filePath = fs1 !! normalize filePath →
  (∀ event, event ∈ events2 → type event = unlink →
     normalize (ev_filePath event) ≠ normalize filePath) →
  let out2 := processFileChanges now2 ok2 fs2 d2 (scanner out1) events2 in
  (Analyzed (normalize filePath) ∉ trace out2)
  ∧ (filePath ∈ (resolve (scanner out1) events2).1 → is_Some (fs2 !! filePath) →
     results out2 !! filePath = Some (Some info)).
Proof.
  intros Hinit Hproj out1 Hres1 Hfs1 Hsame Hkeep out2.
  assert (Hend : ∃ cached, reusable fs1 (scanner out1) filePath cached
                           ∧ CacheManager.controllerInfo cached = info
                           ∧ isInitialized (scanner out1) = true
                           ∧ project (scanner out1) = Some proj).
  { subst out1. unfold IncrementalScanner.processFileChanges in *.
    rewrite Hinit, Hproj in *.
    pose proof (resolve_project s events1) as Hp1.
    destruct (resolve s events1) as [affectedFiles s1] eqn:Hresolve. simpl in Hp1.
    pose proof (rescan_foldl_establishes now1 fs1 filePath affectedFiles (∅, s1, []))
      as Hest.
    pose proof (rescan_foldl_project now1 fs1 affectedFiles (∅, s1, [])) as [Hp2 Hi2].
    destruct (foldl (rescan now1 fs1) (∅, s1, []) affectedFiles) as [[res s2] tr].
    destruct (CacheManager.save now1 ok1 d1 (cacheManager s2)) as [ok d'].
    simpl in *.
    destruct (Hest ltac:(rewrite Hp1, Hproj; eauto) Hfs1
                ltac:(intros i Hi; by rewrite lookup_empty in Hi) info Hres1)
      as (cached & Hre & Hinfo).
    exists cached. split; [done|]. split; [done|].
    split; [|by rewrite Hp2, Hp1].
    rewrite Hi2.
    pose proof (resolve_initialized s events1) as Hinit1.
    rewrite Hresolve in Hinit1. simpl in Hinit1. by rewrite Hinit1. }
  destruct Hend as (cached & Hre & <- & Hinit2 & Hproj2).
  pose proof (resolve_reusable fs2 (scanner out1) events2 filePath cached Hkeep
                (reusable_disk fs1 fs2 _ _ _ Hsame Hre)) as Hre2.
  subst out2. unfold IncrementalScanner.processFileChanges.
  rewrite Hinit2, Hproj2.
  destruct (resolve (scanner out1) events2) as [affectedFiles s1]. simpl in *.
  pose proof (rescan_foldl_reusable now2 fs2 filePath cached affectedFiles
                (∅, s1, []) Hre2) as Hloop.
  destruct (foldl (rescan now2 fs2) (∅, s1, []) affectedFiles) as [[res s2] tr].
  simpl in Hloop. destruct Hloop as [Htr Hresult].
  destruct (CacheManager.save now2 ok2 d2 (cacheManager s2)) as [ok d'].
  simpl. split.
  - intros Hbad%Htr. by apply elem_of_nil in Hbad.
  - intros Hin Hfs. apply Hresult. by left.
Qed.

(** *** What a hit does not skip *)

Lemma analyze_tracker now proj s normalizedPath fileHash fileSize :
  is_Some (dependencyTracker s) →
  is_Some (dependencyTracker
             (analyze now proj s normalizedPath fileHash fileSize).1.2).
Proof.
  intros [g Hg]. unfold IncrementalScanner.analyze.
  destruct (analyzeFile proj normalizedPath) as [| |[info|]]; simpl;
    [by rewrite Hg..| |by rewrite Hg].
  rewrite Hg.
  destruct (DependencyTracker.analyzeDependencies normalize
              (analyzeImports proj normalizedPath) g) as [deps g'].
  simpl. eauto.
Qed.

Lemma scanFile_tracker now fs s filePath :
  is_Some (dependencyTracker s) →
  is_Some (dependencyTracker (scanFile now fs s filePath).1.2).
Proof.
  intros Hg. unfold IncrementalScanner.scanFile.
  destruct (project s) as [proj|]; [|done].
  set (np := normalize filePath).
  set (h := CacheManager.calculateHash digest fs (cacheManager s) np).
  destruct (CacheManager.getController (cacheManager s) np) as [cached|].
  - destruct (CacheManager.hasFileChanged fs (cacheManager s) np h)
      as [[changed cm] out]. destruct changed; [|done].
    pose proof (analyze_tracker now proj (set_cache s cm) np h
                  (CacheManager.getFileSize fs np) Hg) as Han.
    by destruct (analyze now proj (set_cache s cm) np h
                   (CacheManager.getFileSize fs np)) as [[r s'] evs].
  - by apply analyze_tracker.
Qed.

Lemma rescan_tracker now fs acc current :
  is_Some (dependencyTracker acc.1.2) →
  is_Some (dependencyTracker (rescan now fs acc current).1.2).
Proof.
  destruct acc as [[results s] trace]. simpl. intros Hg.
  unfold IncrementalScanner.rescan. destruct (fs !! current); [|done].
  pose proof (scanFile_tracker now fs s current Hg) as Hs1.
  destruct (IncrementalScanner.scanFile normalize digest now fs s current)
    as [[controllerInfo s1] evs]. simpl in Hs1.
  destruct (dependencyTracker s1) as [g1|] eqn:Ht; [|by destruct Hs1].
  destruct controllerInfo, (project s1); simpl; rewrite ?Ht; eauto.
Qed.

Lemma resolve_event_tracker st event :
  is_Some (dependencyTracker st.2) →
  is_Some (dependencyTracker (resolve_event st event).2).
Proof.
  destruct st as [affectedFiles s]. simpl. intros [g Hg].
  unfold IncrementalScanner.resolve_event, IncrementalScanner.handleFileDelete.
  rewrite Hg. destruct (type event); simpl; [| |eauto];
    by destruct (DependencyTracker.isDtoFile _ _ _); simpl; rewrite Hg.
Qed.

Lemma resolve_tracker s events :
  is_Some (dependencyTracker s) →
  is_Some (dependencyTracker (resolve s events).2).
Proof.
  unfold IncrementalScanner.resolve.
  change s with (([] : list string), s).2 at 1.
  generalize (([] : list string), s).
  induction events as [|e events IH]; intros st Hg; simpl; [done|].
  by apply IH, resolve_event_tracker.
Qed.

(** After a hit on a file with a controller, the second loop calls
    [updateDependency], which analyzes the dependencies of the file. *)
Lemma rescan_dependencies now fs filePath cached acc current :
  reusable fs acc.1.2 filePath cached →
  is_Some (dependencyTracker acc.1.2) →
  let acc' := rescan now fs acc current in
  (DependenciesAnalyzed (normalize filePath) ∈ acc.2 →
   DependenciesAnalyzed (normalize filePath) ∈ acc'.2)
  ∧ (current = filePath → is_Some (fs !! filePath) →
     DependenciesAnalyzed (normalize filePath) ∈ acc'.2).
Proof.
  destruct acc as [[results s] trace]. simpl.
  intros ([proj Hproj] & Hget & Hun) [g Hg]. split.
  - intros Hin. unfold IncrementalScanner.rescan.
    destruct (fs !! current); [|done].
    destruct (IncrementalScanner.scanFile normalize digest now fs s current)
      as [[controllerInfo s1] evs].
    destruct (dependencyTracker s1), controllerInfo, (project s1); simpl;
      rewrite ?elem_of_app; auto.
  - intros -> [content Hfs]. unfold IncrementalScanner.rescan. rewrite Hfs.
    rewrite (scanFile_hit now fs s proj filePath cached Hproj Hget Hun).
    rewrite Hg, Hproj. simpl.
    rewrite !elem_of_app, list_elem_of_singleton. auto.
Qed.

Lemma rescan_foldl_dependencies now fs filePath cached affectedFiles acc :
  reusable fs acc.1.2 filePath cached →
  is_Some (dependencyTracker acc.1.2) →
  DependenciesAnalyzed (normalize filePath) ∈ acc.2
  ∨ (filePath ∈ affectedFiles ∧ is_Some (fs !! filePath)) →
  DependenciesAnalyzed (normalize filePath)
    ∈ (foldl (rescan now fs) acc affectedFiles).2.
Proof.
  revert acc. induction affectedFiles as [|current l IH]; intros acc Hre Hg; simpl.
  - by intros [?|[?%elem_of_nil _]].
  - destruct (rescan_reusable now fs filePath cached acc current Hre)
      as (Hre' & _).
    destruct (rescan_dependencies now fs filePath cached acc current Hre Hg)
      as [Hkeep Hnew].
    intros Hcase. apply IH; [done|by apply rescan_tracker|].
    destruct Hcase as [?|[[->|?]%elem_of_cons ?]]; auto.
Qed.

(** C6, as the code has it. A path that has a cached record and passes
    the two-layer check when the second loop starts: its [scanFile]
    returns the cached result with the scanner unchanged and without
    any analysis, the controller analysis does not run on the path in
    the whole cycle, and when the path is in the affected set and on
    disk [processFileChanges] reports the cached result. The
    dependency analysis is not skipped: with a tracker, the cycle
    still runs it on such a path, through [updateDependency]. *)
Theorem processFileChanges_reuses_cache now write_ok fs d s events proj filePath cached :
  isInitialized s = true →
  project s = Some proj →
  CacheManager.getController (cacheManager (resolve s events).2) (normalize filePath)
    = Some cached →
  (CacheManager.hasFileChanged fs (cacheManager (resolve s events).2)
     (normalize filePath)
     (CacheManager.calculateHash digest fs (cacheManager (resolve s events).2)
        (normalize filePath))).1.1 = false →
  let out := processFileChanges now write_ok fs d s events in
  scanFile now fs (resolve s events).2 filePath
    = (Some (CacheManager.controllerInfo cached), (resolve s events).2, [])
  ∧ (Analyzed (normalize filePath) ∉ trace out)
  ∧ (filePath ∈ (resolve s events).1 → is_Some (fs !! filePath) →
     results out !! filePath = Some (Some (CacheManager.controllerInfo cached)))
  ∧ (is_Some (dependencyTracker s) →
     filePath ∈ (resolve s events).1 → is_Some (fs !! filePath) →
     DependenciesAnalyzed (normalize filePath) ∈ trace out).
Proof.
  intros Hinit Hproj Hget Hun out.
  assert (Hproj1 : project (resolve s events).2 = Some proj)
    by (by rewrite resolve_project).
  split; [by apply (scanFile_hit now fs _ proj)|].
  pose proof (resolve_tracker s events) as Htracker.
  subst out. unfold IncrementalScanner.processFileChanges.
  rewrite Hinit, Hproj.
  destruct (resolve s events) as [affectedFiles s1] eqn:Hres. simpl in *.
  assert (Hre : reusable fs s1 filePath cached) by (by split; [eauto|]).
  pose proof (rescan_foldl_reusable now fs filePath cached affectedFiles
                (∅, s1, []) Hre) as Hloop.
  pose proof (rescan_foldl_dependencies now fs filePath cached affectedFiles
                (∅, s1, []) Hre) as Hdeps.
  destruct (foldl (rescan now fs) (∅, s1, []) affectedFiles) as [[res s2] tr].
  simpl in Hloop, Hdeps. destruct Hloop as [Htr Hresult].
  destruct (CacheManager.save now write_ok d (cacheManager s2)) as [ok d'].
  simpl. split; [|split].
  - intros Hbad%Htr. by apply elem_of_nil in Hbad.
  - intros Hin Hfs. apply Hresult. by left.
  - intros Hg Hin Hfs. apply Hdeps; [by apply Htracker|]. by right.
Qed.

Lemma rescan_results now fs acc current filePath :
  is_Some ((rescan now fs acc current).1.1 !! filePath)
  ↔ is_Some (acc.1.1 !! filePath) ∨ (filePath = current ∧ is_Some (fs !! current)).
Proof.
  destruct acc as [[results s] trace]. unfold IncrementalScanner.rescan.
  destruct (fs !! current) as [content|] eqn:Hfs; simpl.
  - destruct (IncrementalScanner.scanFile normalize digest now fs s current)
      as [[controllerInfo s1] evs].
    assert (Hins : is_Some (<[current := controllerInfo]> results !! filePath)
                   ↔ is_Some (results !! filePath)
                     ∨ (filePath = current ∧ is_Some (Some content))).
    { destruct (decide (filePath = current)) as [->|Hne].
      - rewrite lookup_insert_eq. split; [intros _; right; eauto|eauto].
      - rewrite lookup_insert_ne by done. split; [by left|]. by intros [?|[? _]]. }
    by destruct (dependencyTracker s1), controllerInfo, (project s1).
  - split; [by left|]. intros [?|[_ []]]; done.
Qed.

Lemma rescan_foldl_results now fs affectedFiles acc filePath :
  is_Some ((foldl (rescan now fs) acc affectedFiles).1.1 !! filePath)
  ↔ is_Some (acc.1.1 !! filePath)
    ∨ (filePath ∈ affectedFiles ∧ is_Some (fs !! filePath)).
Proof.
  revert acc. induction affectedFiles as [|current l IH]; intros acc; simpl.
  - split; [by left|]. by intros [?|[?%elem_of_nil _]].
  - rewrite IH, rescan_results, elem_of_cons. split.
    + intros [[?|[-> ?]]|[? ?]]; auto.
    + intros [?|[[->|?] ?]]; auto.
Qed.

(** C10. Without a dependency or inheritance cycle through the changed
    file, [getAffectedFiles] does not return the file itself. The
    caller adds it: on an initialized scanner [processFileChanges]
    puts the path of every event that is not a removal in the affected
    set directly, and rescans it, so that the path has an entry in the
    returned map whenever the file is on disk. *)
Theorem getAffectedFiles_excludes_start (g : DependencyTracker.t)
    (changedFilePath : string) now write_ok fs d s events event :
  ¬ tc (DependencyTracker.edge normalize g)
       (normalize changedFilePath) (normalize changedFilePath) →
  (normalize changedFilePath
     ∉ DependencyTracker.getAffectedFiles normalize g changedFilePath)
  ∧ (isInitialized s = true → is_Some (project s) →
     event ∈ events → type event ≠ unlink →
     let out := processFileChanges now write_ok fs d s events in
     normalize (ev_filePath event) ∈ (resolve s events).1
     ∧ (is_Some (fs !! normalize (ev_filePath event)) →
        is_Some (results out !! normalize (ev_filePath event)))).
Proof.
  intros Hacyclic. split.
  - by rewrite elem_of_getAffectedFiles.
  - intros Hinit [proj Hproj] Hin Hty out.
    pose proof (resolve_adds s events event Hin Hty) as Haffected.
    split; [done|]. intros Hfs. subst out.
    unfold IncrementalScanner.processFileChanges. rewrite Hinit, Hproj.
    destruct (resolve s events) as [affectedFiles s1]. simpl in Haffected.
    pose proof (rescan_foldl_results now fs affectedFiles (∅, s1, [])
                  (normalize (ev_filePath event))) as Hdom.
    destruct (foldl (rescan now fs) (∅, s1, []) affectedFiles)
      as [[res s2] tr].
    destruct (CacheManager.save now write_ok d (cacheManager s2)) as [ok d'].
    simpl in *. apply Hdom. by right.
Qed.

End scanner_facts.

(** * Further properties *)

(** ** More of the dependency graph *)

Section tracker_more.

Import DependencyTracker.

Variable normalize : string → string.

Local Abbreviation getDependencies := (DependencyTracker.getDependencies normalize).
Local Abbreviation getDependents := (DependencyTracker.getDependents normalize).
Local Abbreviation getAffectedFiles := (DependencyTracker.getAffectedFiles normalize).
Local Abbreviation inheritor_edge := (DependencyTracker.inheritor_edge normalize).
Local Abbreviation edge := (DependencyTracker.edge normalize).
Local Abbreviation analyzeDependencies := (DependencyTracker.analyzeDependencies normalize).
Local Abbreviation updateDependency := (DependencyTracker.updateDependency normalize).
Local Abbreviation removeDependency := (DependencyTracker.removeDependency normalize).
Local Abbreviation buildGraph_step := (DependencyTracker.buildGraph_step normalize).
Local Abbreviation buildGraph := (DependencyTracker.buildGraph normalize).
Local Abbreviation getInheritanceChain := (DependencyTracker.getInheritanceChain normalize).
Local Abbreviation getDependencyInfo := (DependencyTracker.getDependencyInfo normalize).

Lemma analyzeDependencies_graphs a g :
  (analyzeDependencies a g).1 = match a with Some a => an_dependencies a | None => [] end
  ∧ dependencyGraph (analyzeDependencies a g).2 = dependencyGraph g
  ∧ reverseDependencyGraph (analyzeDependencies a g).2 = reverseDependencyGraph g.
Proof. destruct a as [a|]; simpl; [|done]. by case_decide. Qed.

Lemma buildGraph_step_lookup analysis g c :
  (∀ q, dependencyGraph (buildGraph_step analysis g c) !! q
        = if decide (q = c) then Some (list_to_set (dependenciesOf analysis c))
          else dependencyGraph g !! q)
  ∧ (∀ q d, q ∈ default ∅ (reverseDependencyGraph (buildGraph_step analysis g c) !! d)
            ↔ q ∈ default ∅ (reverseDependencyGraph g !! d)
              ∨ (q = c ∧ d ∈ dependenciesOf analysis c)).
Proof.
  unfold DependencyTracker.buildGraph_step, dependenciesOf.
  destruct (analyzeDependencies_graphs (analysis c) g) as (Hd & Hf & Hr).
  destruct (analyzeDependencies (analysis c) g) as [deps g1]. simpl in *.
  subst deps. rewrite Hf, Hr. split.
  - intros q. case_decide as Hq.
    + subst q. by rewrite lookup_insert_eq.
    + by rewrite lookup_insert_ne.
  - intros q d. apply (addReverse_foldl normalize).
Qed.

Lemma buildGraph_lookup analysis g controllerPaths :
  (∀ q, dependencyGraph (buildGraph analysis g controllerPaths) !! q
        = if decide (q ∈ controllerPaths)
          then Some (list_to_set (dependenciesOf analysis q)) else None)
  ∧ (∀ q d, q ∈ default ∅ (reverseDependencyGraph
                             (buildGraph analysis g controllerPaths) !! d)
            ↔ q ∈ controllerPaths ∧ d ∈ dependenciesOf analysis q).
Proof.
  unfold DependencyTracker.buildGraph.
  induction controllerPaths as [|c l IH] using rev_ind.
  - split.
    + intros q. simpl. by rewrite lookup_empty.
    + intros q d. simpl. rewrite lookup_empty. simpl. rewrite elem_of_nil. set_solver.
  - rewrite foldl_app. simpl. destruct IH as [IHf IHr].
    destruct (buildGraph_step_lookup analysis
                (foldl (buildGraph_step analysis)
                   (mk ∅ ∅ (inheritanceGraph g)) l) c) as [Hf Hr].
    split.
    + intros q. rewrite Hf, IHf. destruct (decide (q = c)) as [->|Hne].
      * by rewrite decide_True by (apply elem_of_app; right; by left).
      * destruct (decide (q ∈ l)) as [Hin|Hnin].
        -- by rewrite decide_True by (apply elem_of_app; by left).
        -- rewrite decide_False; [done|].
           intros [?|?%list_elem_of_singleton]%elem_of_app; done.
    + intros q d. rewrite Hr, IHr, elem_of_app, list_elem_of_singleton.
      naive_solver.
Qed.

(** [buildGraph] leaves the two indices symmetric; the forward index
    has exactly the given paths, each with the dependencies that its
    analysis returns, and a file is a dependent of [d] exactly when it
    is one of the paths and its analysis lists [d]. *)
Theorem buildGraph_symmetric analysis g controllerPaths :
  let g' := buildGraph analysis g controllerPaths in
  symmetric g'
  ∧ (∀ q, dependencyGraph g' !! q
          = if decide (q ∈ controllerPaths)
            then Some (list_to_set (dependenciesOf analysis q)) else None)
  ∧ (∀ q d, q ∈ default ∅ (reverseDependencyGraph g' !! d)
            ↔ q ∈ controllerPaths ∧ d ∈ dependenciesOf analysis q).
Proof.
  intros g'. destruct (buildGraph_lookup analysis g controllerPaths) as [Hf Hr].
  split; [|by split]. intros q d. fold g' in Hf, Hr. rewrite Hr, Hf.
  case_decide; simpl; [rewrite elem_of_list_to_set|]; set_solver.
Qed.

(** After [updateDependency] on a symmetric graph the file has the new
    dependencies, it is a dependent of exactly those, and the
    dependents that are other files are as before. *)
Theorem updateDependency_lookup a g filePath :
  symmetric g →
  let g' := updateDependency a g filePath in
  let deps := match a with Some a => an_dependencies a | None => [] end in
  (∀ d, d ∈ getDependencies g' filePath ↔ d ∈ deps)
  ∧ (∀ d, normalize filePath ∈ getDependents g' d ↔ normalize d ∈ deps)
  ∧ (∀ q d, q ≠ normalize filePath →
       q ∈ getDependents g' d ↔ q ∈ getDependents g d).
Proof.
  intros Hsym g' deps.
  pose proof (updateDependency_symmetric normalize a g filePath Hsym) as Hsym'.
  fold g' in Hsym'.
  assert (Hfwd : ∀ q, dependencyGraph g' !! q
                      = if decide (q = normalize filePath)
                        then Some (list_to_set deps) else dependencyGraph g !! q).
  { intros q. subst g' deps. unfold DependencyTracker.updateDependency.
    set (rev1 := match dependencyGraph g !! normalize filePath with
                 | Some oldDeps => _ | None => _ end).
    destruct (analyzeDependencies_graphs a
                (mk (dependencyGraph g) rev1 (inheritanceGraph g))) as (Hd & Hf & _).
    destruct (analyzeDependencies a (mk (dependencyGraph g) rev1 (inheritanceGraph g)))
      as [newDeps g1]. simpl in *. subst newDeps. rewrite Hf.
    case_decide as Hq.
    - subst q. by rewrite lookup_insert_eq.
    - by rewrite lookup_insert_ne. }
  assert (Hdependents : ∀ q d, q ∈ getDependents g' d
                               ↔ normalize d ∈ default ∅ (dependencyGraph g' !! q)).
  { intros q d. rewrite <- (Hsym' q (normalize d)).
    unfold DependencyTracker.getDependents.
    destruct (reverseDependencyGraph g' !! normalize d); simpl.
    - apply elem_of_elements.
    - by rewrite elem_of_nil, elem_of_empty. }
  split; [|split].
  - intros d. unfold DependencyTracker.getDependencies.
    rewrite Hfwd, decide_True by done.
    by rewrite elem_of_elements, elem_of_list_to_set.
  - intros d. rewrite Hdependents, Hfwd, decide_True by done. simpl.
    apply elem_of_list_to_set.
  - intros q d Hq. rewrite Hdependents, Hfwd, decide_False by done.
    rewrite <- (Hsym q (normalize d)). unfold DependencyTracker.getDependents.
    destruct (reverseDependencyGraph g !! normalize d); simpl.
    + by rewrite elem_of_elements.
    + by rewrite elem_of_nil, elem_of_empty.
Qed.

(** After [removeDependency] on a symmetric graph the file has no
    dependencies and no dependents, it is a dependent of nothing, and
    the other dependents of the other files are as before. *)
Theorem removeDependency_lookup g filePath :
  symmetric g →
  let g' := removeDependency g filePath in
  getDependencies g' filePath = []
  ∧ getDependents g' filePath = []
  ∧ (∀ d, normalize filePath ∉ getDependents g' d)
  ∧ (∀ q d, q ≠ normalize filePath → normalize d ≠ normalize filePath →
       q ∈ getDependents g' d ↔ q ∈ getDependents g d).
Proof.
  intros Hsym g'.
  assert (Hfwd : dependencyGraph g' !! normalize filePath = None)
    by (subst g'; unfold DependencyTracker.removeDependency; simpl;
        apply lookup_delete_eq).
  assert (Hrev : reverseDependencyGraph g' !! normalize filePath = None)
    by apply removeDependency_reverse_eq.
  assert (Hmem : ∀ (h : t) q d,
            q ∈ DependencyTracker.getDependents normalize h d
            ↔ q ∈ default ∅ (reverseDependencyGraph h !! normalize d)).
  { intros h q d. unfold DependencyTracker.getDependents.
    destruct (reverseDependencyGraph h !! normalize d); simpl.
    - apply elem_of_elements.
    - by rewrite elem_of_nil, elem_of_empty. }
  split; [|split; [|split]].
  - unfold DependencyTracker.getDependencies. by rewrite Hfwd.
  - unfold DependencyTracker.getDependents. by rewrite Hrev.
  - intros d. rewrite Hmem. destruct (decide (normalize d = normalize filePath)) as [->|Hd].
    + rewrite Hrev. apply not_elem_of_empty.
    + subst g'. rewrite (removeDependency_symmetric_ne normalize g filePath _ _ Hsym Hd).
      fold (removeDependency g filePath). rewrite Hfwd. apply not_elem_of_empty.
  - intros q d Hq Hd. rewrite !Hmem. subst g'.
    rewrite (removeDependency_symmetric_ne normalize g filePath _ _ Hsym Hd).
    rewrite removeDependency_forward_ne by done. symmetry. apply Hsym.
Qed.

(** Nothing deletes an inheritance entry. A file that is removed from
    the graph, or that is analyzed again and no longer extends
    anything, is still returned by [getAffectedFiles] for what it once
    extended. *)
Theorem inheritance_entries_are_never_dropped g inheritor base :
  inheritor_edge g (normalize base) inheritor →
  inheritor ∈ getAffectedFiles (removeDependency g inheritor) base
  ∧ ∀ a filePath, an_inheritanceChain a = ∅ →
      inheritor ∈ getAffectedFiles (updateDependency (Some a) g filePath) base.
Proof.
  intros Hedge. split.
  - apply elem_of_getAffectedFiles, tc_once. right. exact Hedge.
  - intros a filePath Hchain. apply elem_of_getAffectedFiles, tc_once. right.
    unfold DependencyTracker.updateDependency. simpl.
    rewrite Hchain, size_empty. rewrite decide_False by lia. exact Hedge.
Qed.

(** *** The inheritance chain *)

Lemma elem_of_parents g x y : y ∈ parents g x ↔ parent g x y.
Proof.
  unfold parents, parent. destruct (inheritanceGraph g !! x) as [inherited|].
  - rewrite elem_of_elements. split; [eauto|]. by intros (? & [= <-] & ?).
  - rewrite elem_of_nil. split; [done|]. by intros (? & ? & _).
Qed.

Lemma parents_universe g s x y : y ∈ parents g x → y ∈ ancestors_universe g s.
Proof.
  intros (inherited & Hx & Hy)%elem_of_parents. unfold ancestors_universe.
  apply elem_of_union_r, elem_of_union_list. exists inherited. split; [|done].
  apply list_elem_of_fmap. exists (x, inherited). split; [done|].
  by apply elem_of_map_to_list.
Qed.

Lemma length_parents g s x : length (parents g x) ≤ size (ancestors_universe g s).
Proof.
  apply NoDup_length_le_size.
  - unfold parents. destruct (inheritanceGraph g !! x);
      [apply NoDup_elements|constructor].
  - intros y. apply parents_universe.
Qed.

Lemma chain_loop_terminates g s fuel queue visited chain :
  (∀ x, x ∈ queue → x ∈ ancestors_universe g s) →
  visited ⊆ ancestors_universe g s →
  length queue
    + size (ancestors_universe g s ∖ visited) * (size (ancestors_universe g s) + 1)
    < fuel →
  is_Some (chain_loop g fuel queue visited chain).
Proof.
  revert queue visited chain.
  induction fuel as [|fuel IH]; intros queue visited chain Hq Hv Hfuel; [lia|].
  destruct queue as [|current queue]; simpl; [by eauto|].
  destruct (decide (current ∈ visited)) as [Hin|Hnin].
  - apply IH; [|done|simpl in Hfuel; lia]. intros x Hx. apply Hq. by right.
  - assert (Hc : current ∈ ancestors_universe g s) by (apply Hq; by left).
    pose proof (length_parents g s current) as Hlen. fold (parents g current).
    assert (Hsz : size (ancestors_universe g s ∖ visited)
                  = S (size (ancestors_universe g s ∖ ({[current]} ∪ visited)))).
    { replace (ancestors_universe g s ∖ visited)
        with ({[current]} ∪ ancestors_universe g s ∖ ({[current]} ∪ visited)).
      - rewrite size_union; [|set_solver]. by rewrite size_singleton.
      - apply set_eq. intros x. rewrite elem_of_union, !elem_of_difference,
          elem_of_union, elem_of_singleton.
        destruct (decide (x = current)); naive_solver. }
    apply IH.
    + intros x [Hx|Hx]%elem_of_app; [apply Hq; by right|by eapply parents_universe].
    + set_solver.
    + rewrite length_app. simpl in Hfuel. rewrite Hsz in Hfuel. lia.
Qed.

Lemma chain_loop_inv g s fuel queue visited chain result :
  chain_loop g fuel queue visited chain = Some result →
  chain_inv g s queue visited chain →
  ∃ visited', chain_inv g s [] visited' result.
Proof.
  revert queue visited chain.
  induction fuel as [|fuel IH]; intros queue visited chain; simpl; [done|].
  destruct queue as [|current queue].
  - intros [= <-] Hinv. eauto.
  - fold (parents g current).
    destruct (decide (current ∈ visited)) as [Hin|Hnin];
      intros Hrun (Hq & Hv & Hc & Hs & Hcl); eapply IH; try done.
    + split; [|split; [|split; [|split]]]; try done.
      * intros x Hx. apply Hq. by right.
      * destruct Hs as [?|[->|?]%elem_of_cons]; auto.
      * intros x y Hx Hxy.
        destruct (Hcl x y Hx Hxy) as [? [?|[->|?]%elem_of_cons]]; auto.
    + assert (Hcur : rtc (parent g) s current) by (apply Hq; by left).
      assert (Hstep : ∀ y, y ∈ parents g current → tc (parent g) s y).
      { intros y Hy%elem_of_parents. eapply tc_rtc_l; [done|]. by apply tc_once. }
      split; [|split; [|split; [|split]]].
      * intros x [Hx|Hx]%elem_of_app; [apply Hq; by right|by apply tc_rtc, Hstep].
      * intros x [->%elem_of_singleton|Hx]%elem_of_union; auto.
      * intros y [Hy|Hy]%elem_of_app; auto.
      * destruct Hs as [?|[->|?]%elem_of_cons].
        -- left. set_solver.
        -- left. set_solver.
        -- right. rewrite elem_of_app. auto.
      * intros x y [->%elem_of_singleton|Hx]%elem_of_union Hxy.
        -- apply elem_of_parents in Hxy. rewrite !elem_of_app. auto.
        -- destruct (Hcl x y Hx Hxy) as [Hyc Hyv]. rewrite !elem_of_app.
           split; [auto|]. destruct Hyv as [?|[->|?]%elem_of_cons].
           ++ left. set_solver.
           ++ left. set_solver.
           ++ right. auto.
Qed.

(** [getInheritanceChain] terminates on every inheritance map, cyclic
    or not, and lists exactly the files reached from the file by one
    or more extends-or-implements steps. *)
Theorem getInheritanceChain_spec g filePath (extra : nat) :
  let start := normalize filePath in
  ∃ chain,
    chain_loop g (chain_fuel g start + extra) [start] ∅ [] = Some chain
    ∧ (∀ x, x ∈ chain ↔ tc (parent g) start x)
    ∧ (∀ x, x ∈ getInheritanceChain g filePath ↔ tc (parent g) start x).
Proof.
  intros start.
  assert (Hrun : ∀ k, ∃ chain,
            chain_loop g (chain_fuel g start + k) [start] ∅ [] = Some chain
            ∧ (∀ x, x ∈ chain ↔ tc (parent g) start x)).
  { intros k.
    destruct (chain_loop_terminates g start (chain_fuel g start + k) [start] ∅ [])
      as [chain Hchain].
    - intros x ->%list_elem_of_singleton. unfold ancestors_universe. set_solver.
    - set_solver.
    - unfold chain_fuel. simpl.
      pose proof (subseteq_size (ancestors_universe g start ∖ ∅)
                    (ancestors_universe g start)) as Hle.
      assert (size (ancestors_universe g start ∖ ∅)
              ≤ size (ancestors_universe g start)) by (apply Hle; set_solver).
      nia.
    - exists chain. split; [done|].
      destruct (chain_loop_inv g start _ _ _ _ _ Hchain)
        as (visited & _ & Hv & Hc & Hs & Hcl).
      { split; [|split; [|split; [|split]]].
        - by intros x ->%list_elem_of_singleton.
        - by intros x ?%not_elem_of_empty.
        - by intros x ?%elem_of_nil.
        - right. by left.
        - by intros x y ?%not_elem_of_empty. }
      assert (Hreach : ∀ x, rtc (parent g) start x → x ∈ visited).
      { apply rtc_ind_r.
        - destruct Hs as [?|?%elem_of_nil]; done.
        - intros x y _ Hxy IHx.
          destruct (Hcl x y IHx Hxy) as [_ [?|?%elem_of_nil]]; done. }
      intros x. split; [auto|].
      intros (w & Hw & Hwx)%tc_last_step. by apply (Hcl w x); [apply Hreach|]. }
  destruct (Hrun extra) as (chain & Hchain & Hspec).
  exists chain. split; [done|]. split; [done|].
  destruct (Hrun 0) as (chain0 & Hchain0 & Hspec0).
  unfold DependencyTracker.getInheritanceChain. fold start.
  rewrite Nat.add_0_r in Hchain0. rewrite Hchain0. exact Hspec0.
Qed.

(** With an idempotent [path.normalize], the report of
    [getDependencyInfo] is about the normalized path, every dependent
    it lists is also among the transitively affected files it lists,
    and the dependencies it lists are the forward set of the path,
    none when the path has no entry. *)
Theorem getDependencyInfo_dependents_affected g filePath :
  (∀ p, normalize (normalize p) = normalize p) →
  let info := getDependencyInfo g filePath in
  di_filePath info = normalize filePath
  ∧ (∀ q, q ∈ di_dependents info → q ∈ di_transitiveAffected info)
  ∧ (∀ d, d ∈ di_dependencies info
          ↔ d ∈ default ∅ (dependencyGraph g !! normalize filePath)).
Proof.
  intros Hidem info. split; [done|]. split.
  - intros q Hq. subst info. simpl in *.
    apply elem_of_elements, elem_of_getAffectedFiles, tc_once. left.
    apply elem_of_getDependents. by rewrite !Hidem in *.
  - intros d. subst info. simpl. unfold DependencyTracker.getDependencies.
    rewrite Hidem. destruct (dependencyGraph g !! normalize filePath); simpl.
    + apply elem_of_elements.
    + by rewrite elem_of_nil, elem_of_empty.
Qed.

(** *** Imports *)

Variable dirname : string → string.
Variable resolve : string → string → string.
Variable join : string → string → string.

Local Abbreviation resolveImportPath :=
  (DependencyTracker.resolveImportPath normalize dirname resolve join).
Local Abbreviation analyzeSourceFile :=
  (DependencyTracker.analyzeSourceFile normalize dirname resolve join).
Local Abbreviation local := (DependencyTracker.local normalize).

Lemma existsSync_true tree q : existsSync tree q = true ↔ is_Some (tree !! q).
Proof. unfold existsSync. by rewrite bool_decide_eq_true. Qed.

(** [resolveImportPath] returns the path itself when it is a file, and
    otherwise the first of the four extensions that exists, and
    otherwise the index file of a directory. What it returns is the
    normalized form of a path that exists; it returns nothing exactly
    when none of these candidates is there. *)
Theorem resolveImportPath_candidates tree sourcePath moduleSpecifier :
  let resolved := resolve (dirname sourcePath) moduleSpecifier in
  let result := resolveImportPath tree sourcePath moduleSpecifier in
  (isFile tree resolved = true → result = Some (normalize resolved))
  ∧ (∀ r, result = Some r →
       ∃ q, r = normalize q ∧ is_Some (tree !! q)
            ∧ (q = resolved ∨ (∃ ext, ext ∈ extensions ∧ q = resolved +:+ ext)
               ∨ q = join resolved "index.ts"))
  ∧ (result = None
     ↔ isFile tree resolved = false
       ∧ (∀ ext, ext ∈ extensions → tree !! (resolved +:+ ext) = None)
       ∧ (isDirectory tree resolved = true →
          tree !! join resolved "index.ts" = None)).
Proof.
  intros resolved result. subst result.
  unfold DependencyTracker.resolveImportPath. fold resolved.
  assert (Hfile : isFile tree resolved = true → existsSync tree resolved = true).
  { unfold isFile. intros Hf. apply existsSync_true.
    destruct (tree !! resolved); [eauto|done]. }
  assert (Hdir : isDirectory tree resolved = true → existsSync tree resolved = true).
  { unfold isDirectory. intros Hf. apply existsSync_true.
    destruct (tree !! resolved); [eauto|done]. }
  assert (Hnone : ∀ q, existsSync tree q = false ↔ tree !! q = None).
  { intros q. unfold existsSync. rewrite bool_decide_eq_false.
    rewrite <- eq_None_not_Some. done. }
  destruct (isFile tree resolved) eqn:Hf.
  - rewrite (Hfile eq_refl). simpl. split; [done|]. split.
    + intros r [= <-]. exists resolved. split; [done|]. split; [|by left].
      by apply existsSync_true, Hfile.
    + split; [done|]. by intros [? _].
  - rewrite andb_false_r. split; [done|].
    destruct (find (λ ext, existsSync tree (resolved +:+ ext)) extensions)
      as [ext|] eqn:Hfind.
    + apply find_some in Hfind as [Hin Hex]. apply list_elem_of_In in Hin.
      split.
      * intros r [= <-]. exists (resolved +:+ ext). split; [done|].
        split; [by apply existsSync_true|]. right. left. eauto.
      * split; [done|]. intros (_ & Hall & _).
        apply existsSync_true in Hex. rewrite (Hall ext Hin) in Hex.
        by destruct Hex.
    + assert (Hall : ∀ ext, ext ∈ extensions → tree !! (resolved +:+ ext) = None).
      { intros ext Hin%list_elem_of_In. apply Hnone.
        by apply (find_none _ _ Hfind). }
      destruct (isDirectory tree resolved) eqn:Hd.
      * rewrite (Hdir eq_refl). simpl.
        destruct (existsSync tree (join resolved "index.ts")) eqn:Hidx.
        -- split.
           ++ intros r [= <-]. exists (join resolved "index.ts").
              split; [done|]. split; [by apply existsSync_true|]. by right; right.
           ++ split; [done|]. intros (_ & _ & Hno).
              apply existsSync_true in Hidx. rewrite (Hno eq_refl) in Hidx.
              by destruct Hidx.
        -- split; [done|]. split; [|done]. intros _.
           split; [done|]. split; [done|]. intros _. by apply Hnone.
      * rewrite andb_false_r. split; [done|]. split; [|done]. intros _.
        split; [done|]. split; [done|]. done.
Qed.

Lemma distinct_foldl (l acc : list string) :
  let r := foldl (λ acc x, if decide (x ∈ acc) then acc else acc ++ [x]) acc l in
  (∀ x, x ∈ r ↔ x ∈ acc ∨ x ∈ l) ∧ (NoDup acc → NoDup r).
Proof.
  revert acc. induction l as [|y l IH]; intros acc; simpl.
  - split; [|done]. intros x. rewrite elem_of_nil. tauto.
  - destruct (IH (if decide (y ∈ acc) then acc else acc ++ [y])) as [IHin IHnd].
    split.
    + intros x. rewrite IHin, elem_of_cons. case_decide.
      * split; [tauto|]. intros [?|[->|?]]; auto.
      * rewrite elem_of_app, list_elem_of_singleton. tauto.
    + intros Hnd. apply IHnd. case_decide; [done|].
      apply NoDup_app. split; [done|]. split; [|apply NoDup_singleton].
      intros x Hx ->%list_elem_of_singleton. done.
Qed.

Lemma elem_of_distinct l x : x ∈ distinct l ↔ x ∈ l.
Proof.
  unfold distinct. destruct (distinct_foldl l []) as [Hin _].
  rewrite Hin, elem_of_nil. tauto.
Qed.

Lemma elem_of_local declarations d :
  d ∈ local declarations
  ↔ ∃ declPath, declPath ∈ declarations
                ∧ includes "node_modules" declPath = false
                ∧ d = normalize declPath.
Proof.
  unfold DependencyTracker.local. rewrite list_elem_of_fmap. split.
  - intros (declPath & -> & [Hn Hin]%list_elem_of_filter). eauto.
  - intros (declPath & Hin & Hn & ->). exists declPath. split; [done|].
    by apply list_elem_of_filter.
Qed.

(** The dependency array of a source file has no duplicates; it holds
    the resolved relative and absolute imports that are not the empty
    path, never a package import, and the local files that declare referenced types and
    inherited classes or interfaces, never one under [node_modules];
    the inheritance chain is part of it. *)
Theorem analyzeSourceFile_dependencies tree sf :
  let a := analyzeSourceFile tree sf in
  NoDup (an_dependencies a)
  ∧ (∀ d, d ∈ an_dependencies a
          ↔ (∃ moduleSpecifier,
               moduleSpecifier ∈ sf_imports sf
               ∧ (startsWith "." moduleSpecifier = true
                  ∨ startsWith "/" moduleSpecifier = true)
               ∧ resolveImportPath tree (sf_filePath sf) moduleSpecifier = Some d
               ∧ d ≠ EmptyString)
            ∨ d ∈ local (sf_typeReferences sf)
            ∨ d ∈ local (sf_inheritance sf))
  ∧ (∀ d, d ∈ an_inheritanceChain a ↔ d ∈ local (sf_inheritance sf))
  ∧ (∀ d, d ∈ an_inheritanceChain a → d ∈ an_dependencies a).
Proof.
  intros a.
  assert (Hdeps : ∀ d, d ∈ an_dependencies a
          ↔ (∃ moduleSpecifier,
               moduleSpecifier ∈ sf_imports sf
               ∧ (startsWith "." moduleSpecifier = true
                  ∨ startsWith "/" moduleSpecifier = true)
               ∧ resolveImportPath tree (sf_filePath sf) moduleSpecifier = Some d
               ∧ d ≠ EmptyString)
            ∨ d ∈ local (sf_typeReferences sf)
            ∨ d ∈ local (sf_inheritance sf)).
  { intros d. subst a. unfold DependencyTracker.analyzeSourceFile. simpl.
    rewrite elem_of_distinct, !elem_of_app, list_elem_of_omap.
    apply or_iff_compat_r. split.
    - intros (spec & Hin & Hres). exists spec. split; [done|].
      assert (Hfound : resolveImportPath tree (sf_filePath sf) spec = Some d
                       ∧ d ≠ EmptyString).
      { destruct (startsWith "." spec), (startsWith "/" spec); simpl in Hres;
          try done;
          destruct (resolveImportPath tree (sf_filePath sf) spec) as [r|];
          try done; case_decide; try done; by injection Hres as <-. }
      split; [|done].
      destruct (startsWith "." spec), (startsWith "/" spec); simpl in Hres; auto.
      done.
    - intros (spec & Hin & Hstart & Hres & Hne). exists spec. split; [done|].
      rewrite Hres, decide_False by done.
      destruct (startsWith "." spec), (startsWith "/" spec); simpl; try done.
      by destruct Hstart. }
  assert (Hchain : ∀ d, d ∈ an_inheritanceChain a ↔ d ∈ local (sf_inheritance sf)).
  { intros d. subst a. unfold DependencyTracker.analyzeSourceFile. simpl.
    apply elem_of_list_to_set. }
  split; [|split; [done|split; [done|]]].
  - subst a. unfold DependencyTracker.analyzeSourceFile. simpl.
    unfold distinct. by apply distinct_foldl, NoDup_nil.
  - intros d Hd. apply Hdeps. right. right. by apply Hchain.
Qed.

End tracker_more.

(** ** More of the cache store *)

Section cache_more.

Import CacheManager.

Context {ControllerInfo : Type}.
Variable digest : HashAlgorithm → string → string.
Variable byteSize : FileContent (ControllerInfo := ControllerInfo) → Z.

Local Abbreviation calculateTsConfigHash := (CacheManager.calculateTsConfigHash digest).
Local Abbreviation getStats := (CacheManager.getStats byteSize).

Implicit Types m : CacheManager.t (ControllerInfo := ControllerInfo).
Implicit Types disk : gmap string (FileContent (ControllerInfo := ControllerInfo)).
Implicit Types fs : gmap string string.

(** *** Removing a record *)

Lemma removeController_dependencies m filePath key deps :
  dependencies (metadata (removeController m filePath)) !! key = Some deps
  ↔ key ≠ filePath ∧ deps ≠ ∅
    ∧ ∃ deps0, dependencies (metadata m) !! key = Some deps0
               ∧ deps = deps0 ∖ {[filePath]}.
Proof.
  unfold removeController. simpl. rewrite lookup_omap_Some. split.
  - intros (deps0 & Hf & [Hne Hl]%lookup_delete_Some).
    case_decide as Hs; [done|]. injection Hf as <-.
    split; [done|]. split; [|eauto].
    intros He. apply Hs. rewrite He. apply size_empty.
  - intros (Hne & Hnon & deps0 & Hl & ->). exists deps0. split.
    + rewrite decide_False; [done|].
      intros Hs%size_empty_inv. apply Hnon. by apply leibniz_equiv.
    + by apply lookup_delete_Some.
Qed.

Lemma getController_removeController m filePath other :
  getController (removeController m filePath) other
  = if decide (other = filePath) then None else getController m other.
Proof.
  unfold getController, removeController. simpl. case_decide as He.
  - subst other. apply lookup_delete_eq.
  - by apply lookup_delete_ne.
Qed.

(** [removeController] purges the path: its record is gone and no
    other record moves; no dependency set is kept under the path, none
    mentions it, and none is left empty; nothing depends on the path
    any more, and between other files the dependents are as before. *)
Theorem removeController_purges m filePath :
  let m' := removeController m filePath in
  getController m' filePath = None
  ∧ (∀ other, other ≠ filePath → getController m' other = getController m other)
  ∧ (∀ key deps, dependencies (metadata m') !! key = Some deps →
       key ≠ filePath ∧ (filePath ∉ deps) ∧ deps ≠ ∅)
  ∧ getDependentControllers m' filePath = []
  ∧ (∀ controller dependency, controller ≠ filePath → dependency ≠ filePath →
       (controller ∈ getDependentControllers m' dependency
        ↔ controller ∈ getDependentControllers m dependency)).
Proof.
  intros m'. subst m'. split; [|split; [|split; [|split]]].
  - rewrite getController_removeController. by rewrite decide_True.
  - intros other Hne. rewrite getController_removeController.
    by rewrite decide_False.
  - intros key deps (Hne & Hnon & deps0 & _ & ->)%removeController_dependencies.
    split; [done|]. split; [set_solver|done].
  - apply elem_of_nil_inv. intros x.
    rewrite elem_of_getDependentControllers.
    intros (deps & (_ & _ & deps0 & _ & ->)%removeController_dependencies & Hin).
    set_solver.
  - intros controller dependency Hc Hd. rewrite !elem_of_getDependentControllers.
    split.
    + intros (deps & (_ & _ & deps0 & Hl & ->)%removeController_dependencies & Hin).
      exists deps0. split; [done|]. set_solver.
    + intros (deps0 & Hl & Hin). exists (deps0 ∖ {[filePath]}).
      split; [|set_solver]. apply removeController_dependencies.
      split; [done|]. split; [set_solver|eauto].
Qed.

(** *** Recording a dependency *)

Lemma addDependency_dependencies m controllerPath dependencyPath key :
  dependencies (metadata (addDependency m controllerPath dependencyPath)) !! key
  = if decide (key = controllerPath)
    then Some ({[dependencyPath]}
               ∪ default ∅ (dependencies (metadata m) !! controllerPath))
    else dependencies (metadata m) !! key.
Proof.
  unfold addDependency. simpl.
  destruct (dependencies (metadata m) !! controllerPath) as [s|] eqn:Hl.
  - rewrite Hl. case_decide as Hk.
    + subst key. by rewrite lookup_insert_eq.
    + by rewrite lookup_insert_ne.
  - rewrite lookup_insert_eq. case_decide as Hk.
    + subst key. by rewrite lookup_insert_eq.
    + by rewrite !lookup_insert_ne.
Qed.

Lemma NoDup_getDependentControllers m filePath :
  NoDup (getDependentControllers m filePath).
Proof.
  unfold getDependentControllers.
  eapply sublist_NoDup; [|apply fmap_sublist, sublist_filter].
  apply NoDup_fst_map_to_list.
Qed.

(** [addDependency] adds the one pair and nothing else: afterwards a
    controller depends on a file exactly when it did before or the
    pair is the new one; records are not touched, adding the pair a
    second time changes nothing, and [getDependentControllers] lists
    every dependent once. *)
Theorem addDependency_adds_one_pair m controllerPath dependencyPath :
  let m' := addDependency m controllerPath dependencyPath in
  (∀ controller dependency,
     controller ∈ getDependentControllers m' dependency
     ↔ controller ∈ getDependentControllers m dependency
       ∨ (controller = controllerPath ∧ dependency = dependencyPath))
  ∧ (∀ filePath, getController m' filePath = getController m filePath)
  ∧ addDependency m' controllerPath dependencyPath = m'
  ∧ (∀ dependency, NoDup (getDependentControllers m' dependency)).
Proof.
  intros m'. split; [|split; [done|split]].
  - intros controller dependency. rewrite !elem_of_getDependentControllers.
    subst m'. setoid_rewrite addDependency_dependencies. split.
    + intros (deps & Hl & Hin). case_decide as Hk.
      * subst controller. injection Hl as <-.
        apply elem_of_union in Hin as [->%elem_of_singleton|Hin]; [by right|].
        left. destruct (dependencies (metadata m) !! controllerPath) as [s|];
          [by exists s|set_solver].
      * left. eauto.
    + intros [(deps & Hl & Hin)|[-> ->]].
      * case_decide as Hk.
        -- subst controller. eexists. split; [done|]. rewrite Hl. set_solver.
        -- eauto.
      * rewrite decide_True by done. eexists. split; [done|]. set_solver.
  - assert (Hdeps : dependencies (metadata (addDependency m' controllerPath dependencyPath))
                    = dependencies (metadata m')).
    { apply map_eq. intros key. subst m'. rewrite !addDependency_dependencies.
      case_decide; [|done]. rewrite decide_True by done. simpl. f_equal. set_solver. }
    transitivity (set_metadata m'
      (mkMetadata (version (metadata m')) (timestamp (metadata m'))
         (tsConfigHash (metadata m')) (controllers (metadata m'))
         (dependencies (metadata (addDependency m' controllerPath dependencyPath)))));
      [done|].
    rewrite Hdeps. by destruct m' as [? ? ? ? [] ?].
  - intros dependency. apply NoDup_getDependentControllers.
Qed.

(** *** The fingerprint of tsconfig.json *)

Lemma hasTsConfigChanged_false m currentHash :
  hasTsConfigChanged m currentHash = false
  ↔ tsConfigHash (metadata m) = Some currentHash ∧ currentHash ≠ EmptyString.
Proof.
  unfold hasTsConfigChanged. destruct (tsConfigHash (metadata m)) as [stored|].
  - case_decide as He.
    + split; [done|]. intros [[= ->] ?]. done.
    + rewrite bool_decide_eq_false. split.
      * intros Hn%dec_stable. by subst.
      * intros [[= ->] _]. auto.
  - split; [done|]. by intros [? _].
Qed.

(** A stored tsconfig fingerprint is recognised only when it is not
    the empty string: after [setTsConfigHash(hash)] the check answers
    "unchanged" exactly for [hash] itself and a non-empty [hash]. The
    fingerprint of a tsconfig.json that cannot be read is the empty
    string, so storing it makes every later check answer "changed", as
    on a manager that never stored one. Records are not touched. *)
Theorem hasTsConfigChanged_after_set fs m hash currentHash tsConfigPath :
  (hasTsConfigChanged (setTsConfigHash m hash) currentHash = false
   ↔ currentHash = hash ∧ hash ≠ EmptyString)
  ∧ (fs !! tsConfigPath = None →
     hasTsConfigChanged
       (setTsConfigHash m (calculateTsConfigHash fs m tsConfigPath)) currentHash
     = true)
  ∧ (∀ defaultPath now options,
       hasTsConfigChanged
         (new (ControllerInfo := ControllerInfo) defaultPath now options) currentHash
       = true)
  ∧ (∀ filePath, getController (setTsConfigHash m hash) filePath
                 = getController m filePath).
Proof.
  split; [|split; [|done]].
  - rewrite hasTsConfigChanged_false. simpl. split.
    + by intros [[= ->] ?].
    + by intros [-> ?].
  - intros Hnone. unfold CacheManager.calculateTsConfigHash, calculateHash,
      calculateFileHash. by rewrite Hnone.
Qed.

(** *** Dropping the records of files that are gone *)

Lemma cleanup_foldl fs l n m :
  NoDup l →
  (∀ p, p ∈ l → is_Some (getController m p)) →
  let r := foldl (λ (acc : nat * CacheManager.t (ControllerInfo := ControllerInfo))
                    filePath,
                    if decide (is_Some (fs !! filePath)) then acc
                    else (S acc.1, removeController acc.2 filePath))
                 (n, m) l in
  (∀ p, getController r.2 p
        = if decide (p ∈ l ∧ fs !! p = None) then None else getController m p)
  ∧ size (controllers (metadata r.2)) + r.1 = size (controllers (metadata m)) + n
  ∧ (∀ key deps d, dependencies (metadata r.2) !! key = Some deps → d ∈ deps →
       (∃ deps0, dependencies (metadata m) !! key = Some deps0 ∧ d ∈ deps0)
       ∧ ¬ (d ∈ l ∧ fs !! d = None)
       ∧ ¬ (key ∈ l ∧ fs !! key = None))
  ∧ hashCollisions r.2 = hashCollisions m
  ∧ config r.2 = config m
  ∧ tsConfigHash (metadata r.2) = tsConfigHash (metadata m).
Proof.
  revert n m. induction l as [|p l IH]; intros n m Hnd Hkeys r.
  - subst r. cbn [foldl fst snd]. split; [|split; [done|split; [|done]]].
    + intros p. rewrite decide_False; [done|]. by intros [?%elem_of_nil _].
    + intros key deps d Hl Hin. split; [eauto|].
      split; by intros [?%elem_of_nil _].
  - apply NoDup_cons in Hnd as [Hp Hnd]. subst r. cbn [foldl fst snd].
    destruct (decide (is_Some (fs !! p))) as [Hex|Hmiss]; cbn [fst snd].
    + destruct (IH n m Hnd) as (Hc & Hsz & Hd & Hcol).
      { intros q Hq. apply Hkeys. by right. }
      split; [|split; [done|split; [|done]]].
      * intros q. rewrite Hc. destruct (decide (q ∈ l ∧ fs !! q = None)) as [[]|Hn].
        -- rewrite decide_True; [done|]. split; [by right|done].
        -- rewrite decide_False; [done|].
           intros [[->|?]%elem_of_cons Hq]; [|by apply Hn].
           rewrite Hq in Hex. by destruct Hex.
      * intros key deps d Hl Hin. destruct (Hd key deps d Hl Hin) as (H0 & Hnd' & Hnk).
        split; [done|]. split.
        -- intros [[->|?]%elem_of_cons Hq]; [|by apply Hnd'].
           rewrite Hq in Hex. by destruct Hex.
        -- intros [[->|?]%elem_of_cons Hq]; [|by apply Hnk].
           rewrite Hq in Hex. by destruct Hex.
    + apply eq_None_not_Some in Hmiss.
      assert (Hother : ∀ other, other ≠ p →
                getController (removeController m p) other = getController m other).
      { intros other Hne. rewrite getController_removeController.
        by rewrite decide_False. }
      destruct (IH (S n) (removeController m p) Hnd) as (Hc & Hsz & Hd & Hcol).
      { intros q Hq. rewrite Hother; [apply Hkeys; by right|]. by intros ->. }
      split; [|split; [|split; [|done]]].
      * intros q. rewrite Hc. destruct (decide (q ∈ l ∧ fs !! q = None)) as [[]|Hn].
        -- rewrite decide_True; [done|]. split; [by right|done].
        -- destruct (decide (q = p)) as [->|Hqp].
           ++ rewrite decide_True by (split; [by left|done]).
              rewrite getController_removeController. by rewrite decide_True.
           ++ rewrite Hother by done. rewrite decide_False; [done|].
              intros [[->|?]%elem_of_cons Hq]; [done|by apply Hn].
      * rewrite Hsz. unfold removeController. simpl.
        destruct (Hkeys p) as [c Hcp]; [by left|].
        unfold getController in Hcp.
        pose proof (map_size_delete_Some p (controllers (metadata m))) as Hdel.
        rewrite Hdel by eauto.
        assert (0 < size (controllers (metadata m))); [|lia].
        apply Nat.neq_0_lt_0. intros Hz%map_size_empty_inv.
        rewrite Hz, lookup_empty in Hcp. done.
      * intros key deps d Hl Hin. destruct (Hd key deps d Hl Hin) as (H0 & Hnd' & Hnk).
        destruct H0 as (deps1 & Hl1 & Hin1).
        apply removeController_dependencies in Hl1 as (Hkp & _ & deps0 & Hl0 & ->).
        split; [exists deps0; split; [done|set_solver]|]. split.
        -- intros [[->|?]%elem_of_cons Hq]; [set_solver|by apply Hnd'].
        -- intros [[->|?]%elem_of_cons Hq]; [done|by apply Hnk].
Qed.

Lemma elem_of_controller_keys m p :
  p ∈ (map_to_list (controllers (metadata m))).*1 ↔ is_Some (getController m p).
Proof.
  unfold getController. rewrite list_elem_of_fmap. split.
  - intros ([q c] & -> & Hin%elem_of_map_to_list). eauto.
  - intros [c Hc]. exists (p, c). split; [done|]. by apply elem_of_map_to_list.
Qed.

Lemma cleanup_run fs m :
  let r := cleanup fs m in
  (∀ p, getController r.2 p
        = if decide (p ∈ (map_to_list (controllers (metadata m))).*1 ∧ fs !! p = None)
          then None else getController m p)
  ∧ size (controllers (metadata r.2)) + r.1 = size (controllers (metadata m)) + 0
  ∧ (∀ key deps d, dependencies (metadata r.2) !! key = Some deps → d ∈ deps →
       (∃ deps0, dependencies (metadata m) !! key = Some deps0 ∧ d ∈ deps0)
       ∧ ¬ (d ∈ (map_to_list (controllers (metadata m))).*1 ∧ fs !! d = None)
       ∧ ¬ (key ∈ (map_to_list (controllers (metadata m))).*1 ∧ fs !! key = None))
  ∧ hashCollisions r.2 = hashCollisions m
  ∧ config r.2 = config m
  ∧ tsConfigHash (metadata r.2) = tsConfigHash (metadata m).
Proof.
  apply cleanup_foldl; [apply NoDup_fst_map_to_list|].
  intros p. apply elem_of_controller_keys.
Qed.

Lemma getController_cleanup fs m p :
  getController (cleanup fs m).2 p
  = if decide (is_Some (fs !! p)) then getController m p else None.
Proof.
  destruct (cleanup_run fs m) as (Hc & _). rewrite Hc.
  destruct (decide (is_Some (fs !! p))) as [Hex|Hmiss].
  - rewrite decide_False; [done|]. intros [_ Hq]. rewrite Hq in Hex. by destruct Hex.
  - apply eq_None_not_Some in Hmiss.
    destruct (getController m p) as [c|] eqn:Hcp.
    + rewrite decide_True; [done|]. split; [|done].
      apply elem_of_controller_keys. rewrite Hcp. eauto.
    + by case_decide.
Qed.

Lemma cleanup_config fs m :
  config (cleanup fs m).2 = config m
  ∧ tsConfigHash (metadata (cleanup fs m).2) = tsConfigHash (metadata m).
Proof. by destruct (cleanup_run fs m) as (_ & _ & _ & _ & ? & ?). Qed.

(** [cleanup] removes exactly the records whose file is gone: a
    record stays if and only if its file exists, the returned number
    is the number of records removed, no surviving dependency set is
    new, is kept under a removed path or mentions one, and the
    collision counters stay. *)
Theorem cleanup_removes_exactly_missing fs m :
  let removed := (cleanup fs m).1 in
  let m' := (cleanup fs m).2 in
  (∀ p, getController m' p
        = if decide (is_Some (fs !! p)) then getController m p else None)
  ∧ size (controllers (metadata m')) + removed = size (controllers (metadata m))
  ∧ (∀ key deps d, dependencies (metadata m') !! key = Some deps → d ∈ deps →
       (∃ deps0, dependencies (metadata m) !! key = Some deps0 ∧ d ∈ deps0)
       ∧ (is_Some (getController m d) → is_Some (fs !! d))
       ∧ (is_Some (getController m key) → is_Some (fs !! key)))
  ∧ (∀ h, collisions m' h = collisions m h).
Proof.
  intros removed m'. subst removed m'.
  destruct (cleanup_run fs m) as (_ & Hsz & Hd & Hcol & _).
  split; [|split; [|split]].
  - intros p. apply getController_cleanup.
  - rewrite Hsz. lia.
  - intros key deps d Hl Hin. destruct (Hd key deps d Hl Hin) as (H0 & Hnd & Hnk).
    split; [done|]. split.
    + intros Hcached%elem_of_controller_keys.
      destruct (fs !! d) eqn:Hfs; [eauto|]. by destruct Hnd.
    + intros Hcached%elem_of_controller_keys.
      destruct (fs !! key) eqn:Hfs; [eauto|]. by destruct Hnk.
  - intros h. unfold collisions. by rewrite Hcol.
Qed.

(** *** Invalidation *)

(** [invalidate] forgets the store and the file: no record, no
    dependency and no tsconfig fingerprint is left, every file counts
    as changed, the cache file is gone so that the next [load] starts
    cold, and no other file is touched. The collision counters and the
    configuration survive. *)
Theorem invalidate_forgets (now later : Z) disk fs m :
  let m' := (invalidate now true disk m).1 in
  let disk' := (invalidate now true disk m).2 in
  (∀ filePath, getController m' filePath = None)
  ∧ (∀ filePath, getDependentControllers m' filePath = [])
  ∧ (∀ currentHash, hasTsConfigChanged m' currentHash = true)
  ∧ (∀ filePath currentHash,
       hasFileChanged fs m' filePath currentHash = (true, m', []))
  ∧ load later disk' m' = (false, m')
  ∧ (∀ path, path ≠ cacheFilePath m → disk' !! path = disk !! path)
  ∧ (∀ h, collisions m' h = collisions m h)
  ∧ (cacheFilePath m', enabled m', ttl m', hashAlgorithm m')
    = (cacheFilePath m, enabled m, ttl m, hashAlgorithm m).
Proof.
  intros m' disk'. subst m' disk'. unfold invalidate. simpl.
  split; [|split; [|split; [|split; [|split; [|split; [|split]]]]]]; try done.
  - apply load_unusable. left. simpl.
    destruct (disk !! cacheFilePath m) eqn:Hl; [apply lookup_delete_eq|done].
  - intros path Hne. destruct (disk !! cacheFilePath m); [|done].
    by rewrite lookup_delete_ne.
Qed.

(** *** When the file is taken *)

Lemma load_true_eq now disk m m' :
  load now disk m = (true, m') →
  ∃ parsed, disk !! cacheFilePath m = Some (Json parsed)
            ∧ s_version parsed = CACHE_VERSION
            ∧ (now - s_timestamp parsed ≤ ttl m)%Z
            ∧ m' = set_metadata m
                     (mkMetadata (s_version parsed) (s_timestamp parsed)
                        (s_tsConfigHash parsed) (s_controllers parsed)
                        (list_to_set <$> s_dependencies parsed)).
Proof.
  unfold load. destruct (enabled m); simpl; [|done].
  destruct (disk !! cacheFilePath m) as [[parsed|]|]; [|done|done].
  case_decide as Hv; [done|]. case_decide as Ht; [done|].
  intros [= <-]. exists parsed.
  split; [done|]. split; [done|]. split; [lia|done].
Qed.

Lemma load_false now disk m m' : load now disk m = (false, m') → m' = m.
Proof.
  unfold load. destruct (enabled m); simpl; [|by intros [= <-]].
  destruct (disk !! cacheFilePath m) as [[parsed|]|]; [|by intros [= <-]..].
  case_decide; [by intros [= <-]|]. case_decide; [by intros [= <-]|]. done.
Qed.

(** [load] succeeds exactly when the cache is enabled and the file is
    usable, an age equal to the time-to-live included. It then
    replaces the store by the file: the records, the dependencies, the
    tsconfig fingerprint and the timestamp are the ones of the file,
    and nothing of the previous store is merged in. The configuration
    and the collision counters stay. *)
Theorem load_replaces_store now disk m :
  ((load now disk m).1 = true ↔ enabled m = true ∧ ¬ unusable now disk m)
  ∧ ∀ m', load now disk m = (true, m') →
      ∃ parsed,
        disk !! cacheFilePath m = Some (Json parsed)
        ∧ (now - s_timestamp parsed ≤ ttl m)%Z
        ∧ (∀ filePath, getController m' filePath = s_controllers parsed !! filePath)
        ∧ (∀ controller dependency,
             controller ∈ getDependentControllers m' dependency
             ↔ ∃ deps, s_dependencies parsed !! controller = Some deps
                       ∧ dependency ∈ deps)
        ∧ tsConfigHash (metadata m') = s_tsConfigHash parsed
        ∧ timestamp (metadata m') = s_timestamp parsed
        ∧ (∀ h, collisions m' h = collisions m h)
        ∧ (cacheFilePath m', enabled m', ttl m', hashAlgorithm m')
          = (cacheFilePath m, enabled m, ttl m, hashAlgorithm m).
Proof.
  split.
  - unfold load, unusable. destruct (enabled m); simpl; [|by split; [|intros []]].
    destruct (disk !! cacheFilePath m) as [[parsed|]|]; simpl.
    + case_decide as Hv; simpl.
      * split; [done|]. intros [_ Hn]. destruct Hn. right. right. eauto.
      * case_decide as Ht; simpl.
        -- split; [done|]. intros [_ Hn]. destruct Hn. right. right. eauto.
        -- split; [|done]. intros _. split; [done|].
           intros [?|[?|(p & [= <-] & [?|?])]]; done.
    + split; [done|]. intros [_ Hn]. destruct Hn. by right; left.
    + split; [done|]. intros [_ Hn]. destruct Hn. by left.
  - intros m' Hload. unfold load in Hload.
    destruct (enabled m) eqn:Hen; simpl in Hload; [|done].
    destruct (disk !! cacheFilePath m) as [[parsed|]|]; [|done|done].
    case_decide as Hv; [done|]. case_decide as Ht; [done|].
    injection Hload as <-. exists parsed.
    split; [done|]. split; [lia|]. split; [done|]. split; [|repeat split; simpl; by rewrite Hen].
    intros controller dependency. rewrite elem_of_getDependentControllers. simpl.
    rewrite lookup_fmap. destruct (s_dependencies parsed !! controller) as [l|]; simpl.
    + split.
      * intros (deps & [= <-] & Hin). exists l. split; [done|].
        by apply elem_of_list_to_set in Hin.
      * intros (deps & [= <-] & Hin). eexists. split; [done|].
        by apply elem_of_list_to_set.
    + split; by intros (deps & ? & _).
Qed.

(** *** Statistics *)

Lemma foldl_add_sum (l : list nat) (a : nat) :
  foldl (λ sum count, sum + count) a l = a + sum_list l.
Proof.
  revert a. induction l as [|x l IH]; intros a; simpl; [lia|]. rewrite IH. lia.
Qed.

Lemma sum_list_insert (counts : gmap string nat) (h : string) (c : nat) :
  sum_list (map_to_list (<[h := c]> counts)).*2 + default 0 (counts !! h)
  = sum_list (map_to_list counts).*2 + c.
Proof.
  assert (Hins : ∀ (mp : gmap string nat) x, mp !! h = None →
            sum_list (map_to_list (<[h := x]> mp)).*2
            = x + sum_list (map_to_list mp).*2).
  { intros mp x Hnone. rewrite (map_to_list_insert mp h x Hnone). done. }
  destruct (counts !! h) as [old|] eqn:Hl; simpl.
  - rewrite <- (insert_delete_eq counts h c).
    rewrite <- (insert_delete_id counts h old Hl) at 2.
    rewrite !Hins by apply lookup_delete_eq. lia.
  - rewrite Hins by done. lia.
Qed.

(** The collision total of [getStats] counts the detected collisions:
    a staleness check that reports a collision adds one to it, any
    other check leaves it, and a new manager starts at zero. The check
    never changes the number of records or of dependency entries. *)
Theorem getStats_counts_collisions (now : Z) disk fs m filePath currentHash :
  let m' := (hasFileChanged fs m filePath currentHash).1.2 in
  let out := (hasFileChanged fs m filePath currentHash).2 in
  st_hashCollisions (getStats now disk m')
  = st_hashCollisions (getStats now disk m)
    + match out with [] => 0 | _ :: _ => 1 end
  ∧ controllerCount (getStats now disk m') = controllerCount (getStats now disk m)
  ∧ dependencyCount (getStats now disk m') = dependencyCount (getStats now disk m)
  ∧ ∀ defaultPath options,
      st_hashCollisions (getStats now disk (new defaultPath now options)) = 0.
Proof.
  intros m' out. subst m' out. unfold hasFileChanged.
  destruct (controllers (metadata m) !! filePath) as [cached|]; simpl; [|by auto].
  case_decide as Hh; simpl; [by auto|].
  destruct (statSize fs filePath) as [currentSize|]; simpl; [|by auto].
  case_decide as Hs; simpl; [|by auto].
  split; [|done]. rewrite !foldl_add_sum. simpl.
  pose proof (sum_list_insert (hashCollisions m) currentHash
                (collisions m currentHash + 1)) as Hsum.
  unfold collisions in *. lia.
Qed.

End cache_more.

(** ** More of the scan cycle *)

Section scanner_more.

Import IncrementalScanner.

Context {MethodInfo : Type}.
Variable normalize : string → string.
Variable basename : string → string → string.
Variable digest : CacheManager.HashAlgorithm → string → string.

Local Abbreviation Info := (ControllerInfo (MethodInfo := MethodInfo)).
Local Abbreviation scanFile := (IncrementalScanner.scanFile normalize digest).
Local Abbreviation analyze := (IncrementalScanner.analyze normalize).
Local Abbreviation handleFileDelete := (IncrementalScanner.handleFileDelete normalize).
Local Abbreviation resolve_event := (IncrementalScanner.resolve_event normalize basename).
Local Abbreviation resolve := (IncrementalScanner.resolve normalize basename).
Local Abbreviation rescan := (IncrementalScanner.rescan normalize digest).
Local Abbreviation reusable := (IncrementalScanner.reusable normalize digest).
Local Abbreviation processFileChanges :=
  (IncrementalScanner.processFileChanges normalize basename digest).
Local Abbreviation loadCache := (IncrementalScanner.loadCache digest).
Local Abbreviation initialize := (IncrementalScanner.initialize digest).
Local Abbreviation one_hop := (IncrementalScanner.one_hop normalize basename).
Local Abbreviation knows_less := (IncrementalScanner.knows_less normalize).

Implicit Types s : IncrementalScanner.t (MethodInfo := MethodInfo).
Implicit Types st : list string * IncrementalScanner.t (MethodInfo := MethodInfo).
Implicit Types fs : gmap string string.
Implicit Types acc : gmap string (option Info)
                     * IncrementalScanner.t (MethodInfo := MethodInfo)
                     * list Event.

(** *** Scanning a file again *)

(** A scan that found a controller in a readable file makes the next
    scan of the file a cache hit, as long as the file is not written
    in between: the same result comes back, the project is not asked
    and the scanner is left as it is. *)
Theorem scanFile_again_is_a_hit (now later : Z) fs fs' s filePath info :
  is_Some (project s) →
  is_Some (fs !! normalize filePath) →
  fs' !! normalize filePath = fs !! normalize filePath →
  (scanFile now fs s filePath).1.1 = Some info →
  let s1 := (scanFile now fs s filePath).1.2 in
  scanFile later fs' s1 filePath = (Some info, s1, []).
Proof.
  intros Hproj Hfile Hsame Hres s1.
  destruct (scanFile_result_reusable normalize digest now fs s filePath info
              Hproj Hfile Hres) as (cached & Hre & <-).
  apply (reusable_disk normalize digest fs fs') in Hre; [|done].
  destruct Hre as ([proj Hp] & Hc & Hun).
  by apply (scanFile_hit normalize digest later fs' s1 proj filePath cached).
Qed.

(** A file in which the analysis finds no controller is not
    remembered: the scan returns nothing, drops the record and the
    cache dependencies of the path, leaves the tracker as it was, and
    the next scan analyzes the file again. *)
Theorem scanFile_negative_is_not_cached (now later : Z) fs s proj filePath :
  project s = Some proj →
  analyzeFile proj (normalize filePath) = NoController →
  (∀ cached, ¬ reusable fs s filePath cached) →
  let r := scanFile now fs s filePath in
  r.1.1 = None
  ∧ Analyzed (normalize filePath) ∈ r.2
  ∧ CacheManager.getController (cacheManager r.1.2) (normalize filePath) = None
  ∧ CacheManager.getDependentControllers (cacheManager r.1.2) (normalize filePath) = []
  ∧ dependencyTracker r.1.2 = dependencyTracker s
  ∧ Analyzed (normalize filePath) ∈ (scanFile later fs r.1.2 filePath).2.
Proof.
  intros Hproj Hno Hnot r.
  assert (Han : ∀ s0 h sz, project s0 = Some proj →
            analyze now proj s0 (normalize filePath) h sz
            = (None,
               set_cache s0 (CacheManager.removeController (cacheManager s0)
                               (normalize filePath)),
               [Analyzed (normalize filePath)])).
  { intros s0 h sz _. unfold IncrementalScanner.analyze. by rewrite Hno. }
  assert (Hscan : ∀ t0 s0, project s0 = Some proj →
            CacheManager.getController (cacheManager s0) (normalize filePath) = None →
            IncrementalScanner.scanFile normalize digest t0 fs s0 filePath
            = (None,
               set_cache s0 (CacheManager.removeController (cacheManager s0)
                               (normalize filePath)),
               [Analyzed (normalize filePath)])).
  { intros t0 s0 Hp Hc. unfold IncrementalScanner.scanFile. rewrite Hp, Hc.
    unfold IncrementalScanner.analyze. by rewrite Hno. }
  assert (Hr : ∃ cm evs,
            r = (None, set_cache s (CacheManager.removeController cm (normalize filePath)),
                 evs ++ [Analyzed (normalize filePath)])
            ∧ CacheManager.metadata cm = CacheManager.metadata (cacheManager s)).
  { subst r. unfold IncrementalScanner.scanFile. rewrite Hproj.
    destruct (CacheManager.getController (cacheManager s) (normalize filePath))
      as [cached|] eqn:Hc.
    - pose proof (hasFileChanged_metadata fs (cacheManager s) (normalize filePath)
                    (CacheManager.calculateHash digest fs (cacheManager s)
                       (normalize filePath))) as [Hmd _].
      destruct (CacheManager.hasFileChanged fs (cacheManager s) (normalize filePath)
                  (CacheManager.calculateHash digest fs (cacheManager s)
                     (normalize filePath))) as [[changed cm] out] eqn:Hch.
      destruct changed.
      + unfold IncrementalScanner.analyze. rewrite Hno. simpl.
        exists cm, (Logged <$> out). split; [done|]. exact Hmd.
      + destruct (Hnot cached). split; [by rewrite Hproj|]. split; [done|].
        by rewrite Hch.
    - unfold IncrementalScanner.analyze. rewrite Hno.
      by exists (cacheManager s), []. }
  destruct Hr as (cm & evs & Hr & Hmd). rewrite Hr. simpl.
  split; [done|]. split; [rewrite elem_of_app, list_elem_of_singleton; by right|].
  assert (Hgone : CacheManager.getController
                    (CacheManager.removeController cm (normalize filePath))
                    (normalize filePath) = None).
  { unfold CacheManager.getController, CacheManager.removeController. simpl.
    apply lookup_delete_eq. }
  split; [done|]. split.
  - apply elem_of_nil_inv. intros x. rewrite elem_of_getDependentControllers.
    intros (deps & (_ & _ & deps0 & _ & ->)%removeController_dependencies & Hin).
    apply elem_of_difference in Hin as [_ Hn]. apply Hn. by apply elem_of_singleton.
  - split; [done|]. rewrite Hscan; [by left|done|done].
Qed.

(** *** What a cycle returns and leaves on disk *)

(** The map a cycle returns has an entry for exactly the affected
    files that exist on disk: a file that was deleted has none, and no
    file outside the affected set has one. *)
Theorem processFileChanges_results_domain (now : Z) write_ok fs d s events filePath :
  isInitialized s = true →
  is_Some (project s) →
  let out := processFileChanges now write_ok fs d s events in
  is_Some (results out !! filePath)
  ↔ filePath ∈ (resolve s events).1 ∧ is_Some (fs !! filePath).
Proof.
  intros Hinit [proj Hproj] out. subst out.
  unfold IncrementalScanner.processFileChanges. rewrite Hinit, Hproj.
  destruct (resolve s events) as [affectedFiles s1] eqn:Hres.
  pose proof (rescan_foldl_results normalize digest now fs affectedFiles
                (∅, s1, []) filePath) as Hdom.
  destruct (foldl (rescan now fs) (∅, s1, []) affectedFiles) as [[results s2] trace].
  destruct (CacheManager.save now write_ok d (cacheManager s2)) as [ok d'].
  simpl in *. rewrite Hdom, lookup_empty. split; [|by right].
  by intros [[? [=]]|?].
Qed.

(** The configuration and the schema version stay through a scan. *)
Lemma hasFileChanged_config fs (m : CacheManager.t (ControllerInfo := Info))
    filePath currentHash :
  CacheManager.config (CacheManager.hasFileChanged fs m filePath currentHash).1.2
  = CacheManager.config m.
Proof.
  unfold CacheManager.hasFileChanged.
  destruct (CacheManager.controllers (CacheManager.metadata m) !! filePath);
    [|done].
  case_decide; [done|].
  destruct (CacheManager.statSize fs filePath); [|done].
  by case_decide.
Qed.

Lemma addDependency_foldl_config (m : CacheManager.t (ControllerInfo := Info))
    controllerPath deps :
  CacheManager.config
    (foldl (λ cm dep, CacheManager.addDependency cm controllerPath dep) m deps)
  = CacheManager.config m.
Proof.
  revert m. induction deps as [|dep deps IH]; intros m; simpl; [done|].
  by rewrite IH.
Qed.

Lemma analyze_config now proj s normalizedPath fileHash fileSize :
  CacheManager.config
    (cacheManager (analyze now proj s normalizedPath fileHash fileSize).1.2)
  = CacheManager.config (cacheManager s).
Proof.
  unfold IncrementalScanner.analyze.
  destruct (analyzeFile proj normalizedPath) as [| |[info|]]; [done|done| |done].
  destruct (dependencyTracker s) as [g|].
  - destruct (DependencyTracker.analyzeDependencies normalize
                (analyzeImports proj normalizedPath) g) as [deps g'].
    simpl. by rewrite addDependency_foldl_config.
  - done.
Qed.

Lemma scanFile_config now fs s filePath :
  CacheManager.config (cacheManager (scanFile now fs s filePath).1.2)
  = CacheManager.config (cacheManager s).
Proof.
  unfold IncrementalScanner.scanFile. destruct (project s) as [proj|]; [|done].
  set (np := normalize filePath).
  set (h := CacheManager.calculateHash digest fs (cacheManager s) np).
  destruct (CacheManager.getController (cacheManager s) np) as [cached|].
  - pose proof (hasFileChanged_config fs (cacheManager s) np h) as Hcfg.
    destruct (CacheManager.hasFileChanged fs (cacheManager s) np h)
      as [[changed cm] out]. simpl in Hcfg. destruct changed; [|done].
    pose proof (analyze_config now proj (set_cache s cm) np h
                  (CacheManager.getFileSize fs np)) as Han.
    destruct (analyze now proj (set_cache s cm) np h
                (CacheManager.getFileSize fs np)) as [[r s'] evs].
    simpl in *. by rewrite Han.
  - apply analyze_config.
Qed.

Lemma rescan_config now fs acc current :
  CacheManager.config (cacheManager (rescan now fs acc current).1.2)
  = CacheManager.config (cacheManager acc.1.2).
Proof.
  destruct acc as [[results s] trace]. unfold IncrementalScanner.rescan.
  destruct (fs !! current); [|done].
  pose proof (scanFile_config now fs s current) as Hcfg.
  destruct (IncrementalScanner.scanFile normalize digest now fs s current)
    as [[controllerInfo s1] evs].
  by destruct (dependencyTracker s1), controllerInfo, (project s1).
Qed.

Lemma rescan_foldl_config now fs affectedFiles acc :
  CacheManager.config (cacheManager (foldl (rescan now fs) acc affectedFiles).1.2)
  = CacheManager.config (cacheManager acc.1.2).
Proof.
  revert acc. induction affectedFiles as [|current l IH]; intros acc; simpl; [done|].
  rewrite IH. apply rescan_config.
Qed.

Lemma resolve_event_config st event :
  CacheManager.config (cacheManager (resolve_event st event).2)
  = CacheManager.config (cacheManager st.2).
Proof.
  destruct st as [affectedFiles s]. unfold IncrementalScanner.resolve_event.
  destruct (type event); simpl; try done;
    destruct (dependencyTracker s); try done;
    by destruct (DependencyTracker.isDtoFile normalize basename
                   (normalize (ev_filePath event))).
Qed.

Lemma resolve_config s events :
  CacheManager.config (cacheManager (resolve s events).2)
  = CacheManager.config (cacheManager s).
Proof.
  unfold IncrementalScanner.resolve.
  assert (Hgen : ∀ st,
            CacheManager.config (cacheManager (foldl resolve_event st events).2)
            = CacheManager.config (cacheManager st.2)).
  { induction events as [|event l IH]; intros st; simpl; [done|].
    rewrite IH. apply resolve_event_config. }
  apply (Hgen ([], s)).
Qed.

(** What a cycle leaves in the store is what it leaves in the cache
    file: when the write succeeds, a manager that loads the file
    within its time-to-live holds the records and the dependencies of
    the scanner at the end of the cycle. *)
Theorem processFileChanges_persists (now later : Z) fs d s events
    (m0 : CacheManager.t (ControllerInfo := Info)) :
  isInitialized s = true →
  is_Some (project s) →
  CacheManager.enabled (cacheManager s) = true →
  CacheManager.version (CacheManager.metadata (cacheManager s))
    = CacheManager.CACHE_VERSION →
  CacheManager.cacheFilePath m0 = CacheManager.cacheFilePath (cacheManager s) →
  CacheManager.enabled m0 = true →
  (later - now ≤ CacheManager.ttl m0)%Z →
  let out := processFileChanges now true fs d s events in
  ∃ m', CacheManager.load later (disk out) m0 = (true, m')
        ∧ (∀ filePath, CacheManager.getController m' filePath
                       = CacheManager.getController (cacheManager (scanner out)) filePath)
        ∧ (∀ filePath, CacheManager.getDependentControllers m' filePath
                       = CacheManager.getDependentControllers
                           (cacheManager (scanner out)) filePath)
        ∧ (∀ path, path ≠ CacheManager.cacheFilePath m0 → disk out !! path = d !! path).
Proof.
  intros Hinit [proj Hproj] Hen Hver Hpath Hen0 Hage out. subst out.
  unfold IncrementalScanner.processFileChanges. rewrite Hinit, Hproj.
  pose proof (resolve_config s events) as Hres.
  destruct (resolve s events) as [affectedFiles s1]. simpl in Hres.
  pose proof (rescan_foldl_config now fs affectedFiles (∅, s1, [])) as Hscan.
  destruct (foldl (rescan now fs) (∅, s1, []) affectedFiles) as [[results s2] trace].
  simpl in Hscan. rewrite Hres in Hscan. injection Hscan as Hp2 He2 _ _ Hv2.
  unfold CacheManager.save. rewrite He2, Hen. simpl.
  unfold CacheManager.load. rewrite Hen0. simpl.
  rewrite Hpath, <- Hp2, lookup_insert_eq. simpl.
  rewrite Hv2, Hver.
  rewrite decide_False by (by intros []).
  rewrite decide_False by lia.
  eexists. split; [done|]. split; [done|]. split.
  - intros filePath. unfold CacheManager.getDependentControllers. simpl.
    by rewrite dependencies_roundtrip.
  - intros path Hne. rewrite lookup_insert_ne; [done|]. congruence.
Qed.

(** *** Deleted files *)

Lemma resolve_event_forgets st event filePath :
  CacheManager.getController (cacheManager st.2) filePath = None
  ∨ (type event = unlink ∧ normalize (ev_filePath event) = filePath) →
  CacheManager.getController (cacheManager (resolve_event st event).2) filePath = None.
Proof.
  destruct st as [affectedFiles s]. unfold IncrementalScanner.resolve_event.
  intros Hcase. simpl in Hcase.
  assert (Hkeep : type event ≠ unlink →
            CacheManager.getController (cacheManager s) filePath = None).
  { intros Hty. by destruct Hcase as [?|[? _]]. }
  destruct (type event) eqn:Hty; simpl.
  - destruct (dependencyTracker s); [|by apply Hkeep].
    destruct (DependencyTracker.isDtoFile _ _ _); by apply Hkeep.
  - destruct (dependencyTracker s); [|by apply Hkeep].
    destruct (DependencyTracker.isDtoFile _ _ _); by apply Hkeep.
  - unfold CacheManager.getController, CacheManager.removeController. simpl.
    destruct Hcase as [Hnone|[_ <-]].
    + destruct (decide (normalize (ev_filePath event) = filePath)) as [->|Hne].
      * apply lookup_delete_eq.
      * by rewrite lookup_delete_ne.
    + apply lookup_delete_eq.
Qed.

Lemma resolve_forgets s events event :
  event ∈ events →
  type event = unlink →
  CacheManager.getController (cacheManager (resolve s events).2)
    (normalize (ev_filePath event)) = None.
Proof.
  intros Hin Hty. unfold IncrementalScanner.resolve.
  assert (Hgen : ∀ st,
            CacheManager.getController (cacheManager st.2)
              (normalize (ev_filePath event)) = None
            ∨ event ∈ events →
            CacheManager.getController
              (cacheManager (foldl resolve_event st events).2)
              (normalize (ev_filePath event)) = None).
  { clear Hin. induction events as [|e l IH]; intros st; simpl.
    - by intros [?|?%elem_of_nil].
    - intros [Hnone|[->|Hin]%elem_of_cons].
      + apply IH. left. apply resolve_event_forgets. by left.
      + apply IH. left. apply resolve_event_forgets. by right.
      + apply IH. by right. }
  apply Hgen. by right.
Qed.

Lemma rescan_foldl_forgets now fs affectedFiles acc filePath :
  (∀ q, q ∈ affectedFiles → is_Some (fs !! q) → normalize q ≠ filePath) →
  CacheManager.getController (cacheManager acc.1.2) filePath = None →
  CacheManager.getController
    (cacheManager (foldl (rescan now fs) acc affectedFiles).1.2) filePath = None.
Proof.
  revert acc. induction affectedFiles as [|current l IH]; intros acc Hq Hnone;
    simpl; [done|].
  apply IH.
  - intros q Hin. apply Hq. by right.
  - destruct acc as [[results s] trace]. unfold IncrementalScanner.rescan.
    destruct (fs !! current) as [content|] eqn:Hfs; [|done].
    pose proof (scanFile_other normalize basename digest now fs s current filePath) as Ho.
    destruct (IncrementalScanner.scanFile normalize digest now fs s current)
      as [[controllerInfo s1] evs].
    simpl in Ho. destruct Ho as (_ & _ & Hsame & _).
    { apply Hq; [by left|]. rewrite Hfs. eauto. }
    unfold CacheManager.getController in *. simpl in Hnone.
    destruct (dependencyTracker s1), controllerInfo, (project s1); simpl;
      by rewrite Hsame.
Qed.

(** A cycle that has an [unlink] event for a file ends without a
    record of the file, provided that no affected file that exists on
    disk normalizes to its path: every controller that
    [getAllControllers] then reports comes from the record of another
    path. *)
Theorem processFileChanges_forgets_deleted (now : Z) write_ok fs d s events event :
  isInitialized s = true →
  is_Some (project s) →
  event ∈ events →
  type event = unlink →
  (∀ q, q ∈ (resolve s events).1 → is_Some (fs !! q) →
        normalize q ≠ normalize (ev_filePath event)) →
  let out := processFileChanges now write_ok fs d s events in
  CacheManager.getController (cacheManager (scanner out))
    (normalize (ev_filePath event)) = None
  ∧ ∀ info,
      info ∈ getAllControllers (scanner out) →
      ∃ other cached,
        other ≠ normalize (ev_filePath event)
        ∧ CacheManager.getController (cacheManager (scanner out)) other = Some cached
        ∧ CacheManager.controllerInfo cached = info.
Proof.
  intros Hinit [proj Hproj] Hin Hty Hq out.
  assert (Hnone : CacheManager.getController (cacheManager (scanner out))
                    (normalize (ev_filePath event)) = None).
  { subst out. unfold IncrementalScanner.processFileChanges. rewrite Hinit, Hproj.
    pose proof (resolve_forgets s events event Hin Hty) as Hres.
    destruct (resolve s events) as [affectedFiles s1]. simpl in Hres, Hq.
    pose proof (rescan_foldl_forgets now fs affectedFiles (∅, s1, [])
                  (normalize (ev_filePath event)) Hq Hres) as Hscan.
    destruct (foldl (rescan now fs) (∅, s1, []) affectedFiles)
      as [[results s2] trace].
    by destruct (CacheManager.save now write_ok d (cacheManager s2)). }
  split; [done|]. intros info Hinfo.
  unfold IncrementalScanner.getAllControllers in Hinfo.
  apply list_elem_of_fmap in Hinfo as (cached & -> & Hc).
  apply list_elem_of_fmap in Hc as ([other c] & -> & Hoc).
  apply elem_of_map_to_list in Hoc. exists other, c. split; [|done].
  intros ->. unfold CacheManager.getController in Hnone. simpl in Hoc. congruence.
Qed.

(** *** How far a change reaches *)

Lemma removeDependency_dependent_edge (g : DependencyTracker.t) filePath x y :
  DependencyTracker.dependent_edge normalize
    (DependencyTracker.removeDependency normalize g filePath) x y →
  DependencyTracker.dependent_edge normalize g x y.
Proof.
  unfold DependencyTracker.dependent_edge, DependencyTracker.removeDependency. simpl.
  intros (dependents & [Hne Hl]%lookup_delete_Some & Hy).
  assert (Hin : y ∈ default ∅ (DependencyTracker.reverseDependencyGraph g
                                 !! normalize x)).
  { destruct (DependencyTracker.dependencyGraph g !! normalize filePath) as [deps|].
    - apply (dropReverse_foldl normalize (normalize filePath) (elements deps)
               (DependencyTracker.reverseDependencyGraph g) y (normalize x)).
      by rewrite Hl.
    - by rewrite Hl. }
  destruct (DependencyTracker.reverseDependencyGraph g !! normalize x) as [s0|];
    [eauto|]. by apply elem_of_empty in Hin.
Qed.

Lemma removeController_dependents (m : CacheManager.t (ControllerInfo := Info))
    filePath y d :
  y ∈ CacheManager.getDependentControllers
        (CacheManager.removeController m filePath) d →
  y ∈ CacheManager.getDependentControllers m d.

Proof.
  rewrite !elem_of_getDependentControllers.
  intros (deps & (_ & _ & deps0 & Hl & ->)%removeController_dependencies & Hin).
  exists deps0. split; [done|]. by apply elem_of_difference in Hin as [? _].
Qed.

Lemma knows_less_refl s : knows_less s s.
Proof. split; [|done]. intros g' ->. eauto. Qed.

Lemma resolve_event_one_hop st event s :
  knows_less st.2 s →
  knows_less (resolve_event st event).2 s
  ∧ ∀ y, y ∈ (resolve_event st event).1 → y ∈ st.1 ∨ one_hop s event y.
Proof.
  destruct st as [affectedFiles s1]. simpl. intros Hless.
  pose proof Hless as [Htr Hcm].
  unfold IncrementalScanner.resolve_event, IncrementalScanner.one_hop.
  assert (Hkeep : ∀ ty, ty ≠ unlink → type event = ty →
    knows_less
      (match dependencyTracker s1 with
       | Some g =>
         if DependencyTracker.isDtoFile normalize basename (normalize (ev_filePath event))
         then (foldl (λ files dep, set_add dep files)
                 (set_add (normalize (ev_filePath event)) affectedFiles)
                 (DependencyTracker.getDependents normalize g
                    (normalize (ev_filePath event))), s1)
         else (set_add (normalize (ev_filePath event)) affectedFiles, s1)
       | None => (set_add (normalize (ev_filePath event)) affectedFiles, s1)
       end).2 s
    ∧ ∀ y, y ∈ (match dependencyTracker s1 with
       | Some g =>
         if DependencyTracker.isDtoFile normalize basename (normalize (ev_filePath event))
         then (foldl (λ files dep, set_add dep files)
                 (set_add (normalize (ev_filePath event)) affectedFiles)
                 (DependencyTracker.getDependents normalize g
                    (normalize (ev_filePath event))), s1)
         else (set_add (normalize (ev_filePath event)) affectedFiles, s1)
       | None => (set_add (normalize (ev_filePath event)) affectedFiles, s1)
       end).1 →
       y ∈ affectedFiles
       ∨ (y = normalize (ev_filePath event)
          ∨ (DependencyTracker.isDtoFile normalize basename
               (normalize (ev_filePath event)) = true
             ∧ ∃ g, dependencyTracker s = Some g
                    ∧ y ∈ DependencyTracker.getDependents normalize g
                          (normalize (ev_filePath event))))).
  { intros ty _ _. destruct (dependencyTracker s1) as [g'|] eqn:Hg; simpl.
    - destruct (DependencyTracker.isDtoFile _ _ _) eqn:Hdto; simpl.
      + split; [done|]. intros y.
        rewrite (elem_of_set_add_foldl normalize basename), (elem_of_set_add normalize basename).
        intros [[->|?]|Hy]; [right; by left|by left|]. right. right.
        split; [done|]. destruct (Htr g' eq_refl) as (g & Hg0 & Hle).
        exists g. split; [done|].
        apply (elem_of_getDependents normalize), Hle, (elem_of_getDependents normalize), Hy.
      + split; [done|]. intros y [->|?]%(elem_of_set_add normalize basename); [right; by left|by left].
    - split; [done|]. intros y [->|?]%(elem_of_set_add normalize basename); [right; by left|by left]. }
  destruct (type event) eqn:Hty.
  - by apply (Hkeep add).
  - by apply (Hkeep change).
  - split.
    + unfold IncrementalScanner.handleFileDelete. split; simpl.
      * intros g' Hg'. destruct (dependencyTracker s1) as [g1|]; [|done].
        injection Hg' as <-. destruct (Htr g1 eq_refl) as (g & Hg & Hle).
        exists g. split; [done|]. intros x y Hedge. apply Hle.
        by apply removeDependency_dependent_edge in Hedge.
      * intros y d Hy%removeController_dependents. by apply Hcm.
    + intros y [?|Hy]%(handleFileDelete_affected normalize basename); [by left|]. right.
      apply Hcm, elem_of_getDependentControllers, Hy.
Qed.

Lemma resolve_foldl_one_hop events st s y :
  knows_less st.2 s →
  y ∈ (foldl resolve_event st events).1 →
  y ∈ st.1 ∨ ∃ event, event ∈ events ∧ one_hop s event y.
Proof.
  revert st. induction events as [|event l IH]; intros st Hle; simpl; [by left|].
  destruct (resolve_event_one_hop st event s Hle) as [Hle' Hstep].
  intros [Hy|(e & He & Hhop)]%(IH _ Hle').
  - apply Hstep in Hy as [?|?]; [by left|]. right. exists event. split; [by left|done].
  - right. exists e. split; [by right|done].
Qed.

(** The first loop of [processFileChanges] never looks further than
    one hop: every file it marks is the path of an event that is not a
    removal, a direct dependent the tracker had for such a path when
    it names a DTO, or a direct dependent the cache had for a removed
    path; dependents of dependents are not marked. When the batch has
    no removal, the marked files are exactly these. *)
Theorem resolve_stays_within_one_hop s events y :
  (y ∈ (resolve s events).1 → ∃ event, event ∈ events ∧ one_hop s event y)
  ∧ ((∀ event, event ∈ events → type event ≠ unlink) →
     (∃ event, event ∈ events ∧ one_hop s event y) → y ∈ (resolve s events).1).
Proof.
  split.
  - intros Hy. unfold IncrementalScanner.resolve in Hy.
    apply (resolve_foldl_one_hop events ([], s) s y (knows_less_refl s)) in Hy
      as [?%elem_of_nil|?]; done.
  - intros Hno (event & Hin & Hhop).
    assert (Hgen : ∀ st, st.2 = s → event ∈ events →
              (∀ e, e ∈ events → type e ≠ unlink) →
              y ∈ (foldl resolve_event st events).1).
    { clear Hin Hno. induction events as [|e l IH]; intros st Hst Hin Hno;
        [by apply elem_of_nil in Hin|]. simpl.
      assert (Hsame : (resolve_event st e).2 = s).
      { destruct st as [affectedFiles s1]. simpl in Hst. subst s1.
        unfold IncrementalScanner.resolve_event.
        pose proof (Hno e (list_elem_of_here _ _)) as Hty.
        destruct (type e); [| |done];
          destruct (dependencyTracker s); try done;
          by destruct (DependencyTracker.isDtoFile _ _ _). }
      apply elem_of_cons in Hin as [<-|Hin].
      - apply (resolve_foldl_mono normalize basename).
        destruct st as [affectedFiles s1]. simpl in Hst. subst s1.
        unfold IncrementalScanner.resolve_event, IncrementalScanner.one_hop in *.
        pose proof (Hno event (list_elem_of_here _ _)) as Hty.
        assert (Hcase : normalize (ev_filePath event) = y
                ∨ (DependencyTracker.isDtoFile normalize basename
                     (normalize (ev_filePath event)) = true
                   ∧ ∃ g, dependencyTracker s = Some g
                          ∧ y ∈ DependencyTracker.getDependents normalize g
                                (normalize (ev_filePath event)))).
        { destruct (type event); [| |done]; destruct Hhop as [->|?]; auto. }
        assert (Hgoal : y ∈ (match dependencyTracker s with
           | Some g =>
             if DependencyTracker.isDtoFile normalize basename
                  (normalize (ev_filePath event))
             then (foldl (λ files dep, set_add dep files)
                     (set_add (normalize (ev_filePath event)) affectedFiles)
                     (DependencyTracker.getDependents normalize g
                        (normalize (ev_filePath event))), s)
             else (set_add (normalize (ev_filePath event)) affectedFiles, s)
           | None => (set_add (normalize (ev_filePath event)) affectedFiles, s)
           end).1).
        { destruct Hcase as [<-|(Hdto & g & Hg & Hy)].
          - destruct (dependencyTracker s); simpl.
            + destruct (DependencyTracker.isDtoFile _ _ _); simpl.
              * apply (elem_of_set_add_foldl normalize basename). left.
                apply (elem_of_set_add normalize basename). by left.
              * apply (elem_of_set_add normalize basename). by left.
            + apply (elem_of_set_add normalize basename). by left.
          - rewrite Hg, Hdto. simpl. apply (elem_of_set_add_foldl normalize basename). by right. }
        by destruct (type event).
      - apply IH; [done|done|]. intros e' He'. apply Hno. by right. }
    apply (Hgen ([], s)); done.
Qed.

(** *** Starting up *)

Local Abbreviation scan_source := (IncrementalScanner.scan_source normalize digest).
Local Abbreviation scanControllers :=
  (IncrementalScanner.scanControllers normalize digest).

Implicit Types d : gmap string (CacheManager.FileContent (ControllerInfo := Info)).

(** [initialize] on a scanner that is not initialized sets up the
    project with an empty dependency tracker, also when records come
    back from the cache file. A record held afterwards was in the
    store before, the file not having been taken, or it comes from a
    cache file of the current schema version and within the
    time-to-live, its source file exists, and the fingerprint of a
    tsconfig.json that exists is the one the cache file has. *)
Theorem initialize_keeps_valid_records created (now : Z) unlink_ok fs tsconfigPath d s :
  isInitialized s = false →
  let s' := (initialize created now unlink_ok fs tsconfigPath d s).1 in
  isInitialized s' = true
  ∧ project s' = Some created
  ∧ dependencyTracker s' = Some DependencyTracker.empty
  ∧ ∀ filePath cached,
      CacheManager.getController (cacheManager s') filePath = Some cached →
      CacheManager.getController (cacheManager s) filePath = Some cached
      ∨ (is_Some (fs !! filePath)
         ∧ ∃ parsed,
             d !! CacheManager.cacheFilePath (cacheManager s)
               = Some (CacheManager.Json parsed)
             ∧ CacheManager.s_controllers parsed !! filePath = Some cached
             ∧ CacheManager.s_version parsed = CacheManager.CACHE_VERSION
             ∧ (now - CacheManager.s_timestamp parsed
                ≤ CacheManager.ttl (cacheManager s))%Z
             ∧ ∀ content, fs !! tsconfigPath = Some content →
                 CacheManager.s_tsConfigHash parsed
                 = Some (digest (CacheManager.hashAlgorithm (cacheManager s)) content)).
Proof.
  intros Hinit s'. subst s'. unfold IncrementalScanner.initialize. rewrite Hinit.
  unfold IncrementalScanner.loadCache. simpl.
  destruct (CacheManager.load now d (cacheManager s)) as [loaded cm] eqn:Hload.
  destruct loaded; simpl.
  - apply load_true_eq in Hload as (parsed & Hfile & Hv & Hage & ->).
    assert (Hkept : ∀ filePath cached,
              CacheManager.getController
                (CacheManager.cleanup fs
                   (CacheManager.set_metadata (cacheManager s)
                      (CacheManager.mkMetadata (CacheManager.s_version parsed)
                         (CacheManager.s_timestamp parsed)
                         (CacheManager.s_tsConfigHash parsed)
                         (CacheManager.s_controllers parsed)
                         (list_to_set <$> CacheManager.s_dependencies parsed)))).2
                filePath = Some cached →
              is_Some (fs !! filePath)
              ∧ CacheManager.s_controllers parsed !! filePath = Some cached).
    { intros filePath cached. rewrite getController_cleanup. by case_decide. }
    destruct (fs !! tsconfigPath) as [content|] eqn:Hts.
    + destruct (CacheManager.hasTsConfigChanged _ _) eqn:Hch; simpl.
      * repeat split. intros filePath cached Hc.
        unfold CacheManager.getController in Hc. simpl in Hc.
        by rewrite lookup_empty in Hc.
      * repeat split. intros filePath cached [Hex Hc]%Hkept. right.
        split; [done|]. exists parsed. repeat split; try done.
        intros c [= <-]. apply hasTsConfigChanged_false in Hch as [Hst _].
        simpl in Hst. rewrite Hst.
        unfold CacheManager.calculateTsConfigHash, CacheManager.calculateHash,
          CacheManager.calculateFileHash. by rewrite Hts.
    + simpl. repeat split. intros filePath cached [Hex Hc]%Hkept. right.
      split; [done|]. exists parsed. repeat split; done.
  - apply load_false in Hload as ->. repeat split. intros filePath cached Hc.
    by left.
Qed.

Lemma initialize_after_save created (now later : Z) unlink_ok fs tsconfigPath d s
    (cm : CacheManager.t (ControllerInfo := Info)) :
  isInitialized s = false →
  CacheManager.config (cacheManager s) = CacheManager.config cm →
  CacheManager.enabled cm = true →
  CacheManager.version (CacheManager.metadata cm) = CacheManager.CACHE_VERSION →
  (later - now ≤ CacheManager.ttl cm)%Z →
  (∀ content, fs !! tsconfigPath = Some content →
     CacheManager.tsConfigHash (CacheManager.metadata cm)
       = Some (digest (CacheManager.hashAlgorithm cm) content)
     ∧ digest (CacheManager.hashAlgorithm cm) content ≠ EmptyString) →
  ∀ filePath,
    CacheManager.getController
      (cacheManager
         (initialize created later unlink_ok fs tsconfigPath
            (<[CacheManager.cacheFilePath cm
                 := CacheManager.Json (CacheManager.serializable now cm)]> d) s).1)
      filePath
    = if decide (is_Some (fs !! filePath))
      then CacheManager.getController cm filePath else None.
Proof.
  intros Hinit Hcfg Hen Hver Hage Hts filePath.
  injection Hcfg as Hpath Hen0 Httl Halg Hver0.
  unfold IncrementalScanner.initialize. rewrite Hinit.
  unfold IncrementalScanner.loadCache. simpl.
  unfold CacheManager.load. rewrite Hen0, Hen. simpl.
  rewrite Hpath, lookup_insert_eq. simpl. rewrite Hver.
  rewrite decide_False by (by intros []).
  rewrite Httl, decide_False by lia. simpl.
  destruct (fs !! tsconfigPath) as [content|] eqn:Hfs.
  - destruct (Hts content eq_refl) as [Hst Hne].
    assert (Hch : CacheManager.hasTsConfigChanged
                    (CacheManager.set_metadata (cacheManager s)
                       (CacheManager.mkMetadata CacheManager.CACHE_VERSION now
                          (CacheManager.tsConfigHash (CacheManager.metadata cm))
                          (CacheManager.controllers (CacheManager.metadata cm))
                          (list_to_set <$> (elements
                             <$> CacheManager.dependencies (CacheManager.metadata cm)))))
                    (digest (CacheManager.hashAlgorithm (cacheManager s)) content)
                  = false).
    { apply hasTsConfigChanged_false. simpl. rewrite Halg. done. }
    unfold CacheManager.calculateTsConfigHash, CacheManager.calculateHash,
      CacheManager.calculateFileHash. simpl. rewrite Hfs, Hch. simpl.
    by rewrite getController_cleanup.
  - simpl. by rewrite getController_cleanup.
Qed.

Lemma initialize_fields created (now : Z) unlink_ok fs tsconfigPath d s :
  isInitialized s = false →
  let s' := (initialize created now unlink_ok fs tsconfigPath d s).1 in
  isInitialized s' = true
  ∧ project s' = Some created
  ∧ dependencyTracker s' = Some DependencyTracker.empty.
Proof.
  intros Hinit. unfold IncrementalScanner.initialize. rewrite Hinit.
  unfold IncrementalScanner.loadCache. simpl.
  destruct (CacheManager.load now d (cacheManager s)) as [[] cm]; simpl; [|done].
  destruct (fs !! tsconfigPath); [|done].
  by destruct (CacheManager.hasTsConfigChanged _ _).
Qed.

Lemma initialize_config created (now : Z) unlink_ok fs tsconfigPath d s :
  CacheManager.version (CacheManager.metadata (cacheManager s))
    = CacheManager.CACHE_VERSION →
  CacheManager.config
    (cacheManager (initialize created now unlink_ok fs tsconfigPath d s).1)
  = CacheManager.config (cacheManager s).
Proof.
  intros Hver. unfold IncrementalScanner.initialize.
  destruct (isInitialized s); [done|].
  unfold IncrementalScanner.loadCache. simpl.
  destruct (CacheManager.load now d (cacheManager s)) as [loaded cm] eqn:Hload.
  destruct loaded; simpl.
  - apply load_true_eq in Hload as (parsed & Hfile & Hv & Hage & ->).
    assert (Hcl : CacheManager.config
              (CacheManager.cleanup fs
                 (CacheManager.set_metadata (cacheManager s)
                    (CacheManager.mkMetadata (CacheManager.s_version parsed)
                       (CacheManager.s_timestamp parsed)
                       (CacheManager.s_tsConfigHash parsed)
                       (CacheManager.s_controllers parsed)
                       (list_to_set <$> CacheManager.s_dependencies parsed)))).2
            = CacheManager.config (cacheManager s)).
    { destruct (cleanup_config fs
                  (CacheManager.set_metadata (cacheManager s)
                     (CacheManager.mkMetadata (CacheManager.s_version parsed)
                        (CacheManager.s_timestamp parsed)
                        (CacheManager.s_tsConfigHash parsed)
                        (CacheManager.s_controllers parsed)
                        (list_to_set <$> CacheManager.s_dependencies parsed))))
        as [-> _].
      unfold CacheManager.config. simpl. by rewrite Hv, Hver. }
    destruct (fs !! tsconfigPath); [|done].
    destruct (CacheManager.hasTsConfigChanged _ _); simpl; [|done].
    unfold CacheManager.config. simpl. by rewrite Hver.
  - by apply load_false in Hload as ->.
Qed.

Lemma scan_source_foldl_config now fs files
    (acc : list Info * list string * IncrementalScanner.t (MethodInfo := MethodInfo)
           * list Event) :
  CacheManager.config (cacheManager (foldl (scan_source now fs) acc files).1.2)
  = CacheManager.config (cacheManager acc.1.2).
Proof.
  revert acc. induction files as [|filePath l IH]; intros acc; simpl; [done|].
  rewrite IH. destruct acc as [[[controllers controllerPaths] s] trace].
  unfold IncrementalScanner.scan_source.
  pose proof (scanFile_config now fs s filePath) as Hcfg.
  destruct (IncrementalScanner.scanFile normalize digest now fs s filePath)
    as [[[info|] s1] evs]; done.
Qed.

(** A full scan survives a restart. After [scanControllers] on a new
    scanner has written the cache file, a second new scanner with the
    same options, started within the time-to-live while tsconfig.json
    is the same, begins with the records the first scanner ended
    with, less the records of source files that are gone. The
    fingerprint of a tsconfig.json that exists must not be empty. *)
Theorem scanControllers_survives_restart created created' files (now later : Z)
    unlink_ok unlink_ok' fs fs' tsconfigPath d s s0 :
  isInitialized s = false →
  CacheManager.enabled (cacheManager s) = true →
  CacheManager.version (CacheManager.metadata (cacheManager s))
    = CacheManager.CACHE_VERSION →
  isInitialized s0 = false →
  CacheManager.config (cacheManager s0) = CacheManager.config (cacheManager s) →
  (later - now ≤ CacheManager.ttl (cacheManager s))%Z →
  fs' !! tsconfigPath = fs !! tsconfigPath →
  (∀ content, fs !! tsconfigPath = Some content →
     digest (CacheManager.hashAlgorithm (cacheManager s)) content ≠ EmptyString) →
  let scan := scanControllers created (Some files) now unlink_ok true fs
                tsconfigPath d s in
  let s' := (initialize created' later unlink_ok' fs' tsconfigPath
               (scan_disk scan) s0).1 in
  ∀ filePath,
    CacheManager.getController (cacheManager s') filePath
    = if decide (is_Some (fs' !! filePath))
      then CacheManager.getController (cacheManager (scan_scanner scan)) filePath
      else None.
Proof.
  intros Hinit Hen Hver Hinit0 Hcfg0 Hage Hsame Hdigest scan s'.
  subst s' scan. unfold IncrementalScanner.scanControllers. rewrite Hinit.
  pose proof (initialize_fields created now unlink_ok fs tsconfigPath d s Hinit)
    as (_ & Hproj & _).
  pose proof (initialize_config created now unlink_ok fs tsconfigPath d s Hver)
    as Hcfg1.
  destruct (initialize created now unlink_ok fs tsconfigPath d s) as [s1 d0].
  simpl in Hproj, Hcfg1. rewrite Hproj.
  pose proof (scan_source_foldl_config now fs files ([], [], s1, [])) as Hcfg2.
  destruct (foldl (scan_source now fs) ([], [], s1, []) files)
    as [[[controllers controllerPaths] s2] trace].
  simpl in Hcfg2. rewrite Hcfg1 in Hcfg2.
  set (cm := match fs !! tsconfigPath with
             | Some _ =>
               CacheManager.setTsConfigHash (cacheManager s2)
                 (CacheManager.calculateTsConfigHash digest fs (cacheManager s2)
                    tsconfigPath)
             | None => cacheManager s2
             end).
  assert (Hcm : CacheManager.config cm = CacheManager.config (cacheManager s)).
  { subst cm. by destruct (fs !! tsconfigPath). }
  assert (Hts : ∀ content, fs' !! tsconfigPath = Some content →
            CacheManager.tsConfigHash (CacheManager.metadata cm)
              = Some (digest (CacheManager.hashAlgorithm cm) content)
            ∧ digest (CacheManager.hashAlgorithm cm) content ≠ EmptyString).
  { intros content Hc. rewrite Hsame in Hc.
    injection Hcm as _ _ _ Halg _. rewrite Halg. split; [|by apply Hdigest].
    injection Hcfg2 as _ _ _ Halg2 _.
    subst cm. rewrite Hc. simpl.
    unfold CacheManager.calculateTsConfigHash, CacheManager.calculateHash,
      CacheManager.calculateFileHash. by rewrite Hc, Halg2. }
  injection Hcm as Hpath Hen' Httl Halg Hver'.
  unfold CacheManager.save. rewrite Hen', Hen. simpl.
  apply initialize_after_save; try done.
  - rewrite Hcfg0. unfold CacheManager.config.
    by rewrite Hpath, Hen', Httl, Halg, Hver'.
  - congruence.
  - congruence.
  - by rewrite Httl.
Qed.

End scanner_more.

(** ** The file watcher *)

Section watcher_facts.

Import IncrementalScanner FileWatcher.

Context {ControllerInfo : Type}.
Variable normalize : string → string.
Variable digest : CacheManager.HashAlgorithm → string → string.

Local Abbreviation handleFileEvent := (FileWatcher.handleFileEvent normalize digest).
Local Abbreviation handleAll := (FileWatcher.handleAll normalize digest).

Implicit Types w : FileWatcher.t.
Implicit Types cm : CacheManager.t (ControllerInfo := ControllerInfo).
Implicit Types fs : gmap string string.
Implicit Types entries : list (string * Change).

(** *** The pending map *)

Lemma elem_of_map_set_eq key value entries : (key, value) ∈ map_set key value entries.
Proof.
  induction entries as [|[k v] l IH]; simpl; [by left|].
  case_decide; [by left|by right].
Qed.

Lemma map_set_fst key value entries :
  (map_set key value entries).*1
  = if decide (key ∈ entries.*1) then entries.*1 else entries.*1 ++ [key].
Proof.
  induction entries as [|[k v] l IH]; [done|]. cbn [map_set].
  destruct (decide (k = key)) as [->|Hne]; rewrite !fmap_cons; cbn [fst].
    + rewrite decide_True; [done|]. by left.
    + rewrite IH. destruct (decide (key ∈ l.*1)) as [Hin|Hout].
      * rewrite decide_True; [done|]. by right.
      * rewrite decide_False; [done|]. by intros [?|?]%elem_of_cons.
Qed.

Lemma map_set_NoDup key value entries :
  NoDup entries.*1 → NoDup (map_set key value entries).*1.
Proof.
  intros Hnd. rewrite map_set_fst. case_decide as Hin; [done|].
  apply NoDup_app. split; [done|]. split; [|apply NoDup_singleton].
  intros x Hx ->%list_elem_of_singleton. done.
Qed.

Lemma elem_of_map_set key value entries k v :
  NoDup entries.*1 →
  (k, v) ∈ map_set key value entries
  ↔ (k = key ∧ v = value) ∨ (k ≠ key ∧ (k, v) ∈ entries).
Proof.
  induction entries as [|[k0 v0] l IH]; simpl; intros Hnd.
  - rewrite list_elem_of_singleton. split.
    + intros [= -> ->]. by left.
    + intros [[-> ->]|[_ ?%elem_of_nil]]; done.
  - apply NoDup_cons in Hnd as [Hk0 Hnd]. specialize (IH Hnd).
    destruct (decide (k0 = key)) as [->|Hne]; rewrite !elem_of_cons.
    + split.
      * intros [[= -> ->]|Hin]; [by left|]. right.
        split; [|by right]. intros ->. apply Hk0.
        apply list_elem_of_fmap. by exists (key, v).
      * intros [[-> ->]|[Hk [[= ? ?]|Hin]]]; [by left|done|by right].
    + rewrite IH. split.
      * intros [[= -> ->]|[[-> ->]|[Hk Hin]]]; [right|by left|right]; split; auto.
      * intros [[-> ->]|[Hk [[= -> ->]|Hin]]]; auto.
Qed.

(** One notification either leaves the pending map, which only a
    [change] can do, or sets the entry of the normalized path. *)
Lemma handleFileEvent_pending fs w cm type filePath :
  let w' := (handleFileEvent fs w cm type filePath).1.1 in
  (type = change ∧ w' = w)
  ∨ ∃ hash,
      pendingChanges w'
      = map_set (normalize filePath)
          (mkChange (mkEvent type (normalize filePath)) hash) (pendingChanges w)
      ∧ debounceTimer w' = true.
Proof.
  unfold FileWatcher.handleFileEvent. destruct type; simpl.
  - right. eauto.
  - destruct (CacheManager.hasFileChanged _ _ _ _) as [[[] cm'] out]; simpl.
    + right. eauto.
    + by left.
  - right. eauto.
Qed.

Lemma handleAll_snoc fs w cm notifications n :
  handleAll fs w cm (notifications ++ [n])
  = (handleFileEvent fs (handleAll fs w cm notifications).1
       (handleAll fs w cm notifications).2 n.1 n.2).1.
Proof. unfold FileWatcher.handleAll. by rewrite foldl_app. Qed.

Lemma handleAll_inv fs w cm notifications :
  pendingChanges w = [] →
  let w' := (handleAll fs w cm notifications).1 in
  NoDup (pendingChanges w').*1
  ∧ ∀ k c, (k, c) ∈ pendingChanges w' →
      ev_filePath (event c) = k
      ∧ ∃ n, n ∈ notifications ∧ type (event c) = n.1 ∧ k = normalize n.2.
Proof.
  intros Hempty. induction notifications as [|n l IH] using rev_ind; simpl.
  - rewrite Hempty. split; [apply NoDup_nil_2|]. by intros k c ?%elem_of_nil.
  - rewrite handleAll_snoc. destruct IH as [Hnd Hin].
    destruct (handleFileEvent_pending fs (handleAll fs w cm l).1
                (handleAll fs w cm l).2 n.1 n.2) as [[_ ->]|(h & -> & _)].
    + split; [done|]. intros k c (? & m & ? & ?)%Hin. split; [done|].
      exists m. rewrite elem_of_app. auto.
    + split; [by apply map_set_NoDup|].
      intros k c Hkc. apply elem_of_map_set in Hkc as [[-> ->]|[_ Hkc]]; [| |done].
      * split; [done|]. exists n. rewrite elem_of_app, list_elem_of_singleton. auto.
      * apply Hin in Hkc as (? & m & ? & ?). split; [done|].
        exists m. rewrite elem_of_app. auto.
Qed.

Lemma handleAll_last fs w cm pre post ty filePath :
  pendingChanges w = [] →
  ty ≠ change →
  (∀ n, n ∈ post → normalize n.2 ≠ normalize filePath) →
  ∃ hash,
    (normalize filePath, mkChange (mkEvent ty (normalize filePath)) hash)
    ∈ pendingChanges (handleAll fs w cm (pre ++ (ty, filePath) :: post)).1.
Proof.
  intros Hempty Hty. induction post as [|n l IH] using rev_ind; intros Hpost.
  - rewrite handleAll_snoc. simpl.
    destruct (handleFileEvent_pending fs (handleAll fs w cm pre).1
                (handleAll fs w cm pre).2 ty filePath) as [[? _]|(h & -> & _)];
      [done|].
    exists h. apply elem_of_map_set; [|by left].
    by apply (handleAll_inv fs w cm pre).
  - destruct IH as [h Hin].
    { intros m Hm. apply Hpost. rewrite elem_of_app. by left. }
    assert (Hne : normalize n.2 ≠ normalize filePath).
    { apply Hpost. rewrite elem_of_app, list_elem_of_singleton. by right. }
    replace (pre ++ (ty, filePath) :: l ++ [n])
      with ((pre ++ (ty, filePath) :: l) ++ [n]) by by rewrite <- app_assoc.
    rewrite handleAll_snoc. exists h.
    destruct (handleFileEvent_pending fs
                (handleAll fs w cm (pre ++ (ty, filePath) :: l)).1
                (handleAll fs w cm (pre ++ (ty, filePath) :: l)).2 n.1 n.2)
      as [[_ ->]|(h' & -> & _)]; [done|].
    apply elem_of_map_set; [|right; split; [congruence|done]].
    by apply (handleAll_inv fs w cm (pre ++ (ty, filePath) :: l)).
Qed.

Lemma paths_of_entries entries :
  (∀ k c, (k, c) ∈ entries → ev_filePath (event c) = k) →
  (λ c, ev_filePath (event c)) <$> entries.*2 = entries.*1.
Proof.
  induction entries as [|[k c] l IH]; intros Hin; [done|].
  rewrite !fmap_cons. cbn [fst snd]. rewrite IH.
  - f_equal. apply Hin. by left.
  - intros k' c' ?. apply Hin. by right.
Qed.


(** *** The filter on change notifications *)

(** A [change] notification is dropped exactly when the store has a
    record of the normalized path whose fingerprint is the MD5 digest
    of the file and whose size is the size of the file: the watcher,
    the manager and the console then stay as they are. Otherwise the
    event is queued under the normalized path with that digest and the
    timer is armed. The digest is MD5 whatever algorithm the manager
    is configured with. [add] and [unlink] are always queued. *)
Theorem handleFileEvent_drops_unchanged fs w cm filePath :
  let normalizedPath := normalize filePath in
  let hash := CacheManager.calculateFileHash digest fs normalizedPath
                CacheManager.md5 in
  let matches :=
    ∃ cached, CacheManager.getController cm normalizedPath = Some cached
              ∧ CacheManager.fileHash cached = hash
              ∧ CacheManager.statSize fs normalizedPath
                = Some (CacheManager.fileSize cached) in
  (matches → handleFileEvent fs w cm change filePath = (w, cm, []))
  ∧ (¬ matches →
     let w' := (handleFileEvent fs w cm change filePath).1.1 in
     (normalizedPath, mkChange (mkEvent change normalizedPath) (Some hash))
       ∈ pendingChanges w'
     ∧ debounceTimer w' = true)
  ∧ (normalizedPath, mkChange (mkEvent add normalizedPath) (Some hash))
      ∈ pendingChanges (handleFileEvent fs w cm add filePath).1.1
  ∧ (normalizedPath, mkChange (mkEvent unlink normalizedPath) None)
      ∈ pendingChanges (handleFileEvent fs w cm unlink filePath).1.1.
Proof.
  intros normalizedPath hash matches.
  pose proof (hasFileChanged_false fs cm normalizedPath hash) as Hiff.
  split; [|split; [|split]].
  - intros Hm%Hiff. unfold FileWatcher.handleFileEvent. fold normalizedPath hash.
    by rewrite (hasFileChanged_unchanged _ _ _ _ Hm).
  - intros Hno. unfold FileWatcher.handleFileEvent. fold normalizedPath hash.
    destruct (CacheManager.hasFileChanged fs cm normalizedPath hash)
      as [[[] cm'] out]; simpl in *.
    + split; [apply elem_of_map_set_eq|done].
    + destruct Hno. by apply Hiff.
  - apply elem_of_map_set_eq.
  - apply elem_of_map_set_eq.
Qed.

End watcher_facts.

(** ** Reading a class *)

Section extraction_facts.

Import ControllerExtraction.

Context {TypeNode AnalyzedType : Type}.
Variable analyzeType : TypeNode → AnalyzedType.

Local Abbreviation extractMethodInfo := (ControllerExtraction.extractMethodInfo analyzeType).
Local Abbreviation extractControllerInfo :=
  (ControllerExtraction.extractControllerInfo analyzeType).
Local Abbreviation analyzeClasses := (ControllerExtraction.analyzeClasses analyzeType).

Implicit Types cls : ClassDeclaration (TypeNode := TypeNode).
Implicit Types method : MethodDeclaration (TypeNode := TypeNode).

Lemma find_first {A} (f : A → bool) (l : list A) x :
  find f l = Some x →
  ∃ pre post, l = pre ++ x :: post ∧ f x = true ∧ ∀ y, y ∈ pre → f y = false.
Proof.
  induction l as [|a l IH]; simpl; [done|].
  destruct (f a) eqn:Hfa.
  - intros [= <-]. exists [], l. split; [done|]. split; [done|].
    by intros y ?%elem_of_nil.
  - intros (pre & post & -> & Hx & Hpre)%IH. exists (a :: pre), post.
    split; [done|]. split; [done|]. intros y [->|?]%elem_of_cons; auto.
Qed.

Lemma find_is_Some {A} (f : A → bool) (l : list A) :
  is_Some (find f l) ↔ ∃ x, x ∈ l ∧ f x = true.
Proof.
  induction l as [|a l IH]; simpl.
  - split; [by intros [? ?]|]. by intros (x & ?%elem_of_nil & _).
  - destruct (f a) eqn:Hfa.
    + split; [|eauto]. intros _. exists a. split; [by left|done].
    + rewrite IH. split.
      * intros (x & Hin & Hx). exists x. split; [by right|done].
      * intros (x & [->|Hin]%elem_of_cons & Hx); [congruence|eauto].
Qed.

Lemma toUpperCase_httpDecorators decoratorName :
  decoratorName ∈ httpDecorators →
  toUpperCase decoratorName ∈ ["GET"; "POST"; "PUT"; "DELETE"; "PATCH"]%string.
Proof.
  unfold httpDecorators. rewrite !elem_of_cons, elem_of_nil.
  intros [->|[->|[->|[->|[->|[]]]]]]; by_evaluation.
Qed.

(** [extractMethodInfo] describes a method exactly when one of its
    decorators is a call of [Get], [Post], [Put], [Delete] or
    [Patch]. The first such decorator decides: the HTTP method is its
    name in upper case, one of the five verbs, and the route is its
    first argument when that is a string literal and empty otherwise.
    Every parameter of the method is described, in order. *)
Theorem extractMethodInfo_first_http_decorator method :
  (is_Some (extractMethodInfo method)
   ↔ ∃ decorator, decorator ∈ m_getDecorators method ∧ is_Some (httpName decorator))
  ∧ ∀ info, extractMethodInfo method = Some info →
      mi_httpMethod info ∈ ["GET"; "POST"; "PUT"; "DELETE"; "PATCH"]%string
      ∧ mi_name info = m_getName method
      ∧ length (mi_parameters info) = length (m_getParameters method)
      ∧ ∃ pre decorator post decoratorName,
          m_getDecorators method = pre ++ decorator :: post
          ∧ (∀ earlier, earlier ∈ pre → httpName earlier = None)
          ∧ httpName decorator = Some decoratorName
          ∧ mi_httpMethod info = toUpperCase decoratorName
          ∧ mi_route info
            = match extractDecoratorArgument decorator with
              | Some route => route
              | None => EmptyString
              end.
Proof.
  unfold ControllerExtraction.extractMethodInfo. split.
  - destruct (find _ (m_getDecorators method)) as [d|] eqn:Hfind.
    + pose proof Hfind as (pre & post & Hl & Hd & _)%find_first.
      apply bool_decide_eq_true in Hd as [name Hname]. rewrite Hname.
      split; [|eauto]. intros _. exists d. split; [|by rewrite Hname].
      rewrite Hl, elem_of_app, elem_of_cons. auto.
    + split; [by intros [? ?]|]. intros (d & Hin & Hd).
      assert (Hsome : is_Some (find (λ decorator, bool_decide (is_Some (httpName decorator)))
                                 (m_getDecorators method))).
      { apply find_is_Some. exists d. split; [done|]. by apply bool_decide_eq_true. }
      rewrite Hfind in Hsome. by destruct Hsome.
  - intros info. destruct (find _ (m_getDecorators method)) as [d|] eqn:Hfind; [|done].
    apply find_first in Hfind as (pre & post & Hl & Hd & Hpre).
    apply bool_decide_eq_true in Hd as [name Hname]. rewrite Hname.
    intros [= <-]. simpl.
    assert (Hin : name ∈ httpDecorators).
    { unfold httpName in Hname. destruct (getCallExpression d) as [c|]; [|done].
      destruct (identifier c) as [n|]; [|done]. case_decide; [|done].
      by injection Hname as <-. }
    split; [by apply toUpperCase_httpDecorators|]. split; [done|].
    split; [by rewrite length_fmap|].
    exists pre, d, post, name. split; [done|]. split; [|done].
    intros earlier Hearlier. apply Hpre in Hearlier.
    apply bool_decide_eq_false in Hearlier.
    by apply eq_None_not_Some.
Qed.

Lemma hasControllerDecorator_find cls :
  hasControllerDecorator cls = true
  ↔ is_Some (find (calls "Controller") (c_getDecorators cls)).
Proof.
  unfold hasControllerDecorator. rewrite find_is_Some, existsb_exists.
  by setoid_rewrite list_elem_of_In.
Qed.

(** [extractControllerInfo] answers exactly for the classes that
    [hasControllerDecorator] accepts, so the class that [scanFile]
    picks always yields controller info: a source file is either
    without a controller, when no class of it is accepted, or it gives
    the info of its first accepted class. The info has a name that is
    not empty, no file path yet, a guard flag, and a method entry for
    exactly the methods that [extractMethodInfo] describes. *)
Theorem extractControllerInfo_answers_for_controllers cls classes :
  (is_Some (extractControllerInfo cls) ↔ hasControllerDecorator cls = true)
  ∧ analyzeClasses classes ≠ IncrementalScanner.HasController None
  ∧ (analyzeClasses classes = IncrementalScanner.NoController
     ↔ ∀ c, c ∈ classes → hasControllerDecorator c = false)
  ∧ (∀ info, analyzeClasses classes = IncrementalScanner.HasController (Some info) →
       ∃ pre controllerClass post,
         classes = pre ++ controllerClass :: post
         ∧ (∀ c, c ∈ pre → hasControllerDecorator c = false)
         ∧ extractControllerInfo controllerClass = Some info)
  ∧ ∀ info, extractControllerInfo cls = Some info →
      IncrementalScanner.name info ≠ EmptyString
      ∧ IncrementalScanner.filePath info = None
      ∧ is_Some (IncrementalScanner.hasGuards info)
      ∧ ∀ entry, entry ∈ IncrementalScanner.methods info
                 ↔ ∃ method, method ∈ c_getMethods cls
                             ∧ extractMethodInfo method = Some entry.
Proof.
  assert (Hiff : ∀ c, is_Some (extractControllerInfo c)
                      ↔ hasControllerDecorator c = true).
  { intros c. rewrite hasControllerDecorator_find.
    unfold ControllerExtraction.extractControllerInfo.
    destruct (find (calls "Controller") (c_getDecorators c)); [|done].
    split; eauto. }
  assert (Hfilter : ∀ l : list (ClassDeclaration (TypeNode := TypeNode)),
            match filter (λ c, hasControllerDecorator c = true) l with
            | [] => ∀ c, c ∈ l → hasControllerDecorator c = false
            | first :: _ =>
              hasControllerDecorator first = true
              ∧ ∃ pre post, l = pre ++ first :: post
                            ∧ ∀ c, c ∈ pre → hasControllerDecorator c = false
            end).
  { induction l as [|a l IH]; [by intros c ?%elem_of_nil|].
    rewrite filter_cons. destruct (decide (hasControllerDecorator a = true)) as [Ha|Ha].
    - split; [done|]. exists [], l. split; [done|]. by intros c ?%elem_of_nil.
    - apply not_true_is_false in Ha.
      destruct (filter _ l) as [|first rest].
      + intros c [->|?]%elem_of_cons; auto.
      + destruct IH as (Hfirst & pre & post & -> & Hpre). split; [done|].
        exists (a :: pre), post. split; [done|].
        intros c [->|?]%elem_of_cons; auto. }
  split; [apply Hiff|]. specialize (Hfilter classes).
  assert (Hinfo : ∀ info, extractControllerInfo cls = Some info →
      IncrementalScanner.name info ≠ EmptyString
      ∧ IncrementalScanner.filePath info = None
      ∧ is_Some (IncrementalScanner.hasGuards info)
      ∧ ∀ entry, entry ∈ IncrementalScanner.methods info
                 ↔ ∃ method, method ∈ c_getMethods cls
                             ∧ extractMethodInfo method = Some entry).
  { intros info. unfold ControllerExtraction.extractControllerInfo.
    destruct (find (calls "Controller") (c_getDecorators cls)); [|done].
    intros [= <-]. simpl. split.
    - destruct (c_getName cls) as [name|]; [|done]. by case_decide.
    - split; [done|]. split; [eauto|]. intros entry. apply list_elem_of_omap. }
  unfold ControllerExtraction.analyzeClasses.
  destruct (filter _ classes) as [|first rest] eqn:Hf.
  - split; [done|]. split; [done|]. split; [done|]. exact Hinfo.
  - destruct Hfilter as (Hfirst & pre & post & Hl & Hpre).
    pose proof Hfirst as [info Hfound]%Hiff. rewrite Hfound.
    split; [done|]. split; [|split; [|exact Hinfo]].
    + split; [done|]. intros Hnone. specialize (Hnone first).
      rewrite Hfirst in Hnone. discriminate Hnone.
      rewrite Hl, elem_of_app, elem_of_cons. auto.
    + intros info' [= <-]. exists pre, first, post. done.
Qed.

End extraction_facts.

(** * Concrete runs *)

Section runs.

Local Open Scope string_scope.


(** The cache and the tracker after the first cycle hold the chain. *)
Lemma chain_scanned :
  CacheManager.dependencies
    (CacheManager.metadata (IncrementalScanner.cacheManager Chain.scanned))
  = {[ "a.ts" := {[ "b.ts" ]}; "b.ts" := {[ "c.ts" ]} ]}
  ∧ DependencyTracker.reverseDependencyGraph Chain.tracker
    = {[ "b.ts" := {[ "a.ts" ]}; "c.ts" := {[ "b.ts" ]} ]}
  ∧ DependencyTracker.inheritanceGraph Chain.tracker
    = {[ "a.ts" := {[ "b.ts" ]}; "b.ts" := {[ "c.ts" ]} ]}.
Proof. by_evaluation. Qed.

(** C1. The code at the failing input: with [a.ts] depending on
    [b.ts] and [b.ts] on [c.ts], removing [c.ts] puts only the direct
    dependent [b.ts] in the affected set. [a.ts], which the tracker's
    own [getAffectedFiles] reports for [c.ts], is not there and gets no
    entry in the result of the cycle. *)
Theorem handleFileDelete_misses_transitive_dependents :
  DependencyTracker.getAffectedFiles id Chain.tracker "c.ts" = {[ "a.ts"; "b.ts" ]}
  ∧ (IncrementalScanner.resolve id Chain.basename Chain.scanned Chain.removed).1
    = ["b.ts"]
  ∧ dom (IncrementalScanner.results Chain.second) = {[ "b.ts" ]}
  ∧ IncrementalScanner.results Chain.second !! "a.ts" = None.
Proof.
  split; [by_evaluation|]. split; [by_evaluation|]. split; [by_evaluation|].
  by vm_compute.
Qed.

(** C2. The code at the failing input: [q.ts] imports [p.ts], the two
    indices are symmetric, and [removeDependency("p.ts")] deletes the
    reverse entry of [p.ts] but leaves [p.ts] in the forward set of
    [q.ts]: the invariant is broken. *)
Theorem removeDependency_breaks_symmetry :
  let g := graph_q_imports_p in
  let g' := DependencyTracker.removeDependency id g "p.ts" in
  DependencyTracker.symmetric g
  ∧ DependencyTracker.dependencyGraph g' !! "q.ts" = Some {[ "p.ts" ]}
  ∧ DependencyTracker.reverseDependencyGraph g' !! "p.ts" = None
  ∧ ¬ DependencyTracker.symmetric g'.
Proof.
  intros g g'.
  assert (Hfwd : DependencyTracker.dependencyGraph g' !! "q.ts"
                 = Some {[ "p.ts" ]}) by by_evaluation.
  assert (Hrev : DependencyTracker.reverseDependencyGraph g' !! "p.ts" = None)
    by exact (removeDependency_reverse_eq id g "p.ts").
  split; [|split; [done|split; [done|]]].
  - apply updateDependency_symmetric, symmetric_empty.
  - intros Hsym. specialize (Hsym "q.ts" "p.ts").
    rewrite Hfwd, Hrev in Hsym. simpl in Hsym.
    apply (not_elem_of_empty (C := gset string) "q.ts").
    apply Hsym. by apply elem_of_singleton.
Qed.

Lemma isDtoFile_by_name :
  DependencyTracker.isDtoFile id Chain.basename "create-user.dto.ts" = true
  ∧ DependencyTracker.isDtoFile id Chain.basename "User.Entity.ts" = true
  ∧ DependencyTracker.isDtoFile id Chain.basename "users.controller.ts" = false
  ∧ DependencyTracker.isDtoFile id Chain.basename "dto.ts" = false.
Proof. by_evaluation. Qed.

Lemma getAffectedFiles_cyclic :
  DependencyTracker.getAffectedFiles id cyclic "x.ts" = {[ "x.ts"; "y.ts" ]}.
Proof. by_evaluation. Qed.

Lemma hasFileChanged_two_layer_witness :
  (Collision.check Collision.manager).1.1 = true.
Proof.
  refine (proj1 (proj2 (proj2
            (hasFileChanged_two_layer Collision.sources Collision.manager "a.ts" "h")))
            Collision.cached 3%Z _ _ _ _).
  - reflexivity.
  - reflexivity.
  - reflexivity.
  - discriminate.
Defined.

(** The third collision on [h] brings its counter to 3 and prints the
    collision only: no escalation. *)
Lemma third_collision_is_silent :
  let m1 := (Collision.check Collision.manager).1.2 in
  let m2 := (Collision.check m1).1.2 in
  let third := Collision.check m2 in
  third.1.1 = true
  ∧ CacheManager.collisions third.1.2 "h" = 3
  ∧ third.2 = [CacheManager.CollisionDetected "a.ts" "h" 5 3].
Proof. vm_compute. done. Qed.

Lemma trackHashCollision_escalates_from_fourth_witness :
  let '(changed, m', out) := Collision.check Collision.manager in
  changed = true
  ∧ CacheManager.collisions m' "h" = (CacheManager.collisions Collision.manager "h" + 1)%nat
  ∧ (∀ h, h ≠ "h" →
       CacheManager.collisions m' h = CacheManager.collisions Collision.manager h)
  ∧ (CacheManager.CollisionEscalation "h" (CacheManager.collisions m' "h") ∈ out
     ↔ (4 ≤ CacheManager.collisions m' "h")%nat)
  ∧ ((CacheManager.collisions m' "h" ≤ 3)%nat →
     ∀ h n, CacheManager.CollisionEscalation h n ∉ out).
Proof.
  apply (trackHashCollision_escalates_from_fourth
           Collision.sources Collision.manager "a.ts" Collision.cached 3%Z).
  - reflexivity.
  - reflexivity.
  - discriminate.
Defined.

(** A manager that holds a record and finds no cache file: [load]
    returns false and the record is still there. *)
Lemma load_failure_keeps_store :
  CacheManager.unusable 0 ∅ Collision.manager
  ∧ (CacheManager.load 0 ∅ Collision.manager).1 = false
  ∧ CacheManager.getController (CacheManager.load 0 ∅ Collision.manager).2 "a.ts"
    = Some Collision.cached.
Proof. split; [by left|]. split; reflexivity. Qed.

Lemma load_fails_closed_witness :
  let m := CacheManager.new (ControllerInfo := unit) "scramble-cache.json" 0
             Chain.noOptions in
  CacheManager.load 0 ∅ m = (false, m)
  ∧ CacheManager.controllers (CacheManager.metadata (CacheManager.load 0 ∅ m).2) = ∅.
Proof.
  intros m.
  destruct (load_fails_closed 0 ∅ m) as (Hload & _ & Hfresh); [by left|].
  split; [exact Hload|].
  exact (proj1 (Hfresh "scramble-cache.json" 0%Z Chain.noOptions eq_refl)).
Defined.

Lemma save_load_roundtrip_witness :
  ∃ disk' m',
    CacheManager.save 2 true ∅ (IncrementalScanner.cacheManager Chain.scanned)
      = (true, disk')
    ∧ CacheManager.load 1000 disk'
        (CacheManager.new "scramble-cache.json" 1000 Chain.noOptions) = (true, m')
    ∧ CacheManager.dependencies (CacheManager.metadata m')
      = {[ "a.ts" := {[ "b.ts" ]}; "b.ts" := {[ "c.ts" ]} ]}.
Proof.
  destruct (save_load_roundtrip 2 1000 ∅
              (IncrementalScanner.cacheManager Chain.scanned)
              (CacheManager.new "scramble-cache.json" 1000 Chain.noOptions))
    as (disk' & m' & Hsave & Hload & _ & Hdeps & _).
  - by_evaluation.
  - by_evaluation.
  - by_evaluation.
  - reflexivity.
  - by_evaluation.
  - exists disk', m'. split; [exact Hsave|]. split; [exact Hload|].
    rewrite Hdeps. by_evaluation.
Defined.

(** A kill in the middle of [save] leaves a file that does not parse
    where a valid snapshot was. *)
Lemma save_can_leave_torn_file :
  let m := CacheManager.new (ControllerInfo := unit) "scramble-cache.json" 0
             Chain.noOptions in
  let old := CacheManager.Json (CacheManager.serializable 0 m) in
  let disk := {[ "scramble-cache.json" := old ]} in
  let torn := <[ "scramble-cache.json" := CacheManager.Unparseable ]> disk in
  CacheManager.enabled m = true
  ∧ disk !! "scramble-cache.json" = Some old
  ∧ torn ∈ CacheManager.crash_states disk (CacheManager.save_ops 1 m)
  ∧ torn !! "scramble-cache.json" = Some CacheManager.Unparseable.
Proof.
  intros m old disk torn. split; [done|]. split; [done|]. split; [|done].
  simpl. right. by left.
Qed.

Lemma save_writes_in_place_witness :
  let m := CacheManager.new (ControllerInfo := unit) "scramble-cache.json" 0
             Chain.noOptions in
  CacheManager.crash_states ∅ (CacheManager.save_ops 1 m)
  = [∅;
     {[ "scramble-cache.json" := CacheManager.Unparseable ]};
     {[ "scramble-cache.json" := CacheManager.Json (CacheManager.serializable 1 m) ]}].
Proof.
  intros m. exact (proj1 (proj2 (proj2 (save_writes_in_place 1 ∅ m eq_refl)))).
Defined.

Lemma processFileChanges_reuses_cache_witness :
  let out := Chain.processFileChanges 3 true Chain.sources
               (IncrementalScanner.disk Chain.first) Chain.scanned Chain.touched in
  (IncrementalScanner.Analyzed "a.ts" ∉ IncrementalScanner.trace out)
  ∧ IncrementalScanner.results out !! "a.ts"
    = Some (Some (CacheManager.controllerInfo Chain.cached_a))
  ∧ IncrementalScanner.DependenciesAnalyzed "a.ts" ∈ IncrementalScanner.trace out.
Proof.
  destruct (processFileChanges_reuses_cache id Chain.basename Chain.digest
              3%Z true Chain.sources (IncrementalScanner.disk Chain.first)
              Chain.scanned Chain.touched Chain.project "a.ts" Chain.cached_a)
    as (_ & Htrace & Hresult & Hdeps).
  - by_evaluation.
  - vm_compute. reflexivity.
  - vm_compute. reflexivity.
  - by_evaluation.
  - split; [exact Htrace|]. split; [apply Hresult; by_evaluation|].
    apply Hdeps; by_evaluation.
Defined.

(** The third cycle at work: [a.ts] is as cached, the cached result
    comes back, and the one thing the cycle runs is the dependency
    analysis of [a.ts]. *)
Lemma cache_hit_still_analyzes_dependencies :
  let out := Chain.processFileChanges 3 true Chain.sources
               (IncrementalScanner.disk Chain.first) Chain.scanned Chain.touched in
  (CacheManager.hasFileChanged Chain.sources
     (IncrementalScanner.cacheManager Chain.scanned) "a.ts"
     (CacheManager.calculateHash Chain.digest Chain.sources
        (IncrementalScanner.cacheManager Chain.scanned) "a.ts")).1.1 = false
  ∧ IncrementalScanner.results out !! "a.ts"
    = Some (Some (CacheManager.controllerInfo Chain.cached_a))
  ∧ IncrementalScanner.trace out = [IncrementalScanner.DependenciesAnalyzed "a.ts"].
Proof.
  intros out. split; [by_evaluation|]. split; vm_compute; reflexivity.
Qed.

Lemma getAffectedFiles_excludes_start_witness :
  ("c.ts" ∉ DependencyTracker.getAffectedFiles id Chain.tracker "c.ts")
  ∧ "a.ts" ∈ (IncrementalScanner.resolve id Chain.basename Chain.scanned Chain.touched).1
  ∧ is_Some (IncrementalScanner.results
               (Chain.processFileChanges 3 true Chain.sources
                  (IncrementalScanner.disk Chain.first) Chain.scanned Chain.touched)
             !! "a.ts").
Proof.
  destruct (getAffectedFiles_excludes_start id Chain.basename Chain.digest
              Chain.tracker "c.ts" 3%Z true Chain.sources
              (IncrementalScanner.disk Chain.first)
              Chain.scanned Chain.touched
              (IncrementalScanner.mkEvent IncrementalScanner.change "a.ts"))
    as [Hstart Hevent].
  - rewrite <- (elem_of_getAffectedFiles id Chain.tracker "c.ts" "c.ts").
    by_evaluation.
  - split; [exact Hstart|].
    destruct Hevent as [Haffected Hresult];
      [reflexivity|by_evaluation|by left|discriminate|].
    split; [exact Haffected|]. apply Hresult. by_evaluation.
Defined.

(** *** Instances of the further properties *)

Lemma updateDependency_lookup_witness :
  "r.ts" ∈ DependencyTracker.getDependencies id
             (DependencyTracker.updateDependency id
                (Some (imports_only ["r.ts"] "q.ts")) graph_q_imports_p "q.ts")
             "q.ts".
Proof.
  destruct (updateDependency_lookup id (Some (imports_only ["r.ts"] "q.ts"))
              graph_q_imports_p "q.ts") as (Hdeps & _).
  - apply (updateDependency_symmetric id), symmetric_empty.
  - apply Hdeps. by left.
Defined.

Lemma removeDependency_lookup_witness :
  DependencyTracker.getDependencies id
    (DependencyTracker.removeDependency id graph_q_imports_p "q.ts") "q.ts" = [].
Proof.
  destruct (removeDependency_lookup id graph_q_imports_p "q.ts") as (Hdeps & _).
  - apply (updateDependency_symmetric id), symmetric_empty.
  - exact Hdeps.
Defined.

Lemma inheritance_entries_are_never_dropped_witness :
  "b.ts" ∈ DependencyTracker.getAffectedFiles id
             (DependencyTracker.removeDependency id Chain.tracker "b.ts") "c.ts".
Proof.
  refine (proj1 (inheritance_entries_are_never_dropped id Chain.tracker "b.ts" "c.ts" _)).
  exists {[ "c.ts" ]}. split; by_evaluation.
Defined.

Lemma getDependencyInfo_dependents_affected_witness :
  "b.ts" ∈ DependencyTracker.di_transitiveAffected
             (DependencyTracker.getDependencyInfo id Chain.tracker "c.ts").
Proof.
  destruct (getDependencyInfo_dependents_affected id Chain.tracker "c.ts")
    as (_ & Hsub & _).
  - reflexivity.
  - apply Hsub. by_evaluation.
Defined.

Lemma scanFile_again_is_a_hit_witness :
  let s1 := (IncrementalScanner.scanFile id Chain.digest 1 Chain.sources
               Chain.fresh "a.ts").1.2 in
  IncrementalScanner.scanFile id Chain.digest 2 Chain.sources s1 "a.ts"
  = (Some (CacheManager.controllerInfo Chain.cached_a), s1, []).
Proof.
  apply (scanFile_again_is_a_hit id Chain.digest 1%Z 2%Z Chain.sources
           Chain.sources Chain.fresh "a.ts").
  - by_evaluation.
  - by_evaluation.
  - reflexivity.
  - vm_compute. reflexivity.
Defined.

Lemma scanFile_negative_is_not_cached_witness :
  (IncrementalScanner.scanFile id Chain.digest 1 Chain.sources
     Chain.helper_scanner "a.ts").1.1 = None.
Proof.
  refine (proj1 (scanFile_negative_is_not_cached id Chain.digest 1%Z 2%Z
                   Chain.sources Chain.helper_scanner Chain.helpers "a.ts" _ _ _)).
  - reflexivity.
  - reflexivity.
  - intros cached (_ & Hc & _). vm_compute in Hc. discriminate.
Defined.

Lemma processFileChanges_results_domain_witness :
  is_Some (IncrementalScanner.results Chain.first !! "a.ts").
Proof.
  apply (processFileChanges_results_domain id Chain.basename Chain.digest
           1%Z true Chain.sources ∅ Chain.fresh).
  - reflexivity.
  - by_evaluation.
  - split; by_evaluation.
Defined.

Lemma processFileChanges_persists_witness :
  ∃ m', CacheManager.load 1000 (IncrementalScanner.disk Chain.first)
          (CacheManager.new "scramble-cache.json" 1000 Chain.noOptions) = (true, m')
        ∧ CacheManager.getController m' "a.ts"
          = CacheManager.getController
              (IncrementalScanner.cacheManager Chain.scanned) "a.ts".
Proof.
  destruct (processFileChanges_persists id Chain.basename Chain.digest
              1%Z 1000%Z Chain.sources ∅ Chain.fresh
              [IncrementalScanner.mkEvent IncrementalScanner.add "a.ts";
               IncrementalScanner.mkEvent IncrementalScanner.add "b.ts";
               IncrementalScanner.mkEvent IncrementalScanner.add "c.ts"]
              (CacheManager.new "scramble-cache.json" 1000 Chain.noOptions))
    as (m' & Hload & Hrecords & _).
  - reflexivity.
  - by_evaluation.
  - reflexivity.
  - reflexivity.
  - reflexivity.
  - reflexivity.
  - by_evaluation.
  - exists m'. split; [exact Hload|]. apply Hrecords.
Defined.

Lemma initialize_keeps_valid_records_witness :
  let s' := (IncrementalScanner.initialize Chain.digest Chain.project 5 true
               Chain.sources "tsconfig.json"
               (IncrementalScanner.disk Chain.first) Chain.cold).1 in
  IncrementalScanner.isInitialized s' = true
  ∧ IncrementalScanner.project s' = Some Chain.project
  ∧ IncrementalScanner.dependencyTracker s' = Some DependencyTracker.empty.
Proof.
  destruct (initialize_keeps_valid_records Chain.digest Chain.project 5%Z true
              Chain.sources "tsconfig.json"
              (IncrementalScanner.disk Chain.first) Chain.cold)
    as (Hinit & Hproj & Htracker & _).
  - reflexivity.
  - split; [exact Hinit|]. split; [exact Hproj|exact Htracker].
Defined.

Lemma scanControllers_survives_restart_witness :
  let scan := IncrementalScanner.scanControllers id Chain.digest Chain.project
                (Some ["a.ts"; "b.ts"; "c.ts"]) 1 true true Chain.workspace
                "tsconfig.json" ∅ Chain.cold in
  let s' := (IncrementalScanner.initialize Chain.digest Chain.project 2 true
               Chain.workspace "tsconfig.json"
               (IncrementalScanner.scan_disk scan) Chain.cold).1 in
  CacheManager.getController (IncrementalScanner.cacheManager s') "a.ts"
  = if decide (is_Some (Chain.workspace !! "a.ts"))
    then CacheManager.getController
           (IncrementalScanner.cacheManager (IncrementalScanner.scan_scanner scan))
           "a.ts"
    else None.
Proof.
  apply (scanControllers_survives_restart id Chain.digest Chain.project
           Chain.project ["a.ts"; "b.ts"; "c.ts"] 1%Z 2%Z true true
           Chain.workspace Chain.workspace "tsconfig.json" ∅ Chain.cold Chain.cold).
  - reflexivity.
  - reflexivity.
  - reflexivity.
  - reflexivity.
  - reflexivity.
  - by_evaluation.
  - reflexivity.
  - intros content Hc. vm_compute in Hc. injection Hc as <-. discriminate.
Defined.

Lemma processFileChanges_forgets_deleted_witness :
  CacheManager.getController
    (IncrementalScanner.cacheManager (IncrementalScanner.scanner Chain.second))
    "c.ts" = None.
Proof.
  refine (proj1 (processFileChanges_forgets_deleted id Chain.basename Chain.digest
                   2%Z true (delete "c.ts" Chain.sources)
                   (IncrementalScanner.disk Chain.first) Chain.scanned Chain.removed
                   (IncrementalScanner.mkEvent IncrementalScanner.unlink "c.ts")
                   _ _ _ _ _)).
  - reflexivity.
  - by_evaluation.
  - by left.
  - reflexivity.
  - assert (Haffected : (IncrementalScanner.resolve id Chain.basename Chain.scanned
                           Chain.removed).1 = ["b.ts"]) by by_evaluation.
    rewrite Haffected. intros q ->%list_elem_of_singleton _. discriminate.
Defined.


End runs.
